(** * Blender batch scripts: [crowdControl.py] and [shedScaleSkin.py]

    A shallow embedding of the two scripts over an explicit model of the
    part of the host (Blender 2.80) state they read and write.

    Conventions of the host model
    - [bpy.data.objects], [bpy.data.meshes] and [bpy.data.materials] are
      lists; a Python reference to one of their elements is its position.
    - Coordinates are real numbers. The host computes in single precision:
      what is proved here about coordinates is proved in exact arithmetic,
      and holds in the host up to the rounding of its floats.
    - The host is in object mode, every object is linked to the active view
      layer, visible, selectable and unparented, so that an operator that
      acts "on the selected objects" acts on exactly the objects whose
      selection flag is set. An operator is refused with [RuntimeError] when
      its poll fails, as the host does.
    - New objects and meshes get names of their own: the name asked for,
      with a number when it is taken.
    - A Python exception leaves the host in the state reached when it was
      raised; outcomes therefore carry that state. *)

From Stdlib Require Import Reals Lra Lia ZArith String List DecimalString.
From Stdlib Require DecimalNat.
From stdpp Require Import base option list.

(** ** mathutils.Vector *)

Module Vec.
Local Open Scope R_scope.

Record Vector := mk { x : R; y : R; z : R }.

Definition zero : Vector := mk 0 0 0.
Definition add (a b : Vector) : Vector := mk (x a + x b) (y a + y b) (z a + z b).
Definition sub (a b : Vector) : Vector := mk (x a - x b) (y a - y b) (z a - z b).
(** [v * s], a vector times a number *)
Definition mul (v : Vector) (s : R) : Vector := mk (x v * s) (y v * s) (z v * s).
Definition dot (a b : Vector) : R := x a * x b + y a * y b + z a * z b.
(** [v.length] *)
Definition length (v : Vector) : R := sqrt (dot v v).

(** [v.normalize()]: the vector scaled to length 1; a vector of length 0
    stays the zero vector. *)
Definition normalize (v : Vector) : Vector :=
  if Rlt_dec 0 (dot v v) then mul v (/ length v) else zero.


(** The rotation and scale part of a transformation matrix, by rows. *)
Record Matrix3 := mk3 { row1 : Vector; row2 : Vector; row3 : Vector }.

Definition identity3 : Matrix3 := mk3 (mk 1 0 0) (mk 0 1 0) (mk 0 0 1).
Definition apply3 (m : Matrix3) (v : Vector) : Vector :=
  mk (dot (row1 m) v) (dot (row2 m) v) (dot (row3 m) v).

End Vec.

Abbreviation Vector := Vec.Vector.
Abbreviation Matrix3 := Vec.Matrix3.

(** ** Host state *)

(** [bpy.types.RigidBodyObject]: its type, ['ACTIVE'] or ['PASSIVE'], and the
    remaining settings taken as one value. *)
Record RigidBody := mkRigidBody { rb_type : string; rb_settings : nat }.

(** [bpy.types.Object] *)
Record Object := mkObject {
  name : string;
  selected : bool;                       (* select_get() / select_set(b) *)
  location : Vector;
  rot_scale : Matrix3;                   (* rotation and scale of the object *)
  data : option nat;                     (* position in bpy.data.meshes *)
  rigid_body : option RigidBody;
  active_material_index : nat;
  baked : option (Z * Z * Z)             (* frames baked to keyframes *)
}.

Definition set_selected (b : bool) (o : Object) : Object :=
  mkObject (name o) b (location o) (rot_scale o) (data o) (rigid_body o)
           (active_material_index o) (baked o).

Definition set_location (v : Vector) (o : Object) : Object :=
  mkObject (name o) (selected o) v (rot_scale o) (data o) (rigid_body o)
           (active_material_index o) (baked o).

Definition set_rigid_body (r : option RigidBody) (o : Object) : Object :=
  mkObject (name o) (selected o) (location o) (rot_scale o) (data o) r
           (active_material_index o) (baked o).

Definition set_active_material_index (i : nat) (o : Object) : Object :=
  mkObject (name o) (selected o) (location o) (rot_scale o) (data o) (rigid_body o)
           i (baked o).

Definition set_baked (k : option (Z * Z * Z)) (o : Object) : Object :=
  mkObject (name o) (selected o) (location o) (rot_scale o) (data o) (rigid_body o)
           (active_material_index o) k.

(** [o.matrix_world] as a map on points *)
Definition matrix_world (o : Object) (v : Vector) : Vector :=
  Vec.add (Vec.apply3 (rot_scale o) v) (location o).

(** A UV coordinate pair *)
Definition UV : Type := R * R.

(** [bpy.types.MeshPolygon]: the vertex positions of its corners (its loops
    are numbered [loop_start], [loop_start + 1], ...) and its material slot. *)
Record MeshPolygon := mkPolygon {
  vertices : list nat;
  loop_start : nat;
  material_index : nat
}.

(** [bpy.types.Mesh] *)
Record Mesh := mkMesh {
  mesh_name : string;
  mesh_vertices : list Vector;
  polygons : list MeshPolygon;
  uv_layers_active : option (list UV);   (* uv_layers.active.data, per loop *)
  mesh_materials : list (option nat)     (* slots: positions in bpy.data.materials *)
}.

Definition set_mesh_vertices (vs : list Vector) (m : Mesh) : Mesh :=
  mkMesh (mesh_name m) vs (polygons m) (uv_layers_active m) (mesh_materials m).

Definition set_mesh_materials (ms : list (option nat)) (m : Mesh) : Mesh :=
  mkMesh (mesh_name m) (mesh_vertices m) (polygons m) (uv_layers_active m) ms.

(** The part of the host state the scripts touch. *)
Record State := mkState {
  objects : list Object;                 (* bpy.data.objects *)
  meshes : list Mesh;                    (* bpy.data.meshes *)
  materials : list string;               (* bpy.data.materials, by name *)
  active : option nat;                   (* bpy.context.view_layer.objects.active *)
  rigidbody_world : bool                 (* scene.rigidbody_world is not None *)
}.

Definition set_objects (os : list Object) (st : State) : State :=
  mkState os (meshes st) (materials st) (active st) (rigidbody_world st).

Definition set_meshes (ms : list Mesh) (st : State) : State :=
  mkState (objects st) ms (materials st) (active st) (rigidbody_world st).

Definition set_active (a : option nat) (st : State) : State :=
  mkState (objects st) (meshes st) (materials st) a (rigidbody_world st).

Definition set_rigidbody_world (w : bool) (st : State) : State :=
  mkState (objects st) (meshes st) (materials st) (active st) w.

(** ** Host calls used by both scripts *)

(** [o.select_set(b)] for the object at position [i] *)
Definition select_set (i : nat) (b : bool) (st : State) : State :=
  set_objects (alter (set_selected b) i (objects st)) st.

(** [bpy.ops.object.select_all(action='DESELECT')] *)
Definition select_all_DESELECT (st : State) : State :=
  set_objects (set_selected false <$> objects st) st.

(** An operator that acts on the selected objects *)
Definition on_selected (f : Object -> Object) (st : State) : State :=
  set_objects ((fun o => if selected o then f o else o) <$> objects st) st.

Definition translate_object (value : Vector) (o : Object) : Object :=
  set_location (Vec.add (location o) value) o.

(** [bpy.ops.transform.translate(value= v)] *)
Definition transform_translate (value : Vector) (st : State) : State :=
  on_selected (translate_object value) st.

(** * crowdControl.py *)

Definition name_matches (nameRoot : string) (os : list Object) (i : nat) : bool :=
  match os !! i with
  | Some o => String.prefix nameRoot (name o)
  | None => false
  end.

(** [_getObjList]: the objects whose names begin with [nameRoot], in the
    order of [bpy.data.objects] *)
Definition _getObjList (nameRoot : string) (st : State) : list nat :=
  filter (fun i => name_matches nameRoot (objects st) i)
         (seq 0 (length (objects st))).

Definition select (nameRoot : string) (st : State) : State :=
  foldl (fun s o => select_set o true s) st (_getObjList nameRoot st).

Definition deselect (nameRoot : string) (st : State) : State :=
  foldl (fun s o => select_set o false s) st (_getObjList nameRoot st).

Definition move (nameRoot : string) (vector : Vector) (st : State) : State :=
  let st := select_all_DESELECT st in
  let st := select nameRoot st in
  transform_translate vector st.

(** The body of the loop of [move_towards] for one object [o] *)
Definition move_towards_step (targetV : Vector) (value : R) (st : State) (o : nat)
  : State :=
  let st := select_set o true st in
  match objects st !! o with
  | Some ob =>
      let vector := Vec.sub targetV (location ob) in
      let vector := Vec.normalize vector in
      let st := transform_translate (Vec.mul vector value) st in
      select_set o false st
  | None => st
  end.

Definition move_towards (nameRoot : string) (target : Vector) (value : R)
  (st : State) : State :=
  let st := select_all_DESELECT st in
  let targetV := target in
  let all := _getObjList nameRoot st in
  foldl (move_towards_step targetV value) st all.

(** ** Calls that can raise *)

Inductive Exn :=
  | KeyError | IndexError | AttributeError | TypeError | ValueError
  | RuntimeError | ReferenceError.

(** The result of running a piece of script: a value and the state reached,
    or the exception raised and the state reached when it was raised. *)
Inductive Outcome (A : Type) :=
  | Return (a : A) (st : State)
  | Raise (e : Exn) (st : State).
Arguments Return {A} a st.
Arguments Raise {A} e st.

Definition M (A : Type) : Type := State -> Outcome A.

Definition ret {A} (a : A) : M A := fun st => Return a st.
Definition raise {A} (e : Exn) : M A := fun st => Raise e st.
Definition bind {A B} (c : M A) (k : A -> M B) : M B :=
  fun st => match c st with
            | Return a st' => k a st'
            | Raise e st' => Raise e st'
            end.
(** a call that cannot raise *)
Definition exec (f : State -> State) : M unit := fun st => Return tt (f st).
(** reading the host state *)
Definition gets {A} (f : State -> A) : M A := fun st => Return (f st) st.
(** a value that must not be [None] *)
Definition some_or {A} (e : Exn) (o : option A) : M A :=
  match o with Some a => ret a | None => raise e end.

Notation "'let*' x ':=' c 'in' k" := (bind c (fun x => k))
  (at level 10, x binder, c at level 100, k at level 200).
Notation "c ';;' k" := (bind c (fun _ => k))
  (at level 100, k at level 200, right associativity).

(** [for x in l: body x] *)
Fixpoint for_each {B} (l : list B) (body : B -> M unit) : M unit :=
  match l with
  | [] => ret tt
  | b :: l' => body b ;; for_each l' body
  end.

(** [for x in l: a = body a x], for a loop that updates local variables [a] *)
Fixpoint fold_each {A B} (l : list B) (a : A) (body : A -> B -> M A) : M A :=
  match l with
  | [] => ret a
  | b :: l' => let* a' := body a b in fold_each l' a' body
  end.

(** the state an outcome ends in *)
Definition final {A} (r : Outcome A) : State :=
  match r with Return _ st => st | Raise _ st => st end.

(** The values of the [type] argument of [bpy.ops.rigidbody.object_add] *)
Definition is_rigid_body_type (type : string) : bool :=
  String.eqb type "ACTIVE" || String.eqb type "PASSIVE".

(** [bpy.ops.rigidbody.object_add(type= type)]: the active object must be a
    mesh object (the operator's poll), and [type] must be ['ACTIVE'] or
    ['PASSIVE'] (the conversion of the arguments). A rigid body that is
    already there keeps its settings and takes the new type. The scene gets
    a rigid body world if it has none. *)
Definition rigidbody_object_add (type : string) : M unit :=
  let* act := gets active in
  let* i := some_or RuntimeError act in
  let* ob := gets (fun st => objects st !! i) in
  let* o := some_or RuntimeError ob in
  let* _ := some_or RuntimeError (data o) in
  (if is_rigid_body_type type then ret tt else raise TypeError) ;;
  let rb := match rigid_body o with
            | Some r => mkRigidBody type (rb_settings r)
            | None => mkRigidBody type 0
            end in
  exec (fun st =>
    set_rigidbody_world true
      (set_objects (alter (set_rigid_body (Some rb)) i (objects st)) st)).

(** [bpy.ops.rigidbody.object_remove()]: the active object must have a rigid
    body. *)
Definition rigidbody_object_remove : M unit :=
  let* act := gets active in
  let* i := some_or RuntimeError act in
  let* ob := gets (fun st => objects st !! i) in
  let* o := some_or RuntimeError ob in
  let* _ := some_or RuntimeError (rigid_body o) in
  exec (fun st => set_objects (alter (set_rigid_body None) i (objects st)) st).

(** a rigid body of type ['ACTIVE'] *)
Definition is_active_rigid_body (o : Object) : bool :=
  match rigid_body o with
  | Some r => String.eqb (rb_type r) "ACTIVE"
  | None => false
  end.

(** What [bake_to_keyframes] does to a selected object: a rigid body of type
    ['ACTIVE'] gets keyframes and loses its rigid body; any other object is
    deselected. (The transforms that the keyframes hold are not modelled.) *)
Definition bake_object (frames : Z * Z * Z) (o : Object) : Object :=
  if is_active_rigid_body o
  then set_baked (Some frames) (set_rigid_body None o)
  else set_selected false o.

(** [bpy.ops.rigidbody.bake_to_keyframes(frame_start, frame_end, step)]: the
    active object must have a rigid body (the operator's poll). *)
Definition rigidbody_bake_to_keyframes (frame_start frame_end step : Z) : M unit :=
  let* act := gets active in
  let* i := some_or RuntimeError act in
  let* ob := gets (fun st => objects st !! i) in
  let* o := some_or RuntimeError ob in
  let* _ := some_or RuntimeError (rigid_body o) in
  exec (on_selected (bake_object (frame_start, frame_end, step))).

(** What [object_settings_copy] does to a selected object: a mesh object
    gets the settings [rb], with a rigid body of its own if it had none; any
    other object is deselected. *)
Definition copy_settings_object (rb : RigidBody) (o : Object) : Object :=
  match data o with
  | Some _ => set_rigid_body (Some rb) o
  | None => set_selected false o
  end.

(** a selected mesh object without a rigid body *)
Definition wants_rigid_body (o : Object) : bool :=
  selected o && match data o, rigid_body o with
                | Some _, None => true
                | _, _ => false
                end.

(** [bpy.ops.rigidbody.object_settings_copy()]: from the active object, which
    must have a rigid body (the operator's poll), to the selected objects. The
    operator adds the rigid bodies that are missing with [object_add], which
    gives the scene a rigid body world if it has none. *)
Definition rigidbody_object_settings_copy : M unit :=
  let* act := gets active in
  let* i := some_or RuntimeError act in
  let* ob := gets (fun st => objects st !! i) in
  let* o := some_or RuntimeError ob in
  let* rb := some_or RuntimeError (rigid_body o) in
  exec (fun st =>
    set_rigidbody_world (rigidbody_world st || existsb wants_rigid_body (objects st))
      (on_selected (copy_settings_object rb) st)).

(** The rigid body of the active object, which the polls of
    [bake_to_keyframes] and [object_settings_copy] want to be there. *)
Definition active_rigid_body (st : State) : option RigidBody :=
  match active st with
  | Some i => match objects st !! i with
              | Some o => rigid_body o
              | None => None
              end
  | None => None
  end.

Definition enable_rigidbody (nameRoot : string) (type : string) : M unit :=
  let* all := gets (_getObjList nameRoot) in
  for_each all (fun o =>
    exec (set_active (Some o)) ;;
    rigidbody_object_add type) ;;
  exec (set_active None).

Definition disable_rigidbody (nameRoot : string) : M unit :=
  let* all := gets (_getObjList nameRoot) in
  for_each all (fun o =>
    exec (set_active (Some o)) ;;
    rigidbody_object_remove) ;;
  exec (set_active None).

Definition bake_rigidbody (nameRoot : string) (startFrame endFrame step : Z)
  : M unit :=
  exec select_all_DESELECT ;;
  exec (select nameRoot) ;;
  rigidbody_bake_to_keyframes startFrame endFrame step.

(** [bpy.data.objects[key]] *)
Fixpoint find_name (key : string) (os : list Object) (i : nat) : option nat :=
  match os with
  | [] => None
  | o :: os' => if String.eqb (name o) key then Some i else find_name key os' (S i)
  end.

Definition objects_getitem (key : string) : M nat :=
  let* r := gets (fun st => find_name key (objects st) 0) in
  some_or KeyError r.

Definition copy_rigidbody_settings (nameRoot template : string) : M unit :=
  exec select_all_DESELECT ;;
  let* t := objects_getitem template in
  exec (set_active (Some t)) ;;
  exec (select nameRoot) ;;
  rigidbody_object_settings_copy.

(** [bpy.data.materials.get(key)] *)
Fixpoint materials_get (key : string) (ms : list string) (i : nat) : option nat :=
  match ms with
  | [] => None
  | m :: ms' => if String.eqb m key then Some i else materials_get key ms' (S i)
  end.

(** the mesh an object refers to *)
Definition object_mesh (st : State) (o : nat) : option Mesh :=
  match objects st !! o with
  | Some ob => match data ob with
               | Some d => meshes st !! d
               | None => None
               end
  | None => None
  end.

(** [o.material_slots]: the slots of the object's mesh; none without a mesh *)
Definition material_slots (st : State) (o : nat) : list (option nat) :=
  match object_mesh st o with
  | Some m => mesh_materials m
  | None => []
  end.

(** [bpy.ops.object.material_slot_remove()]: removes the active slot of the
    active object, if it has one. The renumbering of the material indices of
    the mesh's faces is not modelled. *)
Definition material_slot_remove : M unit :=
  let* act := gets active in
  let* i := some_or RuntimeError act in
  exec (fun st =>
    match objects st !! i with
    | Some o =>
        match data o with
        | Some d =>
            let idx := active_material_index o in
            let slots := delete idx (material_slots st i) in
            let st := set_meshes (alter (set_mesh_materials slots) d (meshes st)) st in
            set_objects
              (alter (set_active_material_index (Nat.min idx (Nat.pred (length slots))))
                     i (objects st)) st
        | None => st
        end
    | None => st
    end).

(** [o.data.materials.append(m)] *)
Definition materials_append (o : nat) (m : option nat) : M unit :=
  let* ob := gets (fun st => objects st !! o) in
  let* ob := some_or ReferenceError ob in
  let* d := some_or AttributeError (data ob) in
  exec (fun st =>
    set_meshes (alter (fun me => set_mesh_materials (mesh_materials me ++ [m]) me)
                      d (meshes st)) st).

(** [while totalSlots != 0: ...; totalSlots -= 1] *)
Fixpoint remove_slots (co : nat) (totalSlots : nat) : M unit :=
  match totalSlots with
  | O => ret tt
  | S n =>
      exec (fun st => set_objects (alter (set_active_material_index 0) co (objects st)) st) ;;
      material_slot_remove ;;
      remove_slots co n
  end.

Definition assign_material (nameRoot material : string) : M unit :=
  let* m := gets (fun st => materials_get material (materials st) 0) in
  let* co := gets active in                  (* bpy.context.object, read once *)
  let* all := gets (_getObjList nameRoot) in
  for_each all (fun o =>
    exec (set_active (Some o)) ;;
    let* co := some_or AttributeError co in
    let* totalSlots := gets (fun st => length (material_slots st co)) in
    remove_slots co totalSlots ;;
    materials_append o m) ;;
  exec (set_active None).

(** * shedScaleSkin.py *)

(** ** bmesh *)

(** [BMLoop]: a corner of a face: its vertex (a position in the BMesh's
    vertices), its index and its UV coordinate. *)
Record BMLoop := mkLoop { loop_vert : nat; loop_index : Z; loop_uv : UV }.

Record BMFace := mkFace { face_loops : list BMLoop; face_material_index : nat }.

Record BMesh := mkBMesh { bm_verts : list Vector; bm_faces : list BMFace }.

Definition uv_zero : UV := (0%R, 0%R).

(** [seq[i]] of Python, where a negative index counts from the end *)
Definition py_getitem {A} (l : list A) (i : Z) : option A :=
  if (0 <=? i)%Z then l !! Z.to_nat i
  else if (0 <=? Z.of_nat (length l) + i)%Z then l !! Z.to_nat (Z.of_nat (length l) + i)
  else None.

(** [bmesh.new()] *)
Definition bmesh_new : BMesh := mkBMesh [] [].

(** [bm.from_mesh(me)]: loops are indexed as in the mesh *)
Definition from_mesh (me : Mesh) : BMesh :=
  let uvs := default [] (uv_layers_active me) in
  mkBMesh (mesh_vertices me)
    ((fun p =>
        mkFace
          (imap (fun k v => mkLoop v (Z.of_nat (loop_start p + k))
                                   (default uv_zero (uvs !! (loop_start p + k))))
                (vertices p))
          (material_index p)) <$> polygons me).

(** [bmesh.ops.transform(bm, matrix= m, verts= bm.verts)] *)
Definition bmesh_transform (m : Vector -> Vector) (bm : BMesh) : BMesh :=
  mkBMesh (m <$> bm_verts bm) (bm_faces bm).

(** [v.co] of the vertex at position [v]; a face of a host mesh only refers
    to vertices of that mesh. *)
Definition co (bm : BMesh) (v : nat) : Vector := default Vec.zero (bm_verts bm !! v).

(** [face.verts] *)
Definition face_verts (f : BMFace) : list nat := loop_vert <$> face_loops f.

(** a new loop: no index yet, the UV of a new layer *)
Definition new_loop (v : nat) : BMLoop := mkLoop v (-1) uv_zero.

(** [for v in face.verts: sBM.verts.new(v.co)] followed by
    [sBM.faces.new(sBM.verts)], which wants three vertices or more *)
Definition new_scale_bmesh (oBM : BMesh) (face : BMFace) : M BMesh :=
  let vs := co oBM <$> face_verts face in
  if (length vs <? 3)%nat then raise ValueError
  else ret (mkBMesh vs [mkFace (new_loop <$> seq 0 (length vs)) 0]).

(** The corners of a face that is turned over: the first stays the first,
    the others come in the opposite order. *)
Definition turned_over {A} (l : list A) : list A :=
  match l with
  | [] => []
  | a :: l' => a :: reverse l'
  end.

(** [bmesh.ops.extrude_face_region(bm, geom= [scale])] on a BMesh that is the
    one face [scale] with [n] corners: the vertices are duplicated, the
    duplicates carry a copy of the face and are joined to the originals by one
    quad per edge; the original face stays, turned over from its first corner.
    The new vertices are returned. The order in which the host makes the
    quads of the edges, and the corner each of them starts from, are not
    modelled: the model lists them edge by edge, and what is proved about
    the faces of a scale does not depend on their order. *)
Definition extrude_face_region (bm : BMesh) : BMesh * list nat :=
  let n := length (bm_verts bm) in
  let top := mkFace (new_loop <$> seq n n) 0 in
  let side k := mkFace (new_loop <$> [k; S k mod n; n + S k mod n; n + k]) 0 in
  let flip f := mkFace (turned_over (face_loops f)) (face_material_index f) in
  (mkBMesh (bm_verts bm ++ bm_verts bm)
           ((flip <$> bm_faces bm) ++ top :: (side <$> seq 0 n)),
   seq n n).

Fixpoint vsum (l : list Vector) : Vector :=
  match l with
  | [] => Vec.zero
  | v :: l' => Vec.add v (vsum l')
  end.

(** the mean of the points [l] *)
Definition median (l : list Vector) : Vector :=
  match l with
  | [] => Vec.zero
  | _ => Vec.mul (vsum l) (/ INR (length l))
  end.

(** [face.calc_center_median()] *)
Definition calc_center_median (bm : BMesh) (f : BMFace) : Vector :=
  median (co bm <$> face_verts f).

(** [bmesh.ops.translate(bm, vec= vec, verts= verts)] *)
Definition bmesh_translate (vec : Vector) (verts : list nat) (bm : BMesh) : BMesh :=
  mkBMesh (foldl (fun vs v => alter (fun c => Vec.add c vec) v vs) (bm_verts bm) verts)
          (bm_faces bm).

(** [sFace.loops[i][uvLayer].uv = uv] *)
Definition set_loop_uv (i : Z) (uv : UV) (f : BMFace) : option BMFace :=
  match py_getitem (face_loops f) i with
  | Some l =>
      let k := if (0 <=? i)%Z then Z.to_nat i
               else Z.to_nat (Z.of_nat (length (face_loops f)) + i) in
      Some (mkFace (<[k := mkLoop (loop_vert l) (loop_index l) uv]> (face_loops f))
                   (face_material_index f))
  | None => None
  end.

(** [for sFace in sBM.faces: sFace.loops[i][uvLayer].uv = uv]; [None] when
    one of the faces has no loop [i] *)
Definition set_faces_uv (i : Z) (uv : UV) (bm : BMesh) : option BMesh :=
  mkBMesh (bm_verts bm) <$> mapM (set_loop_uv i uv) (bm_faces bm).

(** [bm.to_mesh(me)]: the polygons in the order of the faces, their loops
    numbered consecutively *)
Fixpoint to_polygons (fs : list BMFace) (start : nat) : list MeshPolygon :=
  match fs with
  | [] => []
  | f :: fs' =>
      mkPolygon (face_verts f) start (face_material_index f)
      :: to_polygons fs' (start + length (face_loops f))
  end.

Definition to_mesh (bm : BMesh) (me : Mesh) : Mesh :=
  mkMesh (mesh_name me) (bm_verts bm) (to_polygons (bm_faces bm) 0)
         (Some (loop_uv <$> concat (face_loops <$> bm_faces bm)))
         (mesh_materials me).

(** the face at position [i] of a BMesh *)
Definition face_at (bm : BMesh) (i : nat) : BMFace :=
  default (mkFace [] 0) (bm_faces bm !! i).

(** ** Host calls of the script *)

(** [str(n)] *)
Definition str (n : nat) : string := NilEmpty.string_of_uint (Nat.to_uint n).

(** ["%03d" % k] *)
Definition pad3 (k : nat) : string :=
  if (k <? 10)%nat then ("00" ++ str k)%string
  else if (k <? 100)%nat then ("0" ++ str k)%string
  else str k.

(** the name [nm] with the number [k]: ["nm.00k"] *)
Definition numbered (nm : string) (k : nat) : string := (nm ++ "." ++ pad3 k)%string.

Definition name_in (nm : string) (names : list string) : bool :=
  existsb (String.eqb nm) names.

(** the first of [numbered nm k], [numbered nm (k + 1)], ... that is not in
    [names]; one of the first [length names + 1] is not *)
Fixpoint first_free (nm : string) (names : list string) (k fuel : nat) : string :=
  match fuel with
  | O => numbered nm k
  | S fuel' =>
      if name_in (numbered nm k) names then first_free nm names (S k) fuel'
      else numbered nm k
  end.

(** The name the host gives to new data asked for under the name [nm], which
    has no number of its own, when the names [names] are in use: [nm] when it
    is free, and [nm] with the first free number otherwise. (The host looks
    for a free number among the first 63 and cuts names at 63 characters;
    the model does not follow it there.) *)
Definition unique_name (nm : string) (names : list string) : string :=
  if name_in nm names then first_free nm names 1 (length names) else nm.

(** [bpy.data.meshes.new(name)]: the new mesh is empty, its name unique among
    the meshes. *)
Definition meshes_new (nm : string) : M nat :=
  let* n := gets (fun st => length (meshes st)) in
  exec (fun st =>
    set_meshes (meshes st ++
      [mkMesh (unique_name nm (mesh_name <$> meshes st)) [] [] None []]) st) ;;
  ret n.

(** [bpy.data.objects.new(name, mesh)]: at the world origin, not selected,
    its name unique among the objects *)
Definition objects_new (nm : string) (me : nat) : M nat :=
  let* n := gets (fun st => length (objects st)) in
  exec (fun st =>
    set_objects (objects st ++
      [mkObject (unique_name nm (name <$> objects st)) false Vec.zero Vec.identity3
                (Some me) None 0 None]) st) ;;
  ret n.

(** [bpy.ops.object.mode_set(mode= 'OBJECT')]: the operator wants an active
    object (its poll); the host is in object mode, so nothing changes. *)
Definition mode_set_OBJECT : M unit :=
  let* act := gets active in
  let* _ := some_or RuntimeError act in
  ret tt.

(** [bpy.data.materials[i]] *)
Definition materials_getitem (i : nat) : M nat :=
  let* n := gets (fun st => length (materials st)) in
  if (i <? n)%nat then ret i else raise IndexError.

(** [origin_set] for one object: the origin of a selected mesh object moves
    to the mean of the vertices of its mesh, the vertices move back by as
    much. *)
Definition origin_set_object (st : State) (i : nat) : State :=
  match objects st !! i with
  | Some o =>
      if selected o then
        match data o with
        | Some d =>
            match meshes st !! d with
            | Some me =>
                let cent := median (mesh_vertices me) in
                let vs := (fun v => Vec.sub v cent) <$> mesh_vertices me in
                let st := set_meshes (alter (set_mesh_vertices vs) d (meshes st)) st in
                set_objects
                  (alter (set_location
                            (Vec.add (location o) (Vec.apply3 (rot_scale o) cent)))
                         i (objects st)) st
            | None => st
            end
        | None => st
        end
      else st
  | None => st
  end.

(** [bpy.ops.object.origin_set(type= 'ORIGIN_GEOMETRY')] *)
Definition object_origin_set_ORIGIN_GEOMETRY (st : State) : State :=
  foldl origin_set_object st (seq 0 (length (objects st))).

(** ** The script *)

Definition originalObjectName : string := "Cube".
Definition SCALE_THICKNESS : R := 5 / 100.
Definition DISPLACEMENT_DISTANCE : R := 1.

(** The body of [for loop in face.loops], lines 62 to 65 *)
Definition copy_uv (oM : nat) (sBM : BMesh) (loop : BMLoop) : M BMesh :=
  let loopIndex := loop_index loop in
  let* me := gets (fun st => meshes st !! oM) in
  let* me := some_or ReferenceError me in
  let* layer := some_or AttributeError (uv_layers_active me) in
  let* faceUV := some_or IndexError (py_getitem layer loopIndex) in
  some_or IndexError (set_faces_uv (loopIndex mod 4) faceUV sBM).

(** The direction in which the scale made from [face] is pushed out,
    lines 55 and 56 *)
Definition vecOtoS_of (sBM : BMesh) (oLoc : Vector) : Vector :=
  Vec.normalize (Vec.sub (calc_center_median sBM (face_at sBM 0)) oLoc).

(** The first part of the body of [for face in oBM.faces], lines 46 to 65:
    the BMesh of the scale made from [face], and the direction in which the
    scale is pushed out. *)
Definition scale_bmesh (oM : nat) (oBM : BMesh) (oLoc : Vector) (face : BMFace)
  : M (BMesh * Vector) :=
  let* sBM := new_scale_bmesh oBM face in
  let '(sBM, extrusionVerts) := extrude_face_region sBM in
  let vecOtoS := vecOtoS_of sBM oLoc in
  let sBM := bmesh_translate (Vec.mul vecOtoS SCALE_THICKNESS) extrusionVerts sBM in
  let* sBM := fold_each (face_loops face) sBM (copy_uv oM) in
  ret (sBM, vecOtoS).

(** The second part, lines 70 to 85: the scale becomes a mesh and an object
    of the scene, is moved away and gets its material. *)
Definition scale_to_scene (sName : string) (sBM : BMesh) (vecOtoS : Vector)
  (face : BMFace) : M unit :=
  let* sM := meshes_new sName in
  exec (fun st => set_meshes (alter (to_mesh sBM) sM (meshes st)) st) ;;
  let* sO := objects_new sName sM in
  exec select_all_DESELECT ;;
  exec (select_set sO true) ;;
  exec object_origin_set_ORIGIN_GEOMETRY ;;
  exec (transform_translate (Vec.mul vecOtoS DISPLACEMENT_DISTANCE)) ;;
  let* mat := materials_getitem (face_material_index face) in
  materials_append sO (Some mat).

(** The body of [for face in oBM.faces]; the local variable it updates is
    [faceNum]. *)
Definition scale_of_face (oM : nat) (oBM : BMesh) (oLoc : Vector)
  (faceNum : nat) (face : BMFace) : M nat :=
  let* '(sBM, vecOtoS) := scale_bmesh oM oBM oLoc face in
  let sName := ("scale" ++ originalObjectName ++ str faceNum)%string in
  let faceNum := S faceNum in
  scale_to_scene sName sBM vecOtoS face ;;
  ret faceNum.

Definition shedScaleSkin : M unit :=
  mode_set_OBJECT ;;
  exec select_all_DESELECT ;;
  let* o := objects_getitem originalObjectName in
  exec (select_set o true) ;;
  let* ob := gets (fun st => objects st !! o) in
  let* ob := some_or ReferenceError ob in
  let* oM := some_or TypeError (data ob) in
  let* me := gets (fun st => meshes st !! oM) in
  let* me := some_or ReferenceError me in
  let oBM := from_mesh me in
  let oBM := bmesh_transform (matrix_world ob) oBM in
  let oLoc := location ob in
  let* _ := fold_each (bm_faces oBM) 0%nat (scale_of_face oM oBM oLoc) in
  exec select_all_DESELECT.

(** * The effect of the procedures on one object *)

(** What [select] and [deselect] do to one object. *)
Definition select_object (nameRoot : string) (b : bool) (o : Object) : Object :=
  if String.prefix nameRoot (name o) then set_selected b o else o.

(** What an operator [f] on the selected objects does to one object when it
    runs after [select_all(action='DESELECT')] and [select nameRoot]. *)
Definition act_object (nameRoot : string) (f : Object -> Object) (o : Object) : Object :=
  if String.prefix nameRoot (name o)
  then f (set_selected true o)
  else set_selected false o.

(** No object is selected. *)
Definition all_unselected (st : State) : Prop :=
  forall j o, objects st !! j = Some o -> selected o = false.

(** What [move_towards] does to an object it finds. *)
Definition towards_object (target : Vector) (value : R) (o : Object) : Object :=
  set_selected false
    (translate_object
       (Vec.mul (Vec.normalize (Vec.sub target (location o))) value) o).

Definition move_towards_object (nameRoot : string) (target : Vector) (value : R)
  (o : Object) : Object :=
  if String.prefix nameRoot (name o)
  then towards_object target value o
  else set_selected false o.

(** What [bpy.ops.rigidbody.object_add(type= type)] does to the active
    object. *)
Definition add_rigid_body (type : string) (o : Object) : Object :=
  set_rigid_body
    (Some (mkRigidBody type
             (match rigid_body o with Some r => rb_settings r | None => 0 end))) o.

(** What a procedure that works on the objects found one after the other
    does to one object. *)
Definition on_found (nameRoot : string) (f : Object -> Object) (o : Object) : Object :=
  if String.prefix nameRoot (name o) then f o else o.

(** Whether [_getObjList] finds an object. *)
Definition found_any (nameRoot : string) (st : State) : bool :=
  match _getObjList nameRoot st with
  | [] => false
  | _ => true
  end.

(** * The effect of the loop body of the script *)

(** The mesh of a scale: the geometry of its BMesh, moved so that the mean of
    its vertices is the origin of the mesh. *)
Definition scale_mesh (sName : string) (sBM : BMesh) (mats : list (option nat)) : Mesh :=
  let cent := median (bm_verts sBM) in
  mkMesh sName ((fun v => Vec.sub v cent) <$> bm_verts sBM)
         (to_polygons (bm_faces sBM) 0)
         (Some (loop_uv <$> concat (face_loops <$> bm_faces sBM)))
         mats.

(** The object of a scale, as the script leaves it: selected, at the mean of
    its vertices moved by [vecOtoS * DISPLACEMENT_DISTANCE]. *)
Definition scale_object (sName : string) (sM : nat) (sBM : BMesh) (vecOtoS : Vector)
  : Object :=
  mkObject sName true
    (Vec.add (Vec.add Vec.zero (Vec.apply3 Vec.identity3 (median (bm_verts sBM))))
             (Vec.mul vecOtoS DISPLACEMENT_DISTANCE))
    Vec.identity3 (Some sM) None 0 None.

(** The scene with one more scale, asked for under the name [sName]. *)
Definition with_scale (st : State) (sName : string) (sBM : BMesh) (vecOtoS : Vector)
  (mats : list (option nat)) : State :=
  mkState ((set_selected false <$> objects st)
             ++ [scale_object (unique_name sName (name <$> objects st))
                              (length (meshes st)) sBM vecOtoS])
          (meshes st
             ++ [scale_mesh (unique_name sName (mesh_name <$> meshes st)) sBM mats])
          (materials st) (active st) (rigidbody_world st).

(** The BMesh of the scale made from [face] before the UV coordinates are
    copied, lines 47 to 57, for a face of three corners or more. *)
Definition prism (oBM : BMesh) (oLoc : Vector) (face : BMFace) : BMesh :=
  let vs := co oBM <$> face_verts face in
  let '(sBM, extrusionVerts) :=
    extrude_face_region (mkBMesh vs [mkFace (new_loop <$> seq 0 (length vs)) 0]) in
  bmesh_translate (Vec.mul (vecOtoS_of sBM oLoc) SCALE_THICKNESS) extrusionVerts sBM.

(** The direction in which that scale is pushed out. *)
Definition push_direction (oBM : BMesh) (oLoc : Vector) (face : BMFace) : Vector :=
  let vs := co oBM <$> face_verts face in
  vecOtoS_of
    (fst (extrude_face_region (mkBMesh vs [mkFace (new_loop <$> seq 0 (length vs)) 0])))
    oLoc.

(** The centre of [face] as the script computes it: the mean of its corners. *)
Definition face_centre (oBM : BMesh) (face : BMFace) : Vector :=
  median (co oBM <$> face_verts face).

(** The number of corners of each face of a BMesh. *)
Definition loop_counts (bm : BMesh) : list nat :=
  (fun f => length (face_loops f)) <$> bm_faces bm.

(** What the script needs of a loop of a source face to copy its UV
    coordinate to a scale with faces of [n] and of 4 corners: the UV layer
    [layer] has an entry for it, and its index modulo 4 is a corner of every
    face of the scale. *)
Definition uv_copyable (layer : list UV) (n : nat) (loop : BMLoop) : Prop :=
  (0 <= loop_index loop)%Z
  /\ Z.to_nat (loop_index loop) < length layer
  /\ Z.to_nat (loop_index loop mod 4) < n.

(** What is left of the scene when the script changes it to [st']: the
    objects that were there, up to their selection flag, the meshes and the
    materials. *)
Definition keeps (st st' : State) : Prop :=
  (forall i o, objects st !! i = Some o ->
               exists b, objects st' !! i = Some (set_selected b o))
  /\ (forall d m, meshes st !! d = Some m -> meshes st' !! d = Some m)
  /\ materials st' = materials st
  /\ active st' = active st.

(** A face the loop body can process: three corners or more, loops that can
    be copied, a material index in the range of [bpy.data.materials]. *)
Definition good_face (layer : list UV) (nmat : nat) (face : BMFace) : Prop :=
  3 <= length (face_loops face)
  /\ Forall (uv_copyable layer (Nat.min (length (face_loops face)) 4)) (face_loops face)
  /\ face_material_index face < nmat.

(** The same for a polygon of the source mesh with four corners or more:
    its loops are in the UV layer, its material index is in the range of
    [bpy.data.materials]. *)
Definition good_polygon (layer : list UV) (nmat : nat) (p : MeshPolygon) : Prop :=
  4 <= length (vertices p)
  /\ loop_start p + length (vertices p) <= length layer
  /\ material_index p < nmat.

(** In [st'], the object at position [io] and the mesh at position [im] are
    the scale made from [face], the [faceNum]-th face of the source: the name
    of the object begins with the name asked for and is the name of no
    object before it. *)
Definition is_scale_of (oBM : BMesh) (oLoc : Vector) (faceNum : nat) (face : BMFace)
  (st' : State) (io im : nat) : Prop :=
  exists (sBM : BMesh) (b : bool) (sName mName : string),
    objects st' !! io
    = Some (set_selected b
              (scale_object sName im sBM (push_direction oBM oLoc face)))
    /\ meshes st' !! im
       = Some (scale_mesh mName sBM [Some (face_material_index face)])
    /\ bm_verts sBM = bm_verts (prism oBM oLoc face)
    /\ String.prefix ("scale" ++ originalObjectName ++ str faceNum) sName = true
    /\ forall j o, j < io -> objects st' !! j = Some o -> name o <> sName.

(** The BMesh of the source object in world coordinates, lines 36 to 40. *)
Definition source_bmesh (ob : Object) (me : Mesh) : BMesh :=
  bmesh_transform (matrix_world ob) (from_mesh me).

(** What the script needs of the scene, the shape of the faces apart: an
    object is active, as [mode_set] on line 30 wants; the object named
    [originalObjectName] is [ob], at position [o]; its data is the mesh
    [me], at position [oM]; the mesh has an active UV layer [layer] with an
    entry for every loop of every polygon; the material index of every
    polygon is in the range of [bpy.data.materials]. *)
Definition ready (st : State) (o : nat) (ob : Object) (oM : nat) (me : Mesh)
  (layer : list UV) : Prop :=
  is_Some (active st)
  /\ find_name originalObjectName (objects st) 0 = Some o
  /\ objects st !! o = Some ob
  /\ data ob = Some oM
  /\ meshes st !! oM = Some me
  /\ uv_layers_active me = Some layer
  /\ Forall (fun p => loop_start p + length (vertices p) <= length layer
                      /\ material_index p < length (materials st))
            (polygons me).

(** Every face of the BMesh has the UV coordinate [uv] on its loop at
    position [j]. *)
Definition uv_at (bm : BMesh) (j : nat) (uv : UV) : Prop :=
  Forall (fun f => loop_uv <$> (face_loops f !! j) = Some uv) (bm_faces bm).

(** * Example scenes *)

(** a scene with one object and nothing else *)
Definition lone (nm : string) (loc : Vector) : State :=
  mkState [mkObject nm false loc Vec.identity3 None None 0 None] [] [] None false.

(** a scene with one mesh object ["A"], active, that is a rigid body and has
    one material slot *)
Definition rigid_scene : State :=
  mkState [mkObject "A" false Vec.zero Vec.identity3 (Some 0)
                    (Some (mkRigidBody "ACTIVE" 0)) 0 None]
          [mkMesh "A" [] [] None [Some 0]]
          ["Mat"%string]
          (Some 0) true.

(** the same scene with no active object *)
Definition rigid_scene_no_active : State := set_active None rigid_scene.

(** the object ["Cube"] at the world origin, with the mesh at position 0 *)
Definition cube_object : Object :=
  mkObject "Cube" false Vec.zero Vec.identity3 (Some 0) None 0 None.

(** a scene with that object, active, its mesh and the materials [mats] *)
Definition scene_of (me : Mesh) (mats : list string) : State :=
  mkState [cube_object] [me] mats (Some 0) false.

(** a UV layer with [n] entries *)
Definition uvs (n : nat) : list UV := replicate n uv_zero.

(** one quad in the plane [z = h], centred on the z axis, with material
    index 0; the slots [slots] and the UV layer [layer] *)
Definition quad_mesh (h : R) (layer : option (list UV)) (slots : list (option nat))
  : Mesh :=
  mkMesh "Cube"
    [Vec.mk 1 1 h; Vec.mk (-1) 1 h; Vec.mk (-1) (-1) h; Vec.mk 1 (-1) h]%R
    [mkPolygon [0; 1; 2; 3] 0 0] layer slots.

(** the face of that quad in the BMesh of the source *)
Definition quad_face : BMFace :=
  mkFace [mkLoop 0 0 uv_zero; mkLoop 1 1 uv_zero; mkLoop 2 2 uv_zero;
          mkLoop 3 3 uv_zero] 0.

(** the quad one unit above the origin of its object *)
Definition top_scene : State :=
  scene_of (quad_mesh 1 (Some (uvs 4)) [Some 0]) ["M"%string].

(** the quad through the origin of its object, as a plane of the host is *)
Definition plane_scene : State :=
  scene_of (quad_mesh 0 (Some (uvs 4)) [Some 0]) ["M"%string].

(** the quad of a mesh that has no UV layer *)
Definition no_uv_scene : State :=
  scene_of (quad_mesh 1 None [Some 0]) ["M"%string].

(** two materials ["A"] and ["B"] in the file; the only slot of the mesh
    holds ["B"], so the face, with material index 0, has material ["B"] *)
Definition two_material_scene : State :=
  scene_of (quad_mesh 1 (Some (uvs 4)) [Some 1]) ["A"%string; "B"%string].

(** a mesh that is one pentagon *)
Definition pentagon_mesh : Mesh :=
  mkMesh "Cube"
    [Vec.mk 2 0 1; Vec.mk 1 2 1; Vec.mk (-1) 2 1; Vec.mk (-2) 0 1; Vec.mk 0 (-2) 1]%R
    [mkPolygon [0; 1; 2; 3; 4] 0 0] (Some (uvs 5)) [Some 0].

Definition pentagon_scene : State := scene_of pentagon_mesh ["M"%string].

(** a scene with one selected object *)
Definition lone_selected (nm : string) : State :=
  mkState [mkObject nm true Vec.zero Vec.identity3 None None 0 None] [] [] None false.

(** a mesh of two triangles: the loops of the first are 0, 1, 2, those of
    the second 3, 4, 5 *)
Definition triangles_mesh : Mesh :=
  mkMesh "Cube"
    [Vec.mk 1 1 1; Vec.mk (-1) 1 1; Vec.mk (-1) (-1) 1; Vec.mk 1 (-1) 1]%R
    [mkPolygon [0; 1; 2] 0 0; mkPolygon [0; 2; 3] 3 0] (Some (uvs 6)) [Some 0].

Definition triangles_scene : State := scene_of triangles_mesh ["M"%string].

(** a UV layer for two quads, with a different entry for every loop *)
Definition uv_layer8 : list UV :=
  [(0, 0); (1, 0); (1, 1); (0, 1); (2, 0); (3, 0); (3, 1); (2, 1)]%R.

(** a mesh of two quads side by side in the plane [z = 1], with the material
    indices [m0] and [m1]: the loops of the first are 0 to 3, those of the
    second 4 to 7 *)
Definition two_quads_mesh (m0 m1 : nat) : Mesh :=
  mkMesh "Cube"
    [Vec.mk 0 0 1; Vec.mk 1 0 1; Vec.mk 1 1 1; Vec.mk 0 1 1; Vec.mk 2 0 1; Vec.mk 2 1 1]%R
    [mkPolygon [0; 1; 2; 3] 0 m0; mkPolygon [1; 4; 5; 2] 4 m1]
    (Some uv_layer8) [Some 0].

(** the face of the second quad in the BMesh of the source *)
Definition second_quad_face (m1 : nat) : BMFace :=
  mkFace [mkLoop 1 4 (2, 0)%R; mkLoop 4 5 (3, 0)%R; mkLoop 5 6 (3, 1)%R;
          mkLoop 2 7 (2, 1)%R] m1.

(** a selected object that has the name the script asks for the scale of
    the second face *)
Definition named_object : Object :=
  mkObject "scaleCube1" true (Vec.mk 5 0 0) Vec.identity3 None None 0 None.

(** the two quads, the active object ["Cube"] and that object *)
Definition named_scene : State :=
  mkState [cube_object; named_object] [two_quads_mesh 0 0] ["M"%string] (Some 0) false.

(** the two quads when the file has one material and the second quad has the
    material index 5 *)
Definition bad_material_scene : State := scene_of (two_quads_mesh 0 5) ["M"%string].

(** a scene with three objects without data: ["scaleA"], selected, at
    (1, 0, 0); ["other"], selected, at the origin; ["scaleB"] at (0, 2, 0) *)
Definition crowd_scene : State :=
  mkState [mkObject "scaleA" true (Vec.mk 1 0 0) Vec.identity3 None None 0 None;
           mkObject "other" true Vec.zero Vec.identity3 None None 0 None;
           mkObject "scaleB" false (Vec.mk 0 2 0) Vec.identity3 None None 0 None]
          [] [] (Some 1) false.

(** a scene with the mesh objects ["scaleA"], a rigid body, and ["scaleB"],
    and the object ["empty"] that has no data; ["scaleB"] is active *)
Definition body_scene : State :=
  mkState [mkObject "scaleA" false Vec.zero Vec.identity3 (Some 0)
                    (Some (mkRigidBody "ACTIVE" 7)) 0 None;
           mkObject "scaleB" true Vec.zero Vec.identity3 (Some 1) None 0 None;
           mkObject "empty" false Vec.zero Vec.identity3 None None 0 None]
          [mkMesh "a" [] [] None [Some 0; None]; mkMesh "b" [] [] None [Some 1]]
          ["M0"%string; "M1"%string]
          (Some 1) true.

(** * Properties *)

Section VecFacts.
Local Open Scope R_scope.
Import Vec.

Lemma vec_eq (a b : Vector) : x a = x b -> y a = y b -> z a = z b -> a = b.
Proof. destruct a, b; simpl; intros; subst; reflexivity. Qed.

Lemma add_assoc (a b c : Vector) : add (add a b) c = add a (add b c).
Proof. apply vec_eq; simpl; lra. Qed.

Lemma dot_nonneg (v : Vector) : 0 <= dot v v.
Proof. unfold dot. nra. Qed.

Lemma dot_zero_iff (v : Vector) : dot v v = 0 <-> v = zero.
Proof.
  split.
  - intros H. unfold dot in H. apply vec_eq; simpl; nra.
  - intros ->. unfold dot; simpl; lra.
Qed.

Lemma length_pos (v : Vector) : v <> zero -> 0 < length v.
Proof.
  intros H. unfold length. apply sqrt_lt_R0.
  destruct (dot_nonneg v) as [Hp | Hz]; [exact Hp |].
  exfalso. apply H. apply dot_zero_iff. symmetry. exact Hz.
Qed.

Lemma normalize_nonzero (v : Vector) :
  v <> zero -> normalize v = mul v (/ length v).
Proof.
  intros H. unfold normalize. destruct (Rlt_dec 0 (dot v v)) as [_ | Hn]; [reflexivity |].
  exfalso. apply Hn. destruct (dot_nonneg v) as [Hp | Hz]; [exact Hp |].
  exfalso. apply H. apply dot_zero_iff. symmetry. exact Hz.
Qed.

Lemma normalize_zero : normalize zero = zero.
Proof.
  unfold normalize. destruct (Rlt_dec 0 (dot zero zero)) as [Hp | _]; [| reflexivity].
  exfalso. unfold dot in Hp; simpl in Hp. lra.
Qed.

Lemma length_sq (v : Vector) : length v * length v = dot v v.
Proof. unfold length. apply sqrt_sqrt, dot_nonneg. Qed.

Lemma length_mul (v : Vector) (s : R) : length (mul v s) = length v * Rabs s.
Proof.
  unfold length.
  replace (dot (mul v s) (mul v s)) with (dot v v * Rsqr s)
    by (unfold dot, Rsqr; simpl; ring).
  rewrite sqrt_mult_alt by apply dot_nonneg.
  rewrite sqrt_Rsqr_abs. reflexivity.
Qed.

(** a normalized vector that is not zero has length 1 *)
Lemma length_normalize (v : Vector) : v <> zero -> length (normalize v) = 1.
Proof.
  intros H. rewrite normalize_nonzero by exact H.
  rewrite length_mul. pose proof (length_pos v H) as Hp.
  rewrite Rabs_pos_eq by (left; apply Rinv_0_lt_compat; exact Hp).
  field. lra.
Qed.


End VecFacts.

(** ** Name-prefix selection *)

Section Selection.
Implicit Types (st : State) (os : list Object) (i j : nat).

Lemma state_eq st st' :
  objects st = objects st' -> meshes st = meshes st' ->
  materials st = materials st' -> active st = active st' ->
  rigidbody_world st = rigidbody_world st' -> st = st'.
Proof. destruct st, st'; simpl; intros; subst; reflexivity. Qed.

Lemma elem_of_getObjList nameRoot st i :
  i ∈ _getObjList nameRoot st <->
  exists o, objects st !! i = Some o /\ String.prefix nameRoot (name o) = true.
Proof.
  unfold _getObjList. rewrite list_elem_of_filter, elem_of_seq.
  unfold name_matches. split.
  - intros [Hm _]. destruct (objects st !! i) as [o |] eqn:E; [| contradiction].
    exists o. split; [reflexivity |]. apply Is_true_true. exact Hm.
  - intros (o & E & Hp). rewrite E. split; [apply Is_true_true; exact Hp |].
    apply lookup_lt_Some in E. lia.
Qed.

Lemma NoDup_getObjList nameRoot st : NoDup (_getObjList nameRoot st).
Proof. apply NoDup_filter, NoDup_seq. Qed.

(** Only the names decide which objects are found. *)
Lemma getObjList_names nameRoot st st' :
  name <$> objects st = name <$> objects st' ->
  _getObjList nameRoot st = _getObjList nameRoot st'.
Proof.
  intros H. unfold _getObjList.
  assert (Hl : length (objects st) = length (objects st')).
  { rewrite <- (length_fmap name (objects st)), H. apply length_fmap. }
  rewrite Hl. apply list_filter_iff. intros i. unfold name_matches.
  assert (Hi : name <$> (objects st !! i) = name <$> (objects st' !! i))
    by (rewrite <- !list_lookup_fmap, H; reflexivity).
  destruct (objects st !! i), (objects st' !! i); simpl in Hi; try discriminate;
    [injection Hi as -> |]; reflexivity.
Qed.

(** A loop that changes one object per round. *)
Lemma lookup_foldl_alter {A} (f : A -> A) (l : list nat) (xs : list A) j :
  NoDup l ->
  foldl (fun acc i => alter f i acc) xs l !! j
  = if decide (j ∈ l) then f <$> xs !! j else xs !! j.
Proof.
  revert xs. induction l as [| i l IH]; intros xs Hnd; simpl.
  - destruct (decide (j ∈ [])) as [Hj | _]; [| reflexivity].
    exfalso. exact (not_elem_of_nil _ Hj).
  - apply NoDup_cons in Hnd as [Hi Hnd]. rewrite IH by exact Hnd.
    destruct (decide (j = i)) as [-> | Hne].
    + destruct (decide (i ∈ l)) as [Hin | _]; [contradiction |].
      destruct (decide (i ∈ i :: l)) as [_ | Hn].
      * apply list_lookup_alter_eq.
      * exfalso. apply Hn. apply list_elem_of_here.
    + rewrite list_lookup_alter_ne by congruence.
      destruct (decide (j ∈ l)) as [Hj | Hj]; destruct (decide (j ∈ i :: l)) as [Hj' | Hj'];
        try reflexivity.
      * exfalso. apply Hj'. apply list_elem_of_further. exact Hj.
      * exfalso. apply elem_of_cons in Hj' as [-> | H]; [apply Hne; reflexivity | exact (Hj H)].
Qed.

Lemma foldl_select_set (b : bool) (l : list nat) st :
  foldl (fun s o => select_set o b s) st l
  = set_objects (foldl (fun os i => alter (set_selected b) i os) (objects st) l) st.
Proof.
  revert st. induction l as [| i l IH]; intros st; simpl.
  - destruct st; reflexivity.
  - rewrite IH. reflexivity.
Qed.

(** [select] and [deselect] as one pass over the objects. *)
Lemma select_set_all nameRoot (b : bool) st :
  foldl (fun s o => select_set o b s) st (_getObjList nameRoot st)
  = set_objects (select_object nameRoot b <$> objects st) st.
Proof.
  rewrite foldl_select_set. f_equal. apply list_eq. intros j.
  rewrite lookup_foldl_alter by apply NoDup_getObjList.
  rewrite list_lookup_fmap. unfold select_object.
  destruct (decide (j ∈ _getObjList nameRoot st)) as [Hj | Hj].
  - apply elem_of_getObjList in Hj as (o & E & Hp). rewrite E. simpl.
    rewrite Hp. reflexivity.
  - destruct (objects st !! j) as [o |] eqn:E; [| reflexivity]. simpl.
    destruct (String.prefix nameRoot (name o)) eqn:Hp; [| reflexivity].
    exfalso. apply Hj. apply elem_of_getObjList. exists o. split; assumption.
Qed.

Lemma select_spec nameRoot st :
  select nameRoot st = set_objects (select_object nameRoot true <$> objects st) st.
Proof. apply select_set_all. Qed.

Lemma deselect_spec nameRoot st :
  deselect nameRoot st = set_objects (select_object nameRoot false <$> objects st) st.
Proof. apply select_set_all. Qed.

Lemma prefix_empty (s : string) : String.prefix "" s = true.
Proof. destruct s; reflexivity. Qed.

End Selection.

(** ** [move] and [move_towards] *)

Section Moves.
Implicit Types (st : State) (os : list Object) (i j : nat).

Lemma filter_all {A} (P : A -> Prop) `{!forall a, Decision (P a)} (l : list A) :
  Forall P l -> filter P l = l.
Proof.
  induction 1 as [| a l Ha _ IH]; [reflexivity |].
  rewrite filter_cons_True by exact Ha. rewrite IH. reflexivity.
Qed.

Lemma getObjList_empty st : _getObjList "" st = seq 0 (length (objects st)).
Proof.
  unfold _getObjList. apply filter_all. apply Forall_forall. intros i Hi.
  apply elem_of_seq in Hi. unfold name_matches.
  destruct (lookup_lt_is_Some_2 (objects st) i) as [o ->]; [lia |].
  rewrite prefix_empty. exact I.
Qed.

(** An operator run after [select_all(action='DESELECT')] and [select]. *)
Lemma on_selected_select (f : Object -> Object) nameRoot st :
  on_selected f (select nameRoot (select_all_DESELECT st))
  = set_objects (act_object nameRoot f <$> objects st) st.
Proof.
  unfold on_selected. rewrite select_spec.
  unfold select_all_DESELECT. simpl. unfold set_objects at 1. simpl.
  apply state_eq; simpl; try reflexivity.
  rewrite <- !list_fmap_compose. apply list_fmap_ext. intros _ o _.
  unfold act_object, select_object. simpl.
  destruct (String.prefix nameRoot (name o)); reflexivity.
Qed.

Lemma move_spec nameRoot vector st :
  move nameRoot vector st
  = set_objects (act_object nameRoot (translate_object vector) <$> objects st) st.
Proof. apply on_selected_select. Qed.

(** Selecting does not change what the operators read of the active
    object. *)
Lemma active_rigid_body_select nameRoot st :
  active_rigid_body (select nameRoot (select_all_DESELECT st)) = active_rigid_body st.
Proof.
  rewrite select_spec. unfold active_rigid_body. simpl.
  destruct (active st) as [i |]; [| reflexivity].
  rewrite !list_lookup_fmap. destruct (objects st !! i) as [o |]; [| reflexivity].
  simpl. unfold select_object. destruct (String.prefix _ _); reflexivity.
Qed.

Lemma poll_rigid_body {B} (k : RigidBody -> M B) st :
  (let* act := gets active in
   let* i := some_or RuntimeError act in
   let* ob := gets (fun st => objects st !! i) in
   let* o := some_or RuntimeError ob in
   let* rb := some_or RuntimeError (rigid_body o) in
   k rb) st
  = match active_rigid_body st with
    | Some rb => k rb st
    | None => Raise RuntimeError st
    end.
Proof.
  unfold bind, gets, active_rigid_body.
  destruct (active st) as [i |]; [| reflexivity]. simpl.
  destruct (objects st !! i) as [o |]; [| reflexivity]. simpl.
  destruct (rigid_body o); reflexivity.
Qed.

Lemma bake_rigidbody_spec nameRoot (startFrame endFrame step : Z) st :
  bake_rigidbody nameRoot startFrame endFrame step st
  = match active_rigid_body st with
    | Some _ =>
        Return tt
          (set_objects
             (act_object nameRoot (bake_object (startFrame, endFrame, step))
                <$> objects st) st)
    | None => Raise RuntimeError (select nameRoot (select_all_DESELECT st))
    end.
Proof.
  unfold bake_rigidbody, rigidbody_bake_to_keyframes.
  change ((exec select_all_DESELECT ;; exec (select nameRoot) ;; ?k) st)
    with (k (select nameRoot (select_all_DESELECT st))).
  rewrite poll_rigid_body, active_rigid_body_select.
  destruct (active_rigid_body st); [| reflexivity].
  unfold exec. rewrite on_selected_select. reflexivity.
Qed.

Lemma move_towards_step_spec target value st i :
  all_unselected st -> is_Some (objects st !! i) ->
  move_towards_step target value st i
  = set_objects (alter (towards_object target value) i (objects st)) st.
Proof.
  intros Hun [o Ho]. unfold move_towards_step. simpl.
  rewrite list_lookup_alter_eq, Ho. simpl.
  apply state_eq; simpl; try reflexivity.
  apply list_eq. intros j.
  destruct (decide (i = j)) as [<- | Hne].
  - rewrite !list_lookup_alter_eq, list_lookup_fmap, list_lookup_alter_eq, Ho.
    reflexivity.
  - rewrite !list_lookup_alter_ne by exact Hne.
    rewrite list_lookup_fmap, list_lookup_alter_ne by exact Hne.
    destruct (objects st !! j) as [o' |] eqn:E; [| reflexivity]. simpl.
    rewrite (Hun j o' E). reflexivity.
Qed.

Lemma towards_object_unselected target value st i :
  all_unselected st ->
  all_unselected (set_objects (alter (towards_object target value) i (objects st)) st).
Proof.
  intros Hun j o. simpl. rewrite list_lookup_alter.
  destruct (decide (i = j)) as [<- | Hne]; [| apply Hun].
  destruct (objects st !! i); simpl; [| discriminate].
  intros [= <-]. reflexivity.
Qed.

Lemma move_towards_fold target value (l : list nat) st :
  all_unselected st -> (forall i, i ∈ l -> is_Some (objects st !! i)) ->
  foldl (move_towards_step target value) st l
  = set_objects (foldl (fun os i => alter (towards_object target value) i os)
                       (objects st) l) st.
Proof.
  revert st. induction l as [| i l IH]; intros st Hun Hl; simpl.
  - destruct st; reflexivity.
  - rewrite move_towards_step_spec; [| exact Hun | apply Hl, list_elem_of_here].
    rewrite IH.
    + reflexivity.
    + apply towards_object_unselected, Hun.
    + intros k Hk. simpl. rewrite list_lookup_alter.
      destruct (Hl k (list_elem_of_further _ _ _ Hk)) as [o Ho].
      destruct (decide (i = k)) as [-> | _]; rewrite Ho; eexists; reflexivity.
Qed.

Lemma move_towards_spec nameRoot target value st :
  move_towards nameRoot target value st
  = set_objects (move_towards_object nameRoot target value <$> objects st) st.
Proof.
  unfold move_towards.
  set (st0 := select_all_DESELECT st).
  assert (Hun : all_unselected st0).
  { intros j o. unfold st0. simpl. rewrite list_lookup_fmap.
    destruct (objects st !! j); simpl; [| discriminate]. intros [= <-]. reflexivity. }
  rewrite move_towards_fold; [| exact Hun |].
  2: { intros i Hi. apply elem_of_getObjList in Hi as (o & -> & _). eexists; reflexivity. }
  apply state_eq; simpl; try reflexivity.
  apply list_eq. intros j.
  rewrite lookup_foldl_alter by apply NoDup_getObjList.
  rewrite !list_lookup_fmap. unfold move_towards_object.
  destruct (decide (j ∈ _getObjList nameRoot st0)) as [Hj | Hj].
  - apply elem_of_getObjList in Hj as (o & E & Hp). unfold st0 in E. simpl in E.
    rewrite list_lookup_fmap in E.
    destruct (objects st !! j) as [o' |]; simpl in *; [| discriminate].
    injection E as <-. simpl in Hp. rewrite Hp. reflexivity.
  - destruct (objects st !! j) as [o |] eqn:E; [| reflexivity]. simpl.
    destruct (String.prefix nameRoot (name o)) eqn:Hp; [| reflexivity].
    exfalso. apply Hj. apply elem_of_getObjList. exists (set_selected false o).
    split; [| exact Hp]. unfold st0. simpl. rewrite list_lookup_fmap, E. reflexivity.
Qed.

End Moves.

(** ** The procedures of crowdControl.py *)

(** C5. [select] sets the selection flag of the objects whose names begin with
    the prefix and of no other object, [deselect] clears the flag of the same
    objects and of no other; nothing else of an object changes, and no object
    is added or removed. *)
Theorem select_deselect_exactly_prefix (nameRoot : string) (st : State) (i : nat) :
  objects (select nameRoot st) !! i
  = (fun o => if String.prefix nameRoot (name o) then set_selected true o else o)
      <$> objects st !! i
  /\ objects (deselect nameRoot st) !! i
     = (fun o => if String.prefix nameRoot (name o) then set_selected false o else o)
         <$> objects st !! i.
Proof.
  rewrite select_spec, deselect_spec. simpl. rewrite !list_lookup_fmap.
  split; reflexivity.
Qed.

(** C10. With the empty prefix every object is found: [select] selects all
    objects and [move] moves all objects. *)
Theorem empty_prefix_matches_all (vector : Vector) (st : State) :
  _getObjList "" st = seq 0 (length (objects st))
  /\ select "" st = set_objects (set_selected true <$> objects st) st
  /\ move "" vector st
     = set_objects
         ((fun o => translate_object vector (set_selected true o)) <$> objects st) st.
Proof.
  split; [apply getObjList_empty |]. split.
  - rewrite select_spec. f_equal. apply list_fmap_ext. intros _ o _.
    unfold select_object. rewrite prefix_empty. reflexivity.
  - rewrite move_spec. f_equal. apply list_fmap_ext. intros _ o _.
    unfold act_object. rewrite prefix_empty. reflexivity.
Qed.

(** C6. Over the reals, two moves by [v1] and then [v2] leave the host in the
    same state as one move by [v1 + v2]. *)
Theorem move_twice_is_move_sum (nameRoot : string) (v1 v2 : Vector) (st : State) :
  move nameRoot v2 (move nameRoot v1 st) = move nameRoot (Vec.add v1 v2) st.
Proof.
  rewrite !move_spec. apply state_eq; simpl; try reflexivity.
  rewrite <- list_fmap_compose. apply list_fmap_ext. intros _ o _.
  unfold act_object. simpl.
  destruct (String.prefix nameRoot (name o)) eqn:Hp; simpl; rewrite ?Hp; [| reflexivity].
  unfold translate_object, set_location, set_selected. simpl.
  rewrite add_assoc. reflexivity.
Qed.

Section MoveTowards.
Local Open Scope R_scope.




End MoveTowards.

(** ** The active object *)

Section Active.

Lemma then_exec_returns {A} (c : M A) (f : State -> State) (st st' : State) (u : unit) :
  (c ;; exec f) st = Return u st' -> exists st1, st' = f st1.
Proof.
  unfold bind, exec. destruct (c st) as [a st1 | e st1]; [| discriminate].
  intros [= _ <-]. exists st1. reflexivity.
Qed.

Lemma gets_then {A B} (f : State -> A) (k : A -> M B) (st : State) :
  (let* a := gets f in k a) st = k (f st) st.
Proof. reflexivity. Qed.

(** C9. When [enable_rigidbody], [disable_rigidbody] or [assign_material]
    returns, no object is active, whichever object was active before. *)
Theorem active_is_None_after_return (nameRoot type material : string) (st st' : State) :
  enable_rigidbody nameRoot type st = Return tt st'
  \/ disable_rigidbody nameRoot st = Return tt st'
  \/ assign_material nameRoot material st = Return tt st' ->
  active st' = None.
Proof.
  intros [H | [H | H]].
  - unfold enable_rigidbody in H. rewrite gets_then in H.
    apply then_exec_returns in H as [st1 ->]. reflexivity.
  - unfold disable_rigidbody in H. rewrite gets_then in H.
    apply then_exec_returns in H as [st1 ->]. reflexivity.
  - unfold assign_material in H. rewrite !gets_then in H.
    apply then_exec_returns in H as [st1 ->]. reflexivity.
Qed.

Lemma active_is_None_after_return_witness :
  active (final (enable_rigidbody "A" "PASSIVE" rigid_scene)) = None
  /\ active (final (disable_rigidbody "A" rigid_scene)) = None
  /\ active (final (assign_material "A" "Mat" rigid_scene)) = None.
Proof.
  split; [| split].
  - apply (active_is_None_after_return "A" "PASSIVE" "" rigid_scene).
    left. reflexivity.
  - apply (active_is_None_after_return "A" "" "" rigid_scene).
    right. left. reflexivity.
  - apply (active_is_None_after_return "A" "" "Mat" rigid_scene).
    right. right. reflexivity.
Defined.

(** The three procedures do return on [rigid_scene]. *)
Lemma procedures_return_on_rigid_scene :
  (exists st', enable_rigidbody "A" "PASSIVE" rigid_scene = Return tt st')
  /\ (exists st', disable_rigidbody "A" rigid_scene = Return tt st')
  /\ (exists st', assign_material "A" "Mat" rigid_scene = Return tt st').
Proof. repeat split; eexists; reflexivity. Qed.

(** When one of them raises, the object it was working on stays active:
    [assign_material] reads [bpy.context.object] before it makes anything
    active, and raises in the first round when nothing was active. *)
Lemma assign_material_raises_without_active :
  exists st', assign_material "A" "Mat" rigid_scene_no_active = Raise AttributeError st'
              /\ active st' = Some 0.
Proof. eexists. split; reflexivity. Qed.

End Active.

(** ** The loop body of shedScaleSkin.py *)

Section ScaleToScene.
Implicit Types (st : State) (os : list Object) (i j : nat).

Lemma alter_last {A} (f : A -> A) (l : list A) (a : A) :
  alter f (length l) (l ++ [a]) = l ++ [f a].
Proof.
  replace (length l) with (length l + 0) at 1 by lia.
  rewrite alter_app_r. reflexivity.
Qed.

Lemma lookup_last {A} (l : list A) (a : A) : (l ++ [a]) !! length l = Some a.
Proof. rewrite lookup_app_r by lia. rewrite Nat.sub_diag. reflexivity. Qed.

Lemma origin_set_unselected st (l : list nat) :
  (forall i o, i ∈ l -> objects st !! i = Some o -> selected o = false) ->
  foldl origin_set_object st l = st.
Proof.
  induction l as [| i l IH]; intros H; simpl; [reflexivity |].
  assert (E : origin_set_object st i = st).
  { unfold origin_set_object. destruct (objects st !! i) as [o |] eqn:Ho; [| reflexivity].
    rewrite (H i o (list_elem_of_here _ _) Ho). reflexivity. }
  rewrite E. apply IH. intros k o Hk. apply H. apply list_elem_of_further. exact Hk.
Qed.

(** [origin_set] when the last object of the scene is the only selected one. *)
Lemma origin_set_last st os (o : Object) (d : nat) (me : Mesh) :
  objects st = os ++ [o] ->
  Forall (fun o' => selected o' = false) os ->
  selected o = true -> data o = Some d -> meshes st !! d = Some me ->
  object_origin_set_ORIGIN_GEOMETRY st
  = set_objects
      (os ++ [set_location
                (Vec.add (location o)
                         (Vec.apply3 (rot_scale o) (median (mesh_vertices me)))) o])
      (set_meshes
         (alter (set_mesh_vertices
                   ((fun v => Vec.sub v (median (mesh_vertices me))) <$> mesh_vertices me))
                d (meshes st)) st).
Proof.
  intros Hos Hun Hsel Hd Hme. unfold object_origin_set_ORIGIN_GEOMETRY.
  rewrite Hos, length_app. simpl. rewrite seq_app, foldl_app. simpl.
  rewrite origin_set_unselected.
  - unfold origin_set_object. rewrite Hos, lookup_last, Hsel, Hd, Hme.
    apply state_eq; simpl; try reflexivity.
    rewrite Hos. apply alter_last.
  - intros i o' Hi Ho'. apply elem_of_seq in Hi. rewrite Hos in Ho'.
    rewrite lookup_app_l in Ho' by lia.
    rewrite Forall_forall in Hun. apply Hun. eapply list_elem_of_lookup_2. exact Ho'.
Qed.

Lemma on_selected_last (f : Object -> Object) st os (o : Object) :
  objects st = os ++ [o] ->
  Forall (fun o' => selected o' = false) os -> selected o = true ->
  on_selected f st = set_objects (os ++ [f o]) st.
Proof.
  intros Hos Hun Hsel. unfold on_selected. f_equal. rewrite Hos, fmap_app. simpl.
  rewrite Hsel. f_equal.
  rewrite <- (list_fmap_id os) at 2. apply Forall_fmap_ext_1.
  eapply Forall_impl; [exact Hun |]. intros o' ->. reflexivity.
Qed.

Lemma unselected_fmap os : Forall (fun o' => selected o' = false) (set_selected false <$> os).
Proof.
  apply Forall_forall. intros o' Ho'. apply list_elem_of_fmap in Ho' as (o & -> & _).
  reflexivity.
Qed.

Lemma scale_to_scene_eq sName (sBM : BMesh) (vecOtoS : Vector) (face : BMFace) st :
  scale_to_scene sName sBM vecOtoS face st
  = if (face_material_index face <? length (materials st))%nat
    then Return tt (with_scale st sName sBM vecOtoS [Some (face_material_index face)])
    else Raise IndexError (with_scale st sName sBM vecOtoS []).
Proof.
  unfold scale_to_scene, meshes_new, objects_new, materials_getitem, materials_append.
  unfold bind, exec, gets, ret. simpl.
  rewrite alter_last. simpl.
  unfold select_all_DESELECT, select_set. simpl.
  rewrite fmap_app. simpl.
  replace (length (objects st)) with (length (set_selected false <$> objects st))
    by apply length_fmap.
  rewrite alter_last. simpl.
  erewrite origin_set_last; simpl.
  2: reflexivity.
  2: apply unselected_fmap.
  2: reflexivity.
  2: reflexivity.
  2: apply lookup_last.
  simpl. rewrite alter_last. simpl.
  unfold transform_translate.
  erewrite on_selected_last; simpl.
  2: reflexivity.
  2: apply unselected_fmap.
  2: reflexivity.
  destruct (face_material_index face <? length (materials st))%nat; [| reflexivity].
  simpl. rewrite lookup_last. simpl. rewrite alter_last. reflexivity.
Qed.
End ScaleToScene.

Section ScaleBMesh.

Lemma some_or_final {A} (e : Exn) (o : option A) (st : State) : final (some_or e o st) = st.
Proof. destruct o; reflexivity. Qed.

(** The UV copy reads the scene and leaves it as it is. *)
Lemma copy_uv_final (oM : nat) (sBM : BMesh) (loop : BMLoop) (st : State) :
  final (copy_uv oM sBM loop st) = st.
Proof.
  unfold copy_uv, bind, gets. simpl.
  destruct (meshes st !! oM) as [me |]; simpl; [| reflexivity].
  destruct (uv_layers_active me) as [layer |]; simpl; [| reflexivity].
  destruct (py_getitem layer (loop_index loop)); simpl; [| reflexivity].
  apply some_or_final.
Qed.

Lemma fold_each_final {A B} (body : A -> B -> M A) (l : list B) (a : A) (st : State) :
  (forall a b st, final (body a b st) = st) ->
  final (fold_each l a body st) = st.
Proof.
  intros Hb. revert a. induction l as [| b l IH]; intros a; simpl; [reflexivity |].
  unfold bind. specialize (Hb a b st).
  destruct (body a b st) as [a' st' | e st']; simpl in Hb; subst st'; [apply IH | reflexivity].
Qed.

Lemma scale_bmesh_eq (oM : nat) (oBM : BMesh) (oLoc : Vector) (face : BMFace) (st : State) :
  scale_bmesh oM oBM oLoc face st
  = if (length (face_verts face) <? 3)%nat then Raise ValueError st
    else match fold_each (face_loops face) (prism oBM oLoc face) (copy_uv oM) st with
         | Return sBM _ => Return (sBM, push_direction oBM oLoc face) st
         | Raise e _ => Raise e st
         end.
Proof.
  rewrite <- (length_fmap (co oBM) (face_verts face)).
  unfold scale_bmesh, new_scale_bmesh, bind.
  destruct (length (co oBM <$> face_verts face) <? 3)%nat; [reflexivity |].
  unfold ret at 1. simpl.
  pose proof (fold_each_final (copy_uv oM) (face_loops face) (prism oBM oLoc face) st
                (copy_uv_final oM)) as Hf.
  unfold prism in *. simpl in *.
  destruct (fold_each _ _ _ st) as [b st' | e st']; simpl in Hf; subst st'; reflexivity.
Qed.

End ScaleBMesh.

Section Geometry.
Local Open Scope R_scope.
Implicit Types (v t : Vector) (l vs : list Vector).

Lemma add_comm v t : Vec.add v t = Vec.add t v.
Proof. apply vec_eq; simpl; lra. Qed.

Lemma add_zero_l v : Vec.add Vec.zero v = v.
Proof. apply vec_eq; simpl; lra. Qed.

Lemma add_zero_r v : Vec.add v Vec.zero = v.
Proof. apply vec_eq; simpl; lra. Qed.

Lemma apply3_identity v : Vec.apply3 Vec.identity3 v = v.
Proof. apply vec_eq; unfold Vec.apply3, Vec.dot; simpl; lra. Qed.

Lemma vsum_app l1 l2 : vsum (l1 ++ l2) = Vec.add (vsum l1) (vsum l2).
Proof.
  induction l1 as [| v l1 IH]; simpl.
  - symmetry. apply add_zero_l.
  - rewrite IH. symmetry. apply add_assoc.
Qed.

Lemma vsum_reverse l : vsum (reverse l) = vsum l.
Proof.
  induction l as [| v l IH]; [reflexivity |].
  rewrite reverse_cons, vsum_app, IH. simpl. rewrite add_zero_r. apply add_comm.
Qed.

Lemma median_turned_over l : median (turned_over l) = median l.
Proof.
  destruct l as [| v l]; [reflexivity |].
  unfold median, turned_over. simpl. rewrite vsum_reverse, length_reverse. reflexivity.
Qed.

Lemma fmap_turned_over {A B} (f : A -> B) (l : list A) :
  f <$> turned_over l = turned_over (f <$> l).
Proof. destruct l as [| a l]; [reflexivity |]. simpl. rewrite fmap_reverse. reflexivity. Qed.

Lemma length_turned_over {A} (l : list A) : length (turned_over l) = length l.
Proof. destruct l as [| a l]; [reflexivity |]. simpl. rewrite length_reverse. reflexivity. Qed.

Lemma vsum_shift t l :
  vsum ((fun c => Vec.add c t) <$> l) = Vec.add (vsum l) (Vec.mul t (INR (length l))).
Proof.
  induction l as [| v l IH].
  - apply vec_eq; simpl; lra.
  - change (vsum ((fun c => Vec.add c t) <$> v :: l))
      with (Vec.add (Vec.add v t) (vsum ((fun c => Vec.add c t) <$> l))).
    rewrite IH. change (length (v :: l)) with (S (length l)). rewrite S_INR.
    apply vec_eq; simpl; lra.
Qed.

(** The mean of the corners of a prism: half way between the two faces. *)
Lemma median_prism t l :
  l <> [] ->
  median (l ++ ((fun c => Vec.add c t) <$> l)) = Vec.add (median l) (Vec.mul t (/ 2)).
Proof.
  intros Hl. unfold median. destruct l as [| v l]; [contradiction |].
  change ((v :: l) ++ _) with (v :: (l ++ ((fun c => Vec.add c t) <$> v :: l))).
  cbv iota.
  change (v :: (l ++ ((fun c => Vec.add c t) <$> v :: l)))
    with ((v :: l) ++ ((fun c => Vec.add c t) <$> v :: l)).
  rewrite vsum_app, vsum_shift, length_app, length_fmap, plus_INR.
  set (n := INR (length (v :: l))).
  assert (Hn : 0 < n).
  { unfold n. apply lt_0_INR. simpl. lia. }
  set (s := vsum (v :: l)).
  apply vec_eq; simpl; field; lra.
Qed.

End Geometry.

Section Prism.
Implicit Types (vs : list Vector).

Lemma co_seq vs (ws : list Vector) (fs : list BMFace) :
  co (mkBMesh (vs ++ ws) fs) <$> seq 0 (length vs) = vs.
Proof.
  apply list_eq. intros i. rewrite list_lookup_fmap.
  destruct (decide (i < length vs)) as [Hi | Hi].
  - rewrite lookup_seq_lt by exact Hi. simpl. unfold co. simpl.
    rewrite lookup_app_l by exact Hi.
    destruct (lookup_lt_is_Some_2 vs i Hi) as [v ->]. reflexivity.
  - rewrite lookup_seq_ge by lia. simpl. symmetry. apply lookup_ge_None. lia.
Qed.

Lemma loop_vert_new_loop (l : list nat) : loop_vert <$> (new_loop <$> l) = l.
Proof. rewrite <- list_fmap_compose. apply list_fmap_id. Qed.

Lemma extruded_centre vs (oLoc : Vector) :
  vecOtoS_of
    (fst (extrude_face_region (mkBMesh vs [mkFace (new_loop <$> seq 0 (length vs)) 0])))
    oLoc
  = Vec.normalize (Vec.sub (median vs) oLoc).
Proof.
  unfold vecOtoS_of, calc_center_median, face_at, extrude_face_region, face_verts.
  simpl. rewrite !fmap_turned_over, loop_vert_new_loop, co_seq, median_turned_over.
  reflexivity.
Qed.

(** Lines 55 and 56: the unit vector from the origin of the source object to
    the centre of the face. *)
Lemma push_direction_eq (oBM : BMesh) (oLoc : Vector) (face : BMFace) :
  push_direction oBM oLoc face
  = Vec.normalize (Vec.sub (face_centre oBM face) oLoc).
Proof. apply extruded_centre. Qed.

Lemma translate_second_half vs (t : Vector) :
  foldl (fun acc v => alter (fun c => Vec.add c t) v acc) (vs ++ vs)
        (seq (length vs) (length vs))
  = vs ++ ((fun c => Vec.add c t) <$> vs).
Proof.
  apply list_eq. intros i.
  rewrite lookup_foldl_alter by apply NoDup_seq.
  destruct (decide (i ∈ seq (length vs) (length vs))) as [Hi | Hi];
    rewrite elem_of_seq in Hi.
  - rewrite !lookup_app_r by lia. rewrite list_lookup_fmap. reflexivity.
  - destruct (decide (i < length vs)) as [Hlt | Hge].
    + rewrite !lookup_app_l by lia. reflexivity.
    + rewrite !lookup_ge_None_2; [reflexivity | |];
        rewrite length_app, ?length_fmap; lia.
Qed.

(** The vertices of the scale: the corners of the face and, pushed out by the
    thickness, their duplicates. *)
Lemma prism_verts (oBM : BMesh) (oLoc : Vector) (face : BMFace) :
  bm_verts (prism oBM oLoc face)
  = (co oBM <$> face_verts face)
    ++ ((fun c => Vec.add c (Vec.mul (push_direction oBM oLoc face) SCALE_THICKNESS))
          <$> (co oBM <$> face_verts face)).
Proof. unfold prism, push_direction. simpl. apply translate_second_half. Qed.

Lemma fmap_const_seq {A} (g : nat -> A) (a : A) (j n : nat) :
  (forall k, g k = a) -> g <$> seq j n = replicate n a.
Proof.
  intros Hg. revert j. induction n as [| n IH]; intros j; simpl; [reflexivity |].
  rewrite Hg. f_equal. apply IH.
Qed.

(** The faces of the scale: the face and its copy, and one quad per edge. *)
Lemma prism_loop_counts (oBM : BMesh) (oLoc : Vector) (face : BMFace) :
  (fun f => length (face_loops f)) <$> bm_faces (prism oBM oLoc face)
  = length (face_loops face) :: length (face_loops face)
    :: replicate (length (face_loops face)) 4%nat.
Proof.
  unfold prism. simpl. rewrite length_turned_over, !length_fmap, length_seq.
  unfold face_verts. rewrite !length_fmap. f_equal. f_equal; [apply length_seq |].
  change (list_fmap BMFace nat) with (@fmap list _ BMFace nat).
  rewrite <- list_fmap_compose. apply fmap_const_seq. reflexivity.
Qed.

End Prism.

Section UVCopy.

Lemma py_getitem_nonneg {A} (l : list A) (i : Z) :
  (0 <= i)%Z -> py_getitem l i = l !! Z.to_nat i.
Proof.
  intros Hi. unfold py_getitem.
  destruct (0 <=? i)%Z eqn:E; [reflexivity |]. apply Z.leb_gt in E. lia.
Qed.

Lemma set_loop_uv_Some (i : Z) (uv : UV) (f : BMFace) :
  (0 <= i)%Z -> Z.to_nat i < length (face_loops f) ->
  exists f', set_loop_uv i uv f = Some f'
             /\ length (face_loops f') = length (face_loops f).
Proof.
  intros Hi Hlt. unfold set_loop_uv. rewrite py_getitem_nonneg by exact Hi.
  destruct (lookup_lt_is_Some_2 (face_loops f) (Z.to_nat i) Hlt) as [l ->].
  eexists. split; [reflexivity |]. simpl. apply length_insert.
Qed.

Lemma set_loop_uv_None (i : Z) (uv : UV) (f : BMFace) :
  (0 <= i)%Z -> length (face_loops f) <= Z.to_nat i -> set_loop_uv i uv f = None.
Proof.
  intros Hi Hge. unfold set_loop_uv. rewrite py_getitem_nonneg by exact Hi.
  rewrite lookup_ge_None_2 by exact Hge. reflexivity.
Qed.

Lemma mapM_set_loop_uv (i : Z) (uv : UV) (fs : list BMFace) :
  (0 <= i)%Z -> Forall (fun f => Z.to_nat i < length (face_loops f)) fs ->
  exists fs', mapM (set_loop_uv i uv) fs = Some fs'
              /\ (fun f => length (face_loops f)) <$> fs'
                 = (fun f => length (face_loops f)) <$> fs.
Proof.
  intros Hi. induction 1 as [| f fs Hf _ (fs' & E & Hc)].
  - exists []. split; reflexivity.
  - destruct (set_loop_uv_Some i uv f Hi Hf) as (f' & Ef & Hl).
    exists (f' :: fs'). split.
    + simpl. rewrite Ef. simpl. rewrite E. reflexivity.
    + rewrite !fmap_cons, Hl, Hc. reflexivity.
Qed.

Lemma mapM_set_loop_uv_None (i : Z) (uv : UV) (fs : list BMFace) :
  (0 <= i)%Z -> Exists (fun f => length (face_loops f) <= Z.to_nat i) fs ->
  mapM (set_loop_uv i uv) fs = None.
Proof.
  intros Hi. induction 1 as [f fs Hf | f fs _ IH]; simpl.
  - rewrite set_loop_uv_None by assumption. reflexivity.
  - destruct (set_loop_uv i uv f); simpl; [| reflexivity]. rewrite IH. reflexivity.
Qed.

Lemma mod4_nonneg (i : Z) : (0 <= i mod 4)%Z.
Proof. apply Z.mod_pos_bound. lia. Qed.

Lemma copy_uv_returns (oM : nat) (sBM : BMesh) (loop : BMLoop) (st : State)
  (me : Mesh) (layer : list UV) (n : nat) :
  meshes st !! oM = Some me -> uv_layers_active me = Some layer ->
  uv_copyable layer n loop ->
  Forall (fun c => n <= c) (loop_counts sBM) ->
  exists sBM', copy_uv oM sBM loop st = Return sBM' st
               /\ bm_verts sBM' = bm_verts sBM
               /\ loop_counts sBM' = loop_counts sBM.
Proof.
  intros Hme Hl (H0 & Hlt & Hmod) Hc.
  destruct (mapM_set_loop_uv (loop_index loop mod 4)
              (default uv_zero (layer !! Z.to_nat (loop_index loop))) (bm_faces sBM))
    as (fs' & E & Hfs).
  { apply mod4_nonneg. }
  { unfold loop_counts in Hc. rewrite Forall_fmap in Hc.
    eapply Forall_impl; [exact Hc |]. simpl. intros f Hf. lia. }
  exists (mkBMesh (bm_verts sBM) fs'). split; [| split; [reflexivity | exact Hfs]].
  unfold copy_uv, bind, gets. simpl. rewrite Hme. simpl. rewrite Hl. simpl.
  rewrite py_getitem_nonneg by exact H0.
  destruct (lookup_lt_is_Some_2 layer _ Hlt) as [uv Huv]. rewrite Huv in *. simpl in *.
  unfold set_faces_uv. rewrite E. reflexivity.
Qed.

Lemma copy_uvs_return (oM : nat) (loops : list BMLoop) (sBM : BMesh) (st : State)
  (me : Mesh) (layer : list UV) (n : nat) :
  meshes st !! oM = Some me -> uv_layers_active me = Some layer ->
  Forall (uv_copyable layer n) loops ->
  Forall (fun c => n <= c) (loop_counts sBM) ->
  exists sBM', fold_each loops sBM (copy_uv oM) st = Return sBM' st
               /\ bm_verts sBM' = bm_verts sBM
               /\ loop_counts sBM' = loop_counts sBM.
Proof.
  intros Hme Hl Hloops. revert sBM.
  induction Hloops as [| loop loops Hloop _ IH]; intros sBM Hc.
  - exists sBM. repeat split; reflexivity.
  - destruct (copy_uv_returns oM sBM loop st me layer n Hme Hl Hloop Hc)
      as (sBM1 & E1 & Hv1 & Hc1).
    destruct (IH sBM1) as (sBM' & E & Hv & Hc'); [rewrite Hc1; exact Hc |].
    exists sBM'. split; [| split; congruence].
    simpl. unfold bind. rewrite E1. exact E.
Qed.

End UVCopy.

Section Names.
Implicit Types (nm : string) (names : list string) (k : nat).

Lemma name_in_spec nm names : name_in nm names = true <-> nm ∈ names.
Proof.
  unfold name_in. rewrite existsb_exists. split.
  - intros (x & Hx & E). apply String.eqb_eq in E. subst x.
    apply list_elem_of_In. exact Hx.
  - intros H. exists nm. split; [apply list_elem_of_In; exact H | apply String.eqb_refl].
Qed.

Lemma prefix_append (s t : string) : String.prefix s (s ++ t) = true.
Proof.
  induction s as [| a s IH]; [apply prefix_empty |]. simpl.
  destruct (Ascii.ascii_dec a a) as [_ | Hn]; [exact IH | contradiction].
Qed.

Lemma append_inj_r (s t u : string) : (s ++ t)%string = (s ++ u)%string -> t = u.
Proof.
  induction s as [| a s IH]; simpl; [trivial |]. intros [= H]. apply IH, H.
Qed.

Lemma str_inj (j k : nat) : str j = str k -> j = k.
Proof.
  unfold str. intros H. apply DecimalNat.Unsigned.to_uint_inj.
  apply (f_equal NilEmpty.uint_of_string) in H. rewrite !NilEmpty.usu in H.
  injection H as H. exact H.
Qed.

(** the decimal notation of a number begins with the digit 0 for 0 only *)
Lemma str_head_zero (k : nat) (s : string) : str k = String (Ascii.ascii_of_nat 48) s -> k = 0.
Proof.
  unfold str. intros H.
  assert (Hd : exists d, Nat.to_uint k = Decimal.D0 d).
  { destruct (Nat.to_uint k) as [| d | d | d | d | d | d | d | d | d | d];
      simpl in H; try discriminate; eexists; reflexivity. }
  destruct Hd as [d Hd].
  pose proof (DecimalNat.Unsigned.to_of (Nat.to_uint k)) as Hn.
  rewrite DecimalNat.Unsigned.of_to, Hd, DecimalFacts.unorm_D0 in Hn.
  destruct (Decimal.nzhead d) as [| d' | d' | d' | d' | d' | d' | d' | d' | d' | d']
    eqn:Hz; unfold Decimal.unorm in Hn; rewrite Hz in Hn; try discriminate.
  - apply DecimalNat.Unsigned.to_uint_inj. rewrite Hd, Hn. reflexivity.
  - exfalso. exact (DecimalFacts.nzhead_nonzero d d' Hz).
Qed.

Lemma pad3_inj (j k : nat) : pad3 j = pad3 k -> j = k.
Proof.
  unfold pad3.
  destruct (Nat.ltb_spec j 10) as [Hj | Hj]; [| destruct (Nat.ltb_spec j 100) as [Hj' | Hj']];
    (destruct (Nat.ltb_spec k 10) as [Hk | Hk];
     [| destruct (Nat.ltb_spec k 100) as [Hk' | Hk']]);
    simpl; intros H.
  - injection H as H. apply str_inj, H.
  - injection H as H. symmetry in H. apply str_head_zero in H. lia.
  - symmetry in H. apply str_head_zero in H. lia.
  - injection H as H. apply str_head_zero in H. lia.
  - injection H as H. apply str_inj, H.
  - symmetry in H. apply str_head_zero in H. lia.
  - apply str_head_zero in H. lia.
  - apply str_head_zero in H. lia.
  - apply str_inj, H.
Qed.

Lemma numbered_inj nm (j k : nat) : numbered nm j = numbered nm k -> j = k.
Proof.
  unfold numbered. intros H. apply append_inj_r in H. simpl in H.
  injection H as H. apply pad3_inj, H.
Qed.

Lemma first_free_prefix nm names k fuel :
  String.prefix nm (first_free nm names k fuel) = true.
Proof.
  revert k. induction fuel as [| fuel IH]; intros k; simpl.
  - apply prefix_append.
  - destruct (name_in (numbered nm k) names); [apply IH | apply prefix_append].
Qed.

(** The search finds a free name: were the names tried all in use, there
    would be more names in use than there are. *)
Lemma first_free_fresh nm names (k0 : nat) :
  forall fuel k,
    k0 <= k -> length names <= (k - k0) + fuel ->
    (forall j, k0 <= j < k -> numbered nm j ∈ names) ->
    first_free nm names k fuel ∉ names.
Proof.
  induction fuel as [| fuel IH]; intros k Hk Hlen Hused; simpl.
  - intros Hin.
    assert (Hsub : numbered nm <$> seq k0 (S (k - k0)) ⊆+ names).
    { apply NoDup_submseteq.
      - apply NoDup_fmap_2_strong; [| apply NoDup_seq].
        intros a b _ _ E. apply (numbered_inj nm), E.
      - intros x Hx. apply list_elem_of_fmap in Hx as (j & -> & Hj).
        apply elem_of_seq in Hj.
        destruct (decide (j = k)) as [-> | Hne]; [exact Hin |].
        apply Hused. lia. }
    apply submseteq_length in Hsub. rewrite length_fmap, length_seq in Hsub. lia.
  - destruct (name_in (numbered nm k) names) eqn:E.
    + apply IH; [lia | lia |]. intros j Hj.
      destruct (decide (j = k)) as [-> | Hne]; [apply name_in_spec, E |].
      apply Hused. lia.
    + intros Hin. apply name_in_spec in Hin. congruence.
Qed.

(** The name of new data is the name of no data that is there. *)
Lemma unique_name_fresh nm names : unique_name nm names ∉ names.
Proof.
  unfold unique_name. destruct (name_in nm names) eqn:E.
  - apply (first_free_fresh nm names 1); [lia | lia |]. intros j Hj. lia.
  - intros Hin. apply name_in_spec in Hin. congruence.
Qed.

(** It begins with the name asked for. *)
Lemma unique_name_prefix nm names : String.prefix nm (unique_name nm names) = true.
Proof.
  unfold unique_name. destruct (name_in nm names).
  - apply first_free_prefix.
  - clear. induction nm as [| a nm IH]; [reflexivity |]. simpl.
    destruct (Ascii.ascii_dec a a) as [_ | Hn]; [exact IH | contradiction].
Qed.

(** It is the name asked for when that name is free. *)
Lemma unique_name_free nm names : nm ∉ names -> unique_name nm names = nm.
Proof.
  intros H. unfold unique_name. destruct (name_in nm names) eqn:E; [| reflexivity].
  exfalso. apply H, name_in_spec, E.
Qed.

End Names.

Section LoopBody.
Implicit Types (st : State).

Lemma scale_of_face_eq (oM : nat) (oBM : BMesh) (oLoc : Vector) (faceNum : nat)
  (face : BMFace) st :
  scale_of_face oM oBM oLoc faceNum face st
  = match scale_bmesh oM oBM oLoc face st with
    | Return (sBM, vecOtoS) _ =>
        let sName := ("scale" ++ originalObjectName ++ str faceNum)%string in
        if (face_material_index face <? length (materials st))%nat
        then Return (S faceNum)
               (with_scale st sName sBM vecOtoS [Some (face_material_index face)])
        else Raise IndexError (with_scale st sName sBM vecOtoS [])
    | Raise e _ => Raise e st
    end.
Proof.
  unfold scale_of_face, bind at 1.
  pose proof (scale_bmesh_eq oM oBM oLoc face st) as E.
  destruct (length (face_verts face) <? 3)%nat; [rewrite E; reflexivity |].
  destruct (fold_each _ _ _ st) as [b s1 | e s1]; rewrite E; [| reflexivity].
  unfold bind. rewrite scale_to_scene_eq.
  destruct (face_material_index face <? length (materials st))%nat; reflexivity.
Qed.

Lemma prism_counts_ge (oBM : BMesh) (oLoc : Vector) (face : BMFace) :
  Forall (fun c => Nat.min (length (face_loops face)) 4 <= c)
         (loop_counts (prism oBM oLoc face)).
Proof.
  unfold loop_counts. rewrite prism_loop_counts.
  repeat apply Forall_cons_2; try lia.
  apply Forall_replicate. lia.
Qed.

(** The loop body returns for a face of three corners or more whose loops
    have UV coordinates in the source mesh and indices that fit the faces of
    the scale, and whose material index is in the range of
    [bpy.data.materials]. *)
Lemma scale_of_face_returns (oM : nat) (oBM : BMesh) (oLoc : Vector) (faceNum : nat)
  (face : BMFace) st (me : Mesh) (layer : list UV) :
  meshes st !! oM = Some me -> uv_layers_active me = Some layer ->
  3 <= length (face_loops face) ->
  Forall (uv_copyable layer (Nat.min (length (face_loops face)) 4)) (face_loops face) ->
  face_material_index face < length (materials st) ->
  exists sBM,
    scale_of_face oM oBM oLoc faceNum face st
    = Return (S faceNum)
        (with_scale st ("scale" ++ originalObjectName ++ str faceNum) sBM
           (push_direction oBM oLoc face) [Some (face_material_index face)])
    /\ bm_verts sBM = bm_verts (prism oBM oLoc face).
Proof.
  intros Hme Hl Hn Hloops Hmat.
  destruct (copy_uvs_return oM (face_loops face) (prism oBM oLoc face) st me layer _
              Hme Hl Hloops (prism_counts_ge oBM oLoc face)) as (sBM & E & Hv & _).
  exists sBM. split; [| exact Hv].
  rewrite scale_of_face_eq, scale_bmesh_eq.
  unfold face_verts. rewrite length_fmap.
  destruct (Nat.ltb_spec (length (face_loops face)) 3) as [Hlt | _]; [lia |].
  rewrite E. simpl.
  destruct (Nat.ltb_spec (face_material_index face) (length (materials st))) as [_ | Hge];
    [reflexivity | lia].
Qed.

Lemma keeps_refl st : keeps st st.
Proof.
  repeat split; try (intros; assumption).
  intros i o Ho. exists (selected o). rewrite Ho. destruct o; reflexivity.
Qed.

Lemma keeps_trans st1 st2 st3 : keeps st1 st2 -> keeps st2 st3 -> keeps st1 st3.
Proof.
  intros (Ho & Hm & Hmat & Ha) (Ho' & Hm' & Hmat' & Ha'). repeat split.
  - intros i o Hi. destruct (Ho i o Hi) as [b Hb]. destruct (Ho' _ _ Hb) as [b' Hb'].
    exists b'. rewrite Hb'. reflexivity.
  - intros d m Hd. apply Hm', Hm, Hd.
  - congruence.
  - congruence.
Qed.

Lemma keeps_with_scale st sName (sBM : BMesh) (vecOtoS : Vector) mats :
  keeps st (with_scale st sName sBM vecOtoS mats).
Proof.
  repeat split; simpl.
  - intros i o Hi. exists false.
    rewrite lookup_app_l by (rewrite length_fmap; eapply lookup_lt_Some; exact Hi).
    rewrite list_lookup_fmap, Hi. reflexivity.
  - intros d m Hd. rewrite lookup_app_l by (eapply lookup_lt_Some; exact Hd). exact Hd.
Qed.

(** Whatever the outcome of the loop body, it leaves the objects and meshes
    that were there as they are, the selection apart. *)
Lemma scale_of_face_keeps (oM : nat) (oBM : BMesh) (oLoc : Vector) (faceNum : nat)
  (face : BMFace) st :
  keeps st (final (scale_of_face oM oBM oLoc faceNum face st)).
Proof.
  rewrite scale_of_face_eq.
  destruct (scale_bmesh oM oBM oLoc face st) as [[sBM v] s1 | e s1]; simpl;
    [| apply keeps_refl].
  destruct (face_material_index face <? length (materials st))%nat; simpl;
    apply keeps_with_scale.
Qed.

Lemma fold_each_keeps {A B} (body : A -> B -> M A) (l : list B) (a : A) st :
  (forall a b st, keeps st (final (body a b st))) ->
  keeps st (final (fold_each l a body st)).
Proof.
  intros Hb. revert a st. induction l as [| b l IH]; intros a st; simpl.
  - apply keeps_refl.
  - unfold bind. specialize (Hb a b st).
    destruct (body a b st) as [a' st' | e st']; simpl in Hb; [| exact Hb].
    eapply keeps_trans; [exact Hb | apply IH].
Qed.

End LoopBody.

Section Script.
Implicit Types (st : State).

Lemma scales_fold (oM : nat) (oBM : BMesh) (oLoc : Vector) (me : Mesh) (layer : list UV)
  (fs : list BMFace) :
  forall (n : nat) st,
    meshes st !! oM = Some me -> uv_layers_active me = Some layer ->
    Forall (good_face layer (length (materials st))) fs ->
    exists st',
      fold_each fs n (scale_of_face oM oBM oLoc) st = Return (n + length fs) st'
      /\ keeps st st'
      /\ length (objects st') = length (objects st) + length fs
      /\ length (meshes st') = length (meshes st) + length fs
      /\ forall k face, fs !! k = Some face ->
           is_scale_of oBM oLoc (n + k) face st'
                       (length (objects st) + k) (length (meshes st) + k).
Proof.
  induction fs as [| f fs IH]; intros n st Hme Hl Hgood.
  - exists st. simpl. rewrite Nat.add_0_r.
    repeat split; try lia; try apply keeps_refl. intros k face Hk. discriminate.
  - apply Forall_cons in Hgood as [(H3 & Huv & Hmat) Hgood].
    destruct (scale_of_face_returns oM oBM oLoc n f st me layer Hme Hl H3 Huv Hmat)
      as (sBM & E & Hv).
    set (st1 := with_scale st ("scale" ++ originalObjectName ++ str n) sBM
                  (push_direction oBM oLoc f) [Some (face_material_index f)]) in *.
    assert (K1 : keeps st st1) by apply keeps_with_scale.
    destruct (IH (S n) st1) as (st' & E' & K & Hlo & Hlm & Hsc).
    { apply K1. exact Hme. }
    { exact Hl. }
    { exact Hgood. }
    assert (Hlo1 : length (objects st1) = S (length (objects st))).
    { unfold st1. simpl. rewrite length_app, length_fmap. simpl. lia. }
    assert (Hlm1 : length (meshes st1) = S (length (meshes st))).
    { unfold st1. simpl. rewrite length_app. simpl. lia. }
    exists st'. split; [| split; [| split; [| split]]].
    + simpl. unfold bind. rewrite E, E'. f_equal. simpl. lia.
    + eapply keeps_trans; eassumption.
    + simpl. lia.
    + simpl. lia.
    + intros [| k] face Hk; simpl in Hk.
      * injection Hk as <-. rewrite !Nat.add_0_r.
        destruct K as (Ko & Km & _).
        set (sName := unique_name ("scale" ++ originalObjectName ++ str n)
                        (name <$> objects st)).
        destruct (Ko (length (objects st))
                     (scale_object sName (length (meshes st)) sBM
                        (push_direction oBM oLoc f)))
          as [b Hb].
        { unfold st1. simpl.
          replace (length (objects st)) with (length (set_selected false <$> objects st))
            at 1 by apply length_fmap.
          apply lookup_last. }
        exists sBM, b, sName,
          (unique_name ("scale" ++ originalObjectName ++ str n) (mesh_name <$> meshes st)).
        split; [| split; [| split; [exact Hv | split]]].
        -- rewrite Hb. reflexivity.
        -- apply Km. unfold st1. simpl. apply lookup_last.
        -- apply unique_name_prefix.
        -- intros j o Hj Ho En.
           destruct (lookup_lt_is_Some_2 (objects st) j Hj) as [o0 Ho0].
           destruct K1 as (Ko1 & _). destruct (Ko1 j o0 Ho0) as [b1 Hb1].
           destruct (Ko j _ Hb1) as [b2 Hb2]. rewrite Hb2 in Ho. injection Ho as <-.
           simpl in En. apply (unique_name_fresh ("scale" ++ originalObjectName ++ str n)
                                 (name <$> objects st)).
           fold sName. rewrite <- En. apply list_elem_of_fmap. exists o0.
           split; [reflexivity |]. eapply list_elem_of_lookup_2. exact Ho0.
      * specialize (Hsc k face Hk). rewrite Hlo1, Hlm1 in Hsc.
        replace (n + S k) with (S n + k) by lia.
        replace (length (objects st) + S k) with (S (length (objects st)) + k) by lia.
        replace (length (meshes st) + S k) with (S (length (meshes st)) + k) by lia.
        exact Hsc.
Qed.

End Script.

Section WholeScript.
Implicit Types (st : State).

Lemma find_name_fmap (key : string) (b : bool) (os : list Object) (i : nat) :
  find_name key (set_selected b <$> os) i = find_name key os i.
Proof.
  revert i. induction os as [| o os IH]; intros i; simpl; [reflexivity |].
  rewrite IH. reflexivity.
Qed.

(** The script, with the calls that cannot fail carried out. *)
Lemma shedScaleSkin_eq st :
  shedScaleSkin st
  = match active st with
    | None => Raise RuntimeError st
    | Some _ =>
    let st0 := select_all_DESELECT st in
    match find_name originalObjectName (objects st) 0 with
    | None => Raise KeyError st0
    | Some o =>
        let st1 := select_set o true st0 in
        match objects st !! o with
        | None => Raise ReferenceError st1
        | Some ob =>
            match data ob with
            | None => Raise TypeError st1
            | Some oM =>
                match meshes st !! oM with
                | None => Raise ReferenceError st1
                | Some me =>
                    let oBM := bmesh_transform (matrix_world ob) (from_mesh me) in
                    match fold_each (bm_faces oBM) 0
                            (scale_of_face oM oBM (location ob)) st1 with
                    | Return _ st' => Return tt (select_all_DESELECT st')
                    | Raise e st' => Raise e st'
                    end
                end
            end
        end
    end
    end.
Proof.
  unfold shedScaleSkin, mode_set_OBJECT, objects_getitem, bind, exec, gets. simpl.
  destruct (active st) as [a |]; simpl; [| reflexivity].
  rewrite find_name_fmap.
  destruct (find_name originalObjectName (objects st) 0) as [o |]; simpl; [| reflexivity].
  rewrite list_lookup_alter_eq, list_lookup_fmap.
  destruct (objects st !! o) as [ob |]; simpl; [| reflexivity].
  destruct (data ob) as [oM |]; simpl; [| reflexivity].
  destruct (meshes st !! oM) as [me |]; simpl; [| reflexivity].
  reflexivity.
Qed.

Lemma keeps_deselect st : keeps st (select_all_DESELECT st).
Proof.
  repeat split; simpl; try (intros; assumption).
  intros i o Hi. exists false. rewrite list_lookup_fmap, Hi. reflexivity.
Qed.

Lemma keeps_select_set st (i : nat) (b : bool) : keeps st (select_set i b st).
Proof.
  repeat split; simpl; try (intros; assumption).
  intros j o Hj. rewrite list_lookup_alter.
  destruct (decide (i = j)) as [-> | _]; rewrite Hj; simpl.
  - exists b. reflexivity.
  - exists (selected o). destruct o; reflexivity.
Qed.

(** The frame of the script: whatever the outcome, the
    script changes nothing of the objects that were in the scene but their
    selection flag, and nothing of the meshes that were there. *)
Lemma shedScaleSkin_keeps st : keeps st (final (shedScaleSkin st)).
Proof.
  rewrite shedScaleSkin_eq. cbv zeta.
  destruct (active st) as [a |]; [| apply keeps_refl].
  destruct (find_name originalObjectName (objects st) 0) as [o |];
    [| apply keeps_deselect].
  assert (K1 : keeps st (select_set o true (select_all_DESELECT st))).
  { eapply keeps_trans; [apply keeps_deselect | apply keeps_select_set]. }
  destruct (objects st !! o) as [ob |]; [| exact K1].
  destruct (data ob) as [oM |]; [| exact K1].
  destruct (meshes st !! oM) as [me |]; [| exact K1].
  match goal with
  | |- context [fold_each ?l ?n0 ?body ?s] =>
      pose proof (fold_each_keeps body l n0 s
                    (fun k f s' => scale_of_face_keeps oM _ _ k f s')) as K2;
      destruct (fold_each l n0 body s) as [n st' | e st']
  end; simpl in *.
  - eapply keeps_trans; [exact K1 |]. eapply keeps_trans; [exact K2 |].
    apply keeps_deselect.
  - eapply keeps_trans; eassumption.
Qed.

Lemma uv_copyable_of_nat (layer : list UV) (v k : nat) (uv : UV) :
  k < length layer -> uv_copyable layer 4 (mkLoop v (Z.of_nat k) uv).
Proof.
  intros Hk. unfold uv_copyable. simpl. rewrite Nat2Z.id.
  split; [lia |]. split; [exact Hk |].
  pose proof (Z.mod_pos_bound (Z.of_nat k) 4). lia.
Qed.

(** The polygons of the source mesh that fit, seen as faces of its BMesh. *)
Lemma good_faces_from_mesh (me : Mesh) (layer : list UV) (nmat : nat)
  (m : Vector -> Vector) :
  Forall (good_polygon layer nmat) (polygons me) ->
  Forall (good_face layer nmat) (bm_faces (bmesh_transform m (from_mesh me))).
Proof.
  intros H. simpl. apply Forall_fmap. eapply Forall_impl; [exact H |].
  intros p (H4 & Hl & Hm). unfold good_face. simpl. rewrite length_imap.
  split; [lia |]. split; [| exact Hm].
  rewrite Nat.min_r by lia.
  apply Forall_forall. intros l Hin.
  apply list_elem_of_lookup in Hin as [k Hk].
  rewrite list_lookup_imap in Hk.
  destruct (vertices p !! k) as [v |] eqn:Hv; simpl in Hk; [| discriminate].
  injection Hk as <-. apply uv_copyable_of_nat.
  apply lookup_lt_Some in Hv. lia.
Qed.

Lemma is_scale_of_deselect (oBM : BMesh) (oLoc : Vector) (n : nat) (face : BMFace)
  st (io im : nat) :
  is_scale_of oBM oLoc n face st io im ->
  is_scale_of oBM oLoc n face (select_all_DESELECT st) io im.
Proof.
  intros (sBM & b & sName & mName & Ho & Hm & Hv & Hp & Hfresh).
  exists sBM, false, sName, mName.
  split; [| split; [exact Hm | split; [exact Hv | split; [exact Hp |]]]].
  - simpl. rewrite list_lookup_fmap, Ho. reflexivity.
  - intros j o Hj Hoj. simpl in Hoj. rewrite list_lookup_fmap in Hoj.
    destruct (objects st !! j) as [o0 |] eqn:E0; simpl in Hoj; [| discriminate].
    injection Hoj as <-. simpl. exact (Hfresh j o0 Hj E0).
Qed.

(** The script returns when an object is active and the object named
    [originalObjectName] is a mesh object whose polygons fit; it then ends with one scale per polygon, in
    the order of the polygons, after the objects and meshes that were there. *)
Lemma shedScaleSkin_returns st (o : nat) (ob : Object) (oM : nat) (me : Mesh)
  (layer : list UV) :
  is_Some (active st) ->
  find_name originalObjectName (objects st) 0 = Some o ->
  objects st !! o = Some ob -> data ob = Some oM -> meshes st !! oM = Some me ->
  uv_layers_active me = Some layer ->
  Forall (good_polygon layer (length (materials st))) (polygons me) ->
  exists st',
    shedScaleSkin st = Return tt st'
    /\ length (objects st') = length (objects st) + length (polygons me)
    /\ length (meshes st') = length (meshes st) + length (polygons me)
    /\ forall k face,
         bm_faces (bmesh_transform (matrix_world ob) (from_mesh me)) !! k = Some face ->
         is_scale_of (bmesh_transform (matrix_world ob) (from_mesh me)) (location ob)
                     k face st' (length (objects st) + k) (length (meshes st) + k).
Proof.
  intros [a Ha] Hf Ho Hd Hme Hl Hgood.
  rewrite shedScaleSkin_eq. cbv zeta. rewrite Ha, Hf, Ho, Hd, Hme.
  set (oBM := bmesh_transform (matrix_world ob) (from_mesh me)).
  set (st1 := select_set o true (select_all_DESELECT st)).
  destruct (scales_fold oM oBM (location ob) me layer (bm_faces oBM) 0 st1)
    as (st' & E & _ & Hlo & Hlm & Hsc).
  { exact Hme. }
  { exact Hl. }
  { apply good_faces_from_mesh. exact Hgood. }
  assert (Hn : length (bm_faces oBM) = length (polygons me)).
  { unfold oBM. simpl. apply length_fmap. }
  assert (Ho1 : length (objects st1) = length (objects st)).
  { unfold st1. simpl. rewrite length_alter, length_fmap. reflexivity. }
  exists (select_all_DESELECT st'). rewrite E.
  split; [reflexivity |]. split; [| split].
  - simpl. rewrite length_fmap. lia.
  - simpl. change (meshes st1) with (meshes st) in Hlm. lia.
  - intros k face Hk. apply is_scale_of_deselect.
    specialize (Hsc k face Hk). rewrite Ho1 in Hsc. exact Hsc.
Qed.

End WholeScript.

(** ** The scales *)

Section Scales.
Local Open Scope R_scope.
Implicit Types (st : State).

(** Where the script leaves the object of a scale: at the centre of the
    prism, which is half a thickness out from the centre of the face, moved
    out by the displacement distance. *)
Lemma scale_object_location sName (im : nat) (sBM oBM : BMesh) (oLoc : Vector)
  (face : BMFace) (b : bool) :
  bm_verts sBM = bm_verts (prism oBM oLoc face) ->
  face_loops face <> [] ->
  let u := Vec.normalize (Vec.sub (face_centre oBM face) oLoc) in
  location (set_selected b (scale_object sName im sBM (push_direction oBM oLoc face)))
  = Vec.add (Vec.add (face_centre oBM face) (Vec.mul u (SCALE_THICKNESS / 2)))
            (Vec.mul u DISPLACEMENT_DISTANCE).
Proof.
  intros Hv Hne u. simpl. rewrite Hv, prism_verts, median_prism.
  - rewrite add_zero_l, apply3_identity, push_direction_eq. fold u.
    unfold face_centre. apply vec_eq; simpl; unfold SCALE_THICKNESS; field.
  - unfold face_verts. destruct (face_loops face); [contradiction | discriminate].
Qed.

Lemma ready_good st (o : nat) (ob : Object) (oM : nat) (me : Mesh) (layer : list UV) :
  ready st o ob oM me layer ->
  Forall (fun p => 4 <= length (vertices p))%nat (polygons me) ->
  Forall (good_polygon layer (length (materials st))) (polygons me).
Proof.
  intros (_ & _ & _ & _ & _ & _ & Hp) H4.
  rewrite Forall_forall in *. intros p Hin.
  destruct (Hp p Hin) as [Hl Hm]. specialize (H4 p Hin).
  repeat split; assumption.
Qed.

Lemma quads_four (me : Mesh) :
  Forall (fun p => length (vertices p) = 4%nat) (polygons me) ->
  Forall (fun p => 4 <= length (vertices p))%nat (polygons me).
Proof. intros H. eapply Forall_impl; [exact H |]. intros p ->. reflexivity. Qed.

(** The faces of the source BMesh are the polygons of the source mesh. *)
Lemma source_face (ob : Object) (me : Mesh) (k : nat) (face : BMFace) :
  bm_faces (source_bmesh ob me) !! k = Some face ->
  exists p, polygons me !! k = Some p
            /\ length (face_loops face) = length (vertices p)
            /\ face_material_index face = material_index p.
Proof.
  simpl. rewrite list_lookup_fmap.
  destruct (polygons me !! k) as [p |]; simpl; [| discriminate].
  intros [= <-]. exists p. simpl. rewrite length_imap. repeat split; reflexivity.
Qed.

Lemma source_face_of_polygon (ob : Object) (me : Mesh) (k : nat) (p : MeshPolygon) :
  polygons me !! k = Some p ->
  exists face, bm_faces (source_bmesh ob me) !! k = Some face.
Proof.
  intros Hp. simpl. rewrite list_lookup_fmap, Hp. eexists. reflexivity.
Qed.

End Scales.

Section ScaleClaims.
Implicit Types (st : State).

(** The script on a scene that is ready, for a mesh whose polygons have four
    corners or more. *)
Lemma ready_returns st (o : nat) (ob : Object) (oM : nat) (me : Mesh) (layer : list UV) :
  ready st o ob oM me layer ->
  Forall (fun p => 4 <= length (vertices p)) (polygons me) ->
  exists st',
    shedScaleSkin st = Return tt st'
    /\ length (objects st') = length (objects st) + length (polygons me)
    /\ length (meshes st') = length (meshes st) + length (polygons me)
    /\ keeps st st'
    /\ forall k face,
         bm_faces (source_bmesh ob me) !! k = Some face ->
         is_scale_of (source_bmesh ob me) (location ob) k face st'
                     (length (objects st) + k) (length (meshes st) + k).
Proof.
  intros Hr H4. pose proof (ready_good st o ob oM me layer Hr H4) as Hgood.
  destruct Hr as (Ha & Hf & Ho & Hd & Hme & Hl & _).
  destruct (shedScaleSkin_returns st o ob oM me layer Ha Hf Ho Hd Hme Hl Hgood)
    as (st' & E & Hlo & Hlm & Hsc).
  exists st'. split; [exact E |]. split; [exact Hlo |]. split; [exact Hlm |].
  split; [| exact Hsc].
  pose proof (shedScaleSkin_keeps st) as K. rewrite E in K. exact K.
Qed.

(** C1, as the code has it: on a scene that is ready (an object is active,
    the source object and its mesh exist, the mesh has a UV layer that covers
    its loops, the material indices of its faces are in the range of
    [bpy.data.materials]), and for a source mesh all of whose faces are
    quadrilaterals, the script returns; the scene then has one new object per
    face, the [k]-th of them made from the [k]-th face: its name begins with
    ["scaleCube"] and the number [k], it has a new mesh of its own, whose
    vertices are those of the prism over that face, taken from their mean,
    and whose only material slot holds the material index of that face. The
    objects that were there are unchanged up to their selection flag, and the
    source mesh is unchanged. *)
Theorem one_scale_per_quad st (o : nat) (ob : Object) (oM : nat) (me : Mesh)
  (layer : list UV) :
  ready st o ob oM me layer ->
  Forall (fun p => length (vertices p) = 4) (polygons me) ->
  exists st',
    shedScaleSkin st = Return tt st'
    /\ length (objects st') = length (objects st) + length (polygons me)
    /\ (forall k p, polygons me !! k = Some p ->
          exists sO sM face,
            objects st' !! (length (objects st) + k) = Some sO
            /\ String.prefix ("scale" ++ originalObjectName ++ str k) (name sO) = true
            /\ data sO = Some (length (meshes st) + k)
            /\ meshes st' !! (length (meshes st) + k) = Some sM
            /\ bm_faces (source_bmesh ob me) !! k = Some face
            /\ (let vs := bm_verts (prism (source_bmesh ob me) (location ob) face) in
                mesh_vertices sM = (fun v => Vec.sub v (median vs)) <$> vs)
            /\ mesh_materials sM = [Some (material_index p)])
    /\ (forall i o', objects st !! i = Some o' ->
          exists b, objects st' !! i = Some (set_selected b o'))
    /\ meshes st' !! oM = Some me.
Proof.
  intros Hr Hq.
  destruct (ready_returns st o ob oM me layer Hr (quads_four me Hq))
    as (st' & E & Hlo & _ & (Ko & Km & _) & Hsc).
  exists st'. split; [exact E |]. split; [exact Hlo |]. split; [| split].
  - intros k p Hp. destruct (source_face_of_polygon ob me k p Hp) as [face Hface].
    destruct (source_face ob me k face Hface) as (p' & Hp' & _ & Hmi).
    rewrite Hp in Hp'. injection Hp' as <-.
    destruct (Hsc k face Hface) as (sBM & b & sName & mName & Hso & Hsm & Hv & Hpre & _).
    eexists _, _, face. split; [exact Hso |]. split; [exact Hpre |].
    split; [reflexivity |]. split; [exact Hsm |]. split; [exact Hface |].
    split; [| simpl; rewrite Hmi; reflexivity].
    simpl. rewrite Hv. reflexivity.
  - exact Ko.
  - apply Km. destruct Hr as (_ & _ & _ & _ & Hme & _). exact Hme.
Qed.

Lemma ready_top_scene :
  ready top_scene 0 cube_object 0 (quad_mesh 1 (Some (uvs 4)) [Some 0]) (uvs 4).
Proof.
  split; [eexists; reflexivity |]. repeat split; try reflexivity.
  apply Forall_cons_2; [simpl; lia | apply Forall_nil_2].
Qed.

Lemma one_scale_per_quad_witness :
  exists st' sO,
    shedScaleSkin top_scene = Return tt st' /\ length (objects st') = 2
    /\ objects st' !! 1 = Some sO
    /\ String.prefix "scaleCube0" (name sO) = true.
Proof.
  destruct (one_scale_per_quad top_scene 0 cube_object 0
              (quad_mesh 1 (Some (uvs 4)) [Some 0]) (uvs 4))
    as (st' & E & Hl & Hk & _).
  - exact ready_top_scene.
  - apply Forall_cons_2; [reflexivity | apply Forall_nil_2].
  - destruct (Hk 0 (mkPolygon [0; 1; 2; 3] 0 0) eq_refl)
      as (sO & sM & face & Hso & Hpre & _).
    exists st', sO. split; [exact E |]. split; [exact Hl |].
    split; [exact Hso | exact Hpre].
Defined.

(** C1 fails as stated: that all faces are quadrilaterals is not enough. On
    the quad of a mesh without UV layer, whose object is the active one,
    line 63 raises [AttributeError] for the first face, and the script ends
    with no new object. *)
Lemma quad_without_uv_layer_gives_no_scale :
  ~ (forall st (o : nat) (ob : Object) (oM : nat) (me : Mesh),
       is_Some (active st) ->
       find_name originalObjectName (objects st) 0 = Some o ->
       objects st !! o = Some ob -> data ob = Some oM -> meshes st !! oM = Some me ->
       Forall (fun p => length (vertices p) = 4) (polygons me) ->
       length (objects (final (shedScaleSkin st)))
       = length (objects st) + length (polygons me)).
Proof.
  intros H.
  specialize (H no_uv_scene 0 cube_object 0 (quad_mesh 1 None [Some 0])
                (ex_intro _ 0 eq_refl) eq_refl eq_refl eq_refl eq_refl).
  assert (Hq : Forall (fun p => length (vertices p) = 4)
                      (polygons (quad_mesh 1 None [Some 0]))).
  { apply Forall_cons_2; [reflexivity | apply Forall_nil_2]. }
  specialize (H Hq).
  assert (E : shedScaleSkin no_uv_scene
              = Raise AttributeError
                  (select_set 0 true (select_all_DESELECT no_uv_scene))).
  { rewrite shedScaleSkin_eq. cbv zeta.
    change (active no_uv_scene) with (Some 0). cbv iota beta.
    change (find_name originalObjectName (objects no_uv_scene) 0) with (Some 0).
    cbv iota beta.
    change (objects no_uv_scene !! 0) with (Some cube_object). cbv iota beta.
    change (data cube_object) with (Some 0). cbv iota beta.
    change (meshes no_uv_scene !! 0) with (Some (quad_mesh 1 None [Some 0])).
    cbv iota beta.
    simpl fold_each. unfold bind at 1. rewrite scale_of_face_eq, scale_bmesh_eq.
    reflexivity. }
  rewrite E in H. simpl in H. discriminate.
Qed.

(** The material of a scale is the one at the position of the face's material
    index in [bpy.data.materials], line 85. *)
Lemma scale_material st (o : nat) (ob : Object) (oM : nat) (me : Mesh) (layer : list UV)
  (k : nat) (p : MeshPolygon) :
  ready st o ob oM me layer ->
  Forall (fun p => 4 <= length (vertices p)) (polygons me) ->
  polygons me !! k = Some p ->
  exists st' sM,
    shedScaleSkin st = Return tt st'
    /\ meshes st' !! (length (meshes st) + k) = Some sM
    /\ mesh_materials sM = [Some (material_index p)].
Proof.
  intros Hr H4 Hp.
  destruct (ready_returns st o ob oM me layer Hr H4) as (st' & E & _ & _ & _ & Hsc).
  destruct (source_face_of_polygon ob me k p Hp) as [face Hface].
  destruct (source_face ob me k face Hface) as (p' & Hp' & _ & Hmi).
  rewrite Hp in Hp'. injection Hp' as <-.
  destruct (Hsc k face Hface) as (sBM & b & sName & mName & _ & Hm & _).
  exists st'. eexists. split; [exact E |]. split; [exact Hm |].
  simpl. rewrite Hmi. reflexivity.
Qed.

Lemma ready_two_material_scene :
  ready two_material_scene 0 cube_object 0 (quad_mesh 1 (Some (uvs 4)) [Some 1]) (uvs 4).
Proof.
  split; [eexists; reflexivity |]. repeat split; try reflexivity.
  apply Forall_cons_2; [| apply Forall_nil_2]. simpl. lia.
Qed.

(** C3 at the failing input. The file has the materials ["A"] and ["B"], at
    positions 0 and 1; the only slot of the source mesh holds ["B"], so the
    face, with material index 0, has material ["B"]. The scale gets the
    material at position 0 of [bpy.data.materials], which is ["A"]. *)
Theorem scale_gets_material_of_the_file :
  exists st' sM,
    shedScaleSkin two_material_scene = Return tt st'
    /\ meshes st' !! 1 = Some sM
    /\ mesh_materials sM = [Some 0]
    /\ material_slots two_material_scene 0 !! 0 = Some (Some 1)
    /\ materials two_material_scene !! 0 = Some "A"%string
    /\ materials two_material_scene !! 1 = Some "B"%string.
Proof.
  destruct (scale_material two_material_scene 0 cube_object 0
              (quad_mesh 1 (Some (uvs 4)) [Some 1]) (uvs 4) 0
              (mkPolygon [0; 1; 2; 3] 0 0) ready_two_material_scene)
    as (st' & sM & E & Hm & Hmat).
  - apply Forall_cons_2; [simpl; lia | apply Forall_nil_2].
  - reflexivity.
  - exists st', sM. repeat split; try reflexivity; assumption.
Qed.

Lemma ready_pentagon_scene :
  ready pentagon_scene 0 cube_object 0 pentagon_mesh (uvs 5).
Proof.
  split; [eexists; reflexivity |]. repeat split; try reflexivity.
  apply Forall_cons_2; [| apply Forall_nil_2]. simpl. lia.
Qed.

(** C7 at the failing input: the script processes a pentagon without raising
    and makes a scale of it. *)
Theorem pentagon_is_processed :
  exists st', shedScaleSkin pentagon_scene = Return tt st'
              /\ length (objects st') = 2.
Proof.
  destruct (ready_returns pentagon_scene 0 cube_object 0 pentagon_mesh (uvs 5)
              ready_pentagon_scene) as (st' & E & Hl & _).
  - apply Forall_cons_2; [simpl; lia | apply Forall_nil_2].
  - exists st'. split; [exact E | exact Hl].
Qed.

End ScaleClaims.

Section Displacement.
Local Open Scope R_scope.
Implicit Types (st : State).

(** the centre of the only face of a quad mesh of the example scenes *)
Lemma quad_centre (h : R) (layer : option (list UV)) (slots : list (option nat))
  (face : BMFace) :
  bm_faces (source_bmesh cube_object (quad_mesh h layer slots)) !! 0%nat = Some face ->
  face_centre (source_bmesh cube_object (quad_mesh h layer slots)) face = Vec.mk 0 0 h.
Proof.
  intros [= <-]. unfold face_centre, median, co. simpl.
  apply vec_eq; simpl; unfold Vec.dot; simpl; field.
Qed.

Lemma ready_plane_scene :
  ready plane_scene 0 cube_object 0 (quad_mesh 0 (Some (uvs 4)) [Some 0%nat]) (uvs 4).
Proof.
  split; [eexists; reflexivity |]. repeat split; try reflexivity.
  apply Forall_cons_2; [| apply Forall_nil_2]. simpl. lia.
Qed.

(** C4 at the failing input: a plane, that is a quad whose centre is the
    origin of its object, which is the active object. The vector from the
    origin to the centre of the face is zero and stays zero when it is
    normalized (line 56), so line 82 moves the scale by the zero vector: the
    script returns, and the scale of the face ends where the origin of the
    source object is, not displaced from it. *)
Theorem plane_scale_stays :
  exists st' sO,
    shedScaleSkin plane_scene = Return tt st'
    /\ objects st' !! 1%nat = Some sO
    /\ push_direction (source_bmesh cube_object (quad_mesh 0 (Some (uvs 4)) [Some 0%nat]))
         (location cube_object) quad_face = Vec.zero
    /\ location sO = location cube_object.
Proof.
  destruct (ready_returns plane_scene 0 cube_object 0
              (quad_mesh 0 (Some (uvs 4)) [Some 0%nat]) (uvs 4) ready_plane_scene)
    as (st' & E & _ & _ & _ & Hsc).
  { apply Forall_cons_2; [simpl; lia | apply Forall_nil_2]. }
  destruct (Hsc 0%nat quad_face eq_refl) as (sBM & b & sName & mName & Hso & _ & Hv & _).
  assert (Hu : Vec.normalize
                 (Vec.sub (face_centre (source_bmesh cube_object
                                          (quad_mesh 0 (Some (uvs 4)) [Some 0%nat]))
                                       quad_face)
                          (location cube_object)) = Vec.zero).
  { rewrite (quad_centre 0 (Some (uvs 4)) [Some 0%nat] quad_face eq_refl).
    change (location cube_object) with Vec.zero.
    replace (Vec.sub (Vec.mk 0 0 0) Vec.zero) with Vec.zero by (apply vec_eq; simpl; ring).
    apply normalize_zero. }
  exists st'. eexists. split; [exact E |]. split; [exact Hso |].
  split; [rewrite push_direction_eq; exact Hu |].
  rewrite (scale_object_location _ _ sBM _ _ _ b Hv) by discriminate.
  cbv zeta. rewrite Hu.
  rewrite (quad_centre 0 (Some (uvs 4)) [Some 0%nat] quad_face eq_refl).
  change (location cube_object) with Vec.zero.
  apply vec_eq; simpl; ring.
Qed.

End Displacement.

(** ** Leftover selections *)

Section Leftover.
Implicit Types (st : State).

Lemma unmatched_after_select nameRoot st (a : option nat) (i : nat) (o : Object) :
  objects st !! i = Some o -> String.prefix nameRoot (name o) = false ->
  objects (select nameRoot (set_active a (select_all_DESELECT st))) !! i
  = Some (set_selected false o).
Proof.
  intros Ho Hp. rewrite select_spec. simpl.
  rewrite !list_lookup_fmap, Ho. simpl. unfold select_object. simpl.
  rewrite Hp. reflexivity.
Qed.

Lemma copy_rigidbody_settings_unmatched nameRoot template st (i : nat) (o : Object) :
  objects st !! i = Some o -> String.prefix nameRoot (name o) = false ->
  objects (final (copy_rigidbody_settings nameRoot template st)) !! i
  = Some (set_selected false o).
Proof.
  intros Ho Hp.
  unfold copy_rigidbody_settings, objects_getitem, rigidbody_object_settings_copy.
  unfold bind, exec, gets. simpl.
  destruct (find_name template (set_selected false <$> objects st) 0) as [t |]; simpl.
  2: { rewrite list_lookup_fmap, Ho. reflexivity. }
  pose proof (unmatched_after_select nameRoot st (Some t) i o Ho Hp) as Hu.
  set (st2 := select nameRoot (set_active (Some t) (select_all_DESELECT st))) in *.
  assert (Ha : active st2 = Some t).
  { unfold st2. rewrite select_spec. reflexivity. }
  rewrite Ha. simpl.
  destruct (objects st2 !! t) as [ot |]; simpl; [| exact Hu].
  destruct (rigid_body ot) as [rb |]; simpl; [| exact Hu].
  rewrite list_lookup_fmap, Hu. reflexivity.
Qed.

(** C8, as the code has it: each of these operations clears the selection
    before it selects the objects it is to act on, so an object whose name
    does not begin with the prefix is not acted on, whether it was selected
    before the call or not: it is left as it was, deselected. The scale
    generator leaves every object that was in the scene as it was, its
    selection flag apart. No operation puts the earlier selection back. *)
Theorem leftover_selection_is_not_acted_on (nameRoot template : string)
  (vector target : Vector) (value : R) (startFrame endFrame step : Z)
  st (i : nat) (o : Object) :
  objects st !! i = Some o ->
  String.prefix nameRoot (name o) = false ->
  objects (move nameRoot vector st) !! i = Some (set_selected false o)
  /\ objects (move_towards nameRoot target value st) !! i = Some (set_selected false o)
  /\ objects (final (bake_rigidbody nameRoot startFrame endFrame step st)) !! i
     = Some (set_selected false o)
  /\ objects (final (copy_rigidbody_settings nameRoot template st)) !! i
     = Some (set_selected false o)
  /\ exists b, objects (final (shedScaleSkin st)) !! i = Some (set_selected b o).
Proof.
  intros Ho Hp. repeat split.
  - rewrite move_spec. simpl. rewrite list_lookup_fmap, Ho. simpl.
    unfold act_object. rewrite Hp. reflexivity.
  - rewrite move_towards_spec. simpl. rewrite list_lookup_fmap, Ho. simpl.
    unfold move_towards_object. rewrite Hp. reflexivity.
  - rewrite bake_rigidbody_spec. destruct (active_rigid_body st); simpl.
    + rewrite list_lookup_fmap, Ho. simpl. unfold act_object. rewrite Hp. reflexivity.
    + rewrite select_spec. simpl. rewrite !list_lookup_fmap, Ho. simpl.
      unfold select_object. simpl. rewrite Hp. reflexivity.
  - apply copy_rigidbody_settings_unmatched; assumption.
  - destruct (shedScaleSkin_keeps st) as (Ko & _). apply Ko. exact Ho.
Qed.

Lemma leftover_selection_is_not_acted_on_witness :
  objects (move "A" (Vec.mk 1 0 0) (lone_selected "B")) !! 0
  = Some (mkObject "B" false Vec.zero Vec.identity3 None None 0 None).
Proof.
  apply (leftover_selection_is_not_acted_on "A" "B" (Vec.mk 1 0 0) Vec.zero 1%R 1 250 1
           (lone_selected "B") 0
           (mkObject "B" true Vec.zero Vec.identity3 None None 0 None)).
  - reflexivity.
  - reflexivity.
Defined.

(** C8 fails as stated: the selection is cleared and not put back. The object
    ["B"], selected before [move "A" v], is not selected after it. *)
Lemma selection_is_not_restored :
  ~ (forall (nameRoot : string) (vector : Vector) st (i : nat) (o o' : Object),
       objects st !! i = Some o ->
       objects (move nameRoot vector st) !! i = Some o' ->
       selected o' = selected o).
Proof.
  intros H.
  specialize (H "A"%string Vec.zero (lone_selected "B") 0
                (mkObject "B" true Vec.zero Vec.identity3 None None 0 None)
                (mkObject "B" false Vec.zero Vec.identity3 None None 0 None)
                eq_refl).
  rewrite move_spec in H. specialize (H eq_refl). discriminate.
Qed.

End Leftover.

Section Triangles.

Lemma fold_each_cons {A B} (body : A -> B -> M A) (b : B) (l : list B) (a : A)
  (st : State) :
  fold_each (b :: l) a body st
  = match body a b st with
    | Return a' st' => fold_each l a' body st'
    | Raise e st' => Raise e st'
    end.
Proof. reflexivity. Qed.

(** A triangle is processed without an exception when the indices of its
    loops are 0, 1, 2 modulo 4, and raises [IndexError] at line 65 when one
    of them is 3 modulo 4: of the two triangles of [triangles_mesh] the first
    becomes a scale, the second raises. *)
Lemma second_triangle_raises :
  exists st', shedScaleSkin triangles_scene = Raise IndexError st'
              /\ length (objects st') = 2.
Proof.
  rewrite shedScaleSkin_eq. cbv zeta.
  change (find_name originalObjectName (objects triangles_scene) 0) with (Some 0).
  cbv iota beta.
  change (objects triangles_scene !! 0) with (Some cube_object). cbv iota beta.
  change (data cube_object) with (Some 0). cbv iota beta.
  change (meshes triangles_scene !! 0) with (Some triangles_mesh). cbv iota beta.
  set (oBM := bmesh_transform (matrix_world cube_object) (from_mesh triangles_mesh)).
  set (st1 := select_set 0 true (select_all_DESELECT triangles_scene)).
  change (bm_faces oBM)
    with [mkFace [mkLoop 0 0 uv_zero; mkLoop 1 1 uv_zero; mkLoop 2 2 uv_zero] 0;
          mkFace [mkLoop 0 3 uv_zero; mkLoop 2 4 uv_zero; mkLoop 3 5 uv_zero] 0].
  rewrite fold_each_cons.
  destruct (scale_of_face_returns 0 oBM (location cube_object) 0
              (mkFace [mkLoop 0 0 uv_zero; mkLoop 1 1 uv_zero; mkLoop 2 2 uv_zero] 0)
              st1 triangles_mesh (uvs 6)) as (sBM & E & _).
  { reflexivity. }
  { reflexivity. }
  { simpl. lia. }
  { repeat apply Forall_cons_2; try apply Forall_nil_2;
      unfold uv_copyable, uvs; repeat split; first [cbn; lia | vm_compute; lia]. }
  { simpl. lia. }
  rewrite E, fold_each_cons, scale_of_face_eq, scale_bmesh_eq.
  eexists. split; [reflexivity |].
  simpl. reflexivity.
Qed.

End Triangles.

(** * Further properties of crowdControl.py *)

Section Prefixes.
Implicit Types (st : State).

Lemma prefix_trans (p q s : string) :
  String.prefix p q = true -> String.prefix q s = true -> String.prefix p s = true.
Proof.
  revert q s. induction p as [| a p IH]; intros q s Hpq Hqs; [apply prefix_empty |].
  destruct q as [| b q]; [discriminate |].
  destruct s as [| c s]; [discriminate |].
  simpl in *.
  destruct (Ascii.ascii_dec a b) as [-> | _]; [| discriminate].
  destruct (Ascii.ascii_dec b c) as [-> | _]; [| discriminate].
  eapply IH; eassumption.
Qed.

Lemma prefix_refl (s : string) : String.prefix s s = true.
Proof.
  induction s as [| a s IH]; [reflexivity |]. simpl.
  destruct (Ascii.ascii_dec a a) as [_ | Hn]; [exact IH | contradiction].
Qed.

(** X1. [_getObjList] returns the positions of the objects whose names begin
    with [nameRoot], each once, and of no other object; an object whose name
    is [nameRoot] itself is among them. *)
Theorem getObjList_finds_exactly (nameRoot : string) st :
  NoDup (_getObjList nameRoot st)
  /\ (forall i, i ∈ _getObjList nameRoot st <->
                exists o, objects st !! i = Some o
                          /\ String.prefix nameRoot (name o) = true)
  /\ (forall i o, objects st !! i = Some o -> name o = nameRoot ->
                  i ∈ _getObjList nameRoot st).
Proof.
  split; [apply NoDup_getObjList |]. split; [apply elem_of_getObjList |].
  intros i o Ho Hn. apply elem_of_getObjList. exists o. split; [exact Ho |].
  rewrite Hn. apply prefix_refl.
Qed.

(** X2. A longer prefix finds fewer objects: when [p] is a prefix of [q], every
    object found with [q] is found with [p]. *)
Theorem getObjList_longer_prefix (p q : string) st :
  String.prefix p q = true ->
  _getObjList q st ⊆ _getObjList p st.
Proof.
  intros Hpq i Hi. apply elem_of_getObjList in Hi as (o & Ho & Hq).
  apply elem_of_getObjList. exists o. split; [exact Ho |].
  eapply prefix_trans; eassumption.
Qed.

Lemma getObjList_longer_prefix_witness :
  _getObjList "scaleA" crowd_scene ⊆ _getObjList "scale" crowd_scene.
Proof. apply getObjList_longer_prefix. reflexivity. Defined.

Lemma set_objects_set_objects (os os' : list Object) st :
  set_objects os (set_objects os' st) = set_objects os st.
Proof. reflexivity. Qed.

(** X3. How [select] and [deselect] compose: each is idempotent, the later of the
    two with the same prefix wins, and selections with two prefixes can be
    made in either order. *)
Theorem select_deselect_compose (p q : string) st :
  select p (select p st) = select p st
  /\ deselect p (deselect p st) = deselect p st
  /\ deselect p (select p st) = deselect p st
  /\ select p (deselect p st) = select p st
  /\ select p (select q st) = select q (select p st).
Proof.
  rewrite !select_spec, !deselect_spec. simpl.
  rewrite !set_objects_set_objects, <- !list_fmap_compose.
  repeat split; f_equal; apply list_fmap_ext; intros _ o _;
    unfold select_object; simpl;
    destruct (String.prefix p (name o)) eqn:Hp; simpl; rewrite ?Hp;
    try reflexivity;
    destruct (String.prefix q (name o)) eqn:Hq; simpl; rewrite ?Hp, ?Hq; reflexivity.
Qed.

(** X4. The selection after each procedure: [select] adds the objects found to
    the selection and [deselect] takes them out; after [move] the objects
    found are selected and no other object is; after [move_towards] no object
    is selected. *)
Theorem selection_after (nameRoot : string) (vector target : Vector) (value : R) st :
  selected <$> objects (select nameRoot st)
  = (fun o => String.prefix nameRoot (name o) || selected o) <$> objects st
  /\ selected <$> objects (deselect nameRoot st)
     = (fun o => negb (String.prefix nameRoot (name o)) && selected o) <$> objects st
  /\ selected <$> objects (move nameRoot vector st)
     = (fun o => String.prefix nameRoot (name o)) <$> objects st
  /\ selected <$> objects (move_towards nameRoot target value st)
     = (fun _ => false) <$> objects st.
Proof.
  rewrite select_spec, deselect_spec, move_spec, move_towards_spec.
  simpl. rewrite <- !list_fmap_compose.
  repeat split; apply list_fmap_ext; intros _ o _; simpl;
    unfold select_object, act_object, move_towards_object;
    destruct (String.prefix nameRoot (name o)); simpl; reflexivity.
Qed.

End Prefixes.

Section MoreMoves.
Local Open Scope R_scope.
Implicit Types (st : State).

Lemma set_location_same (o : Object) (v : Vector) :
  v = location o -> set_location v o = o.
Proof. intros ->. destruct o; reflexivity. Qed.

Lemma translate_zero (o : Object) (v : Vector) :
  Vec.x v = 0 -> Vec.y v = 0 -> Vec.z v = 0 -> translate_object v o = o.
Proof.
  intros Hx Hy Hz. unfold translate_object. apply set_location_same.
  apply vec_eq; simpl; lra.
Qed.

(** X6. [move_towards] by 0 units moves nothing: it only clears the selection. *)
Theorem move_towards_zero (nameRoot : string) (target : Vector) st :
  move_towards nameRoot target 0 st = select_all_DESELECT st.
Proof.
  rewrite move_towards_spec. unfold select_all_DESELECT. f_equal.
  apply list_fmap_ext. intros _ o _. unfold move_towards_object, towards_object.
  destruct (String.prefix nameRoot (name o)); [| reflexivity].
  rewrite translate_zero; [reflexivity | | |]; simpl; ring.
Qed.

(** X7. An object that is at the target stays there, whatever the value: the
    vector to the target is zero and [normalize] leaves it zero. *)
Theorem move_towards_at_target (nameRoot : string) (target : Vector) (value : R)
  st (i : nat) (o : Object) :
  objects st !! i = Some o -> location o = target ->
  objects (move_towards nameRoot target value st) !! i = Some (set_selected false o).
Proof.
  intros Ho Hloc. rewrite move_towards_spec. simpl. rewrite list_lookup_fmap, Ho. simpl.
  unfold move_towards_object, towards_object.
  destruct (String.prefix nameRoot (name o)); [| reflexivity].
  rewrite Hloc.
  replace (Vec.sub target target) with Vec.zero by (apply vec_eq; simpl; ring).
  rewrite normalize_zero.
  rewrite translate_zero; [reflexivity | | |]; simpl; ring.
Qed.

Lemma move_towards_at_target_witness :
  objects (move_towards "scale" (Vec.mk 1 0 0) 5 crowd_scene) !! 0%nat
  = Some (mkObject "scaleA" false (Vec.mk 1 0 0) Vec.identity3 None None 0 None).
Proof.
  apply (move_towards_at_target "scale" (Vec.mk 1 0 0) 5 crowd_scene 0
           (mkObject "scaleA" true (Vec.mk 1 0 0) Vec.identity3 None None 0 None)).
  - reflexivity.
  - reflexivity.
Defined.

End MoreMoves.

(** ** Loops over the objects found that make each object active *)

Section ActiveLoops.
Implicit Types (st : State).

Lemma then_exec {A} (c : M A) (f : State -> State) st (a : A) (st1 : State) :
  c st = Return a st1 -> (c ;; exec f) st = Return tt (f st1).
Proof. intros E. unfold bind, exec. rewrite E. reflexivity. Qed.

Lemma then_raise {A B} (c : M A) (k : A -> M B) st (e : Exn) (st1 : State) :
  c st = Raise e st1 -> bind c k st = Raise e st1.
Proof. intros E. unfold bind. rewrite E. reflexivity. Qed.

(** a loop over [l] whose body makes the object active and runs [op], when
    [op] changes the active object by [f], may create the rigid body world
    ([wb]) and raises nothing *)
Lemma active_loop_returns (good : Object -> Prop) (f : Object -> Object) (wb : bool)
  (op : M unit) :
  (forall st i o, active st = Some i -> objects st !! i = Some o -> good o ->
     exists st1, op st = Return tt st1
       /\ objects st1 = alter f i (objects st)
       /\ meshes st1 = meshes st /\ materials st1 = materials st
       /\ rigidbody_world st1 = wb || rigidbody_world st) ->
  forall (l : list nat) st,
    NoDup l ->
    (forall i, i ∈ l -> exists o, objects st !! i = Some o /\ good o) ->
    exists st',
      for_each l (fun o => exec (set_active (Some o)) ;; op) st = Return tt st'
      /\ objects st' = foldl (fun acc i => alter f i acc) (objects st) l
      /\ meshes st' = meshes st /\ materials st' = materials st
      /\ rigidbody_world st'
         = match l with [] => rigidbody_world st | _ => wb || rigidbody_world st end.
Proof.
  intros Hop l. induction l as [| i l IH]; intros st Hnd Hl.
  - exists st. repeat split; reflexivity.
  - apply NoDup_cons in Hnd as [Hi Hnd].
    destruct (Hl i (list_elem_of_here _ _)) as (o & Ho & Hg).
    destruct (Hop (set_active (Some i) st) i o eq_refl Ho Hg)
      as (st1 & E1 & Ho1 & Hm1 & Hmat1 & Hw1).
    simpl in Ho1, Hm1, Hmat1, Hw1.
    destruct (IH st1 Hnd) as (st' & E & Hobj & Hme & Hmat & Hw).
    { intros j Hj. destruct (Hl j (list_elem_of_further _ _ _ Hj)) as (oj & Hoj & Hgj).
      exists oj. split; [| exact Hgj]. rewrite Ho1.
      rewrite list_lookup_alter_ne; [exact Hoj |].
      intros ->. exact (Hi Hj). }
    exists st'. split.
    { simpl. unfold bind at 1. unfold bind at 1. unfold exec at 1.
      rewrite E1. exact E. }
    split; [rewrite Hobj, Ho1; reflexivity |].
    split; [congruence |]. split; [congruence |].
    rewrite Hw, Hw1. destruct l, wb; reflexivity.
Qed.

(** the same loop when [op] raises [RuntimeError] on an object that is not
    good: the loop stops at the first such object and leaves it active *)
Lemma active_loop_raises (good : Object -> Prop) `{!forall o, Decision (good o)}
  (f : Object -> Object) (op : M unit) :
  (forall st i o, active st = Some i -> objects st !! i = Some o -> good o ->
     exists st1, op st = Return tt st1 /\ objects st1 = alter f i (objects st)) ->
  (forall st i o, active st = Some i -> objects st !! i = Some o -> ~ good o ->
                  op st = Raise RuntimeError st) ->
  forall (l : list nat) st,
    NoDup l ->
    (forall i, i ∈ l -> is_Some (objects st !! i)) ->
    (exists i o, i ∈ l /\ objects st !! i = Some o /\ ~ good o) ->
    exists j oj st',
      for_each l (fun o => exec (set_active (Some o)) ;; op) st = Raise RuntimeError st'
      /\ active st' = Some j /\ j ∈ l /\ objects st !! j = Some oj /\ ~ good oj
      /\ objects st' !! j = Some oj.
Proof.
  intros Hop Hbad l. induction l as [| i l IH]; intros st Hnd Hl (k & ok & Hk & Hok & Hng).
  - exfalso. exact (not_elem_of_nil _ Hk).
  - apply NoDup_cons in Hnd as [Hi Hnd].
    destruct (Hl i (list_elem_of_here _ _)) as (o & Ho).
    destruct (decide (good o)) as [Hg | Hg].
    + destruct (Hop (set_active (Some i) st) i o eq_refl Ho Hg) as (st1 & E1 & Ho1).
      simpl in Ho1.
      assert (Hother : forall j, j ∈ l -> objects st1 !! j = objects st !! j).
      { intros j Hj. rewrite Ho1. apply list_lookup_alter_ne.
        intros ->. exact (Hi Hj). }
      destruct (IH st1 Hnd) as (j & oj & st' & E & Ha & Hj & Hoj & Hngj & Hoj').
      { intros j Hj. rewrite (Hother j Hj). apply Hl, list_elem_of_further, Hj. }
      { apply elem_of_cons in Hk as [-> | Hk].
        - rewrite Ho in Hok. injection Hok as <-. contradiction.
        - exists k, ok. rewrite (Hother k Hk). repeat split; assumption. }
      exists j, oj, st'. split; [| split; [exact Ha |]].
      * simpl. unfold bind at 1. unfold bind at 1. unfold exec at 1.
        rewrite E1. exact E.
      * split; [apply list_elem_of_further, Hj |].
        rewrite <- (Hother j Hj). repeat split; assumption.
    + exists i, o, (set_active (Some i) st). split; [| split; [reflexivity |]].
      * simpl. unfold bind at 1. unfold bind at 1. unfold exec at 1.
        rewrite (Hbad (set_active (Some i) st) i o eq_refl Ho Hg). reflexivity.
      * split; [apply list_elem_of_here |]. repeat split; assumption.
Qed.

Lemma foldl_alter_found (f : Object -> Object) (nameRoot : string) st :
  foldl (fun acc i => alter f i acc) (objects st) (_getObjList nameRoot st)
  = on_found nameRoot f <$> objects st.
Proof.
  apply list_eq. intros j.
  rewrite lookup_foldl_alter by apply NoDup_getObjList.
  rewrite list_lookup_fmap. unfold on_found.
  destruct (decide (j ∈ _getObjList nameRoot st)) as [Hj | Hj].
  - apply elem_of_getObjList in Hj as (o & E & Hp). rewrite E. simpl.
    rewrite Hp. reflexivity.
  - destruct (objects st !! j) as [o |] eqn:E; [| reflexivity]. simpl.
    destruct (String.prefix nameRoot (name o)) eqn:Hp; [| reflexivity].
    exfalso. apply Hj. apply elem_of_getObjList. exists o. split; assumption.
Qed.

Lemma rigid_body_type_ok (type : string) :
  type = "ACTIVE"%string \/ type = "PASSIVE"%string -> is_rigid_body_type type = true.
Proof. intros [-> | ->]; reflexivity. Qed.

Lemma object_add_good (type : string) st (i : nat) (o : Object) :
  is_rigid_body_type type = true ->
  active st = Some i -> objects st !! i = Some o -> is_Some (data o) ->
  rigidbody_object_add type st
  = Return tt (set_rigidbody_world true
                 (set_objects (alter (add_rigid_body type) i (objects st)) st)).
Proof.
  intros Hty Ha Ho [d Hd]. unfold rigidbody_object_add, bind, gets, exec. simpl.
  rewrite Ha. simpl. rewrite Ho. simpl. rewrite Hd. simpl. rewrite Hty. simpl.
  do 3 f_equal. apply list_alter_ext; [| reflexivity].
  intros o' Ho'. rewrite Ho in Ho'. injection Ho' as <-.
  unfold add_rigid_body. destruct (rigid_body o); reflexivity.
Qed.

Lemma object_add_bad (type : string) st (i : nat) (o : Object) :
  active st = Some i -> objects st !! i = Some o -> ~ is_Some (data o) ->
  rigidbody_object_add type st = Raise RuntimeError st.
Proof.
  intros Ha Ho Hd. unfold rigidbody_object_add, bind, gets, exec. simpl.
  rewrite Ha. simpl. rewrite Ho. simpl.
  destruct (data o); [exfalso; apply Hd; eexists; reflexivity | reflexivity].
Qed.

(** a type that the operator does not know is refused for a mesh object *)
Lemma object_add_type_error (type : string) st (i : nat) (o : Object) :
  is_rigid_body_type type = false ->
  active st = Some i -> objects st !! i = Some o -> is_Some (data o) ->
  rigidbody_object_add type st = Raise TypeError st.
Proof.
  intros Hty Ha Ho [d Hd]. unfold rigidbody_object_add, bind, gets, exec. simpl.
  rewrite Ha. simpl. rewrite Ho. simpl. rewrite Hd. simpl. rewrite Hty. reflexivity.
Qed.

Lemma object_remove_good st (i : nat) (o : Object) :
  active st = Some i -> objects st !! i = Some o -> is_Some (rigid_body o) ->
  rigidbody_object_remove st
  = Return tt (set_objects (alter (set_rigid_body None) i (objects st)) st).
Proof.
  intros Ha Ho [r Hr]. unfold rigidbody_object_remove, bind, gets, exec. simpl.
  rewrite Ha. simpl. rewrite Ho. simpl. rewrite Hr. reflexivity.
Qed.

Lemma object_remove_bad st (i : nat) (o : Object) :
  active st = Some i -> objects st !! i = Some o -> ~ is_Some (rigid_body o) ->
  rigidbody_object_remove st = Raise RuntimeError st.
Proof.
  intros Ha Ho Hr. unfold rigidbody_object_remove, bind, gets, exec. simpl.
  rewrite Ha. simpl. rewrite Ho. simpl.
  destruct (rigid_body o); [exfalso; apply Hr; eexists; reflexivity | reflexivity].
Qed.

Lemma enable_rigidbody_eq (nameRoot type : string) st :
  is_rigid_body_type type = true ->
  (forall i o, objects st !! i = Some o -> String.prefix nameRoot (name o) = true ->
               is_Some (data o)) ->
  enable_rigidbody nameRoot type st
  = Return tt
      (set_active None
         (set_rigidbody_world (found_any nameRoot st || rigidbody_world st)
            (set_objects (on_found nameRoot (add_rigid_body type) <$> objects st) st))).
Proof.
  intros Hty Hall. unfold enable_rigidbody. rewrite gets_then.
  destruct (active_loop_returns (fun o => is_Some (data o)) (add_rigid_body type) true
              (rigidbody_object_add type))
    with (l := _getObjList nameRoot st) (st := st)
    as (st' & E & Hobj & Hme & Hmat & Hw).
  { intros s i o Ha Ho Hg. eexists. split; [apply (object_add_good type s i o Hty Ha Ho Hg) |].
    repeat split; reflexivity. }
  { apply NoDup_getObjList. }
  { intros i Hi. apply elem_of_getObjList in Hi as (o & Ho & Hp).
    exists o. split; [exact Ho | eapply Hall; eassumption]. }
  rewrite (then_exec _ _ _ _ _ E). f_equal.
  rewrite foldl_alter_found in Hobj.
  apply state_eq; simpl; try assumption; try reflexivity.
  rewrite Hw. unfold found_any. destruct (_getObjList nameRoot st); reflexivity.
Qed.

Lemma disable_rigidbody_eq (nameRoot : string) st :
  (forall i o, objects st !! i = Some o -> String.prefix nameRoot (name o) = true ->
               is_Some (rigid_body o)) ->
  disable_rigidbody nameRoot st
  = Return tt (set_active None
                 (set_objects (on_found nameRoot (set_rigid_body None) <$> objects st) st)).
Proof.
  intros Hall. unfold disable_rigidbody. rewrite gets_then.
  destruct (active_loop_returns (fun o => is_Some (rigid_body o)) (set_rigid_body None)
              false rigidbody_object_remove)
    with (l := _getObjList nameRoot st) (st := st)
    as (st' & E & Hobj & Hme & Hmat & Hw).
  { intros s i o Ha Ho Hg. eexists. split; [apply (object_remove_good s i o Ha Ho Hg) |].
    repeat split; reflexivity. }
  { apply NoDup_getObjList. }
  { intros i Hi. apply elem_of_getObjList in Hi as (o & Ho & Hp).
    exists o. split; [exact Ho | eapply Hall; eassumption]. }
  rewrite (then_exec _ _ _ _ _ E). f_equal.
  rewrite foldl_alter_found in Hobj.
  apply state_eq; simpl; try assumption; try reflexivity.
  rewrite Hw. destruct (_getObjList nameRoot st); reflexivity.
Qed.

End ActiveLoops.

(** ** Rigid bodies *)

Section RigidBodies.
Implicit Types (st : State).

(** X9. [enable_rigidbody] with the type ['ACTIVE'] or ['PASSIVE'] returns when
    every object found is a mesh object: each of them is then a rigid body of
    the given type (one that was a rigid body keeps its other settings), no
    other object is changed, and no object is active. The scene has a rigid
    body world afterwards if an object was found or if it had one. *)
Theorem enable_rigidbody_returns (nameRoot type : string) st :
  type = "ACTIVE"%string \/ type = "PASSIVE"%string ->
  (forall i o, objects st !! i = Some o -> String.prefix nameRoot (name o) = true ->
               is_Some (data o)) ->
  exists st',
    enable_rigidbody nameRoot type st = Return tt st'
    /\ active st' = None /\ meshes st' = meshes st /\ materials st' = materials st
    /\ rigidbody_world st' = found_any nameRoot st || rigidbody_world st
    /\ forall i, objects st' !! i
                 = (fun o => if String.prefix nameRoot (name o)
                             then add_rigid_body type o else o) <$> objects st !! i.
Proof.
  intros Hty Hall. rewrite enable_rigidbody_eq by (try apply rigid_body_type_ok; assumption).
  eexists. split; [reflexivity |]. repeat split.
  intros i. simpl. apply list_lookup_fmap.
Qed.

Lemma enable_rigidbody_returns_witness :
  exists st', enable_rigidbody "scale" "PASSIVE" body_scene = Return tt st'
              /\ active st' = None
              /\ objects st' !! 0
                 = Some (mkObject "scaleA" false Vec.zero Vec.identity3 (Some 0)
                                  (Some (mkRigidBody "PASSIVE" 7)) 0 None).
Proof.
  destruct (enable_rigidbody_returns "scale" "PASSIVE" body_scene)
    as (st' & E & Ha & _ & _ & _ & Hobj).
  - right. reflexivity.
  - intros [| [| [| i]]] o Ho Hp; simpl in Ho; try discriminate;
      injection Ho as <-; simpl in *; try discriminate; eexists; reflexivity.
  - exists st'. split; [exact E |]. split; [exact Ha |].
    rewrite (Hobj 0). reflexivity.
Defined.

(** X10. [enable_rigidbody] with the type ['ACTIVE'] or ['PASSIVE'] raises when an
    object found is not a mesh object: the host refuses it with
    [RuntimeError], and the procedure stops there, with that object active. *)
Theorem enable_rigidbody_raises (nameRoot type : string) st (i : nat) (o : Object) :
  type = "ACTIVE"%string \/ type = "PASSIVE"%string ->
  objects st !! i = Some o -> String.prefix nameRoot (name o) = true ->
  data o = None ->
  exists j oj st',
    enable_rigidbody nameRoot type st = Raise RuntimeError st'
    /\ active st' = Some j
    /\ objects st !! j = Some oj
    /\ String.prefix nameRoot (name oj) = true /\ data oj = None.
Proof.
  intros Hty Ho Hp Hd. apply rigid_body_type_ok in Hty.
  unfold enable_rigidbody. rewrite gets_then.
  destruct (active_loop_raises (fun o => is_Some (data o)) (add_rigid_body type)
              (rigidbody_object_add type))
    with (l := _getObjList nameRoot st) (st := st)
    as (j & oj & st' & E & Ha & Hj & Hoj & Hbad & _).
  { intros s k ok Hak Hok Hg. eexists.
    split; [apply (object_add_good type s k ok Hty Hak Hok Hg) | reflexivity]. }
  { intros s k ok. apply object_add_bad. }
  { apply NoDup_getObjList. }
  { intros k Hk. apply elem_of_getObjList in Hk as (ok & -> & _). eexists; reflexivity. }
  { exists i, o. split; [| split; [exact Ho |]].
    - apply elem_of_getObjList. exists o. split; assumption.
    - rewrite Hd. intros [x Hx]. discriminate. }
  exists j, oj, st'. split; [apply then_raise; exact E |]. split; [exact Ha |].
  split; [exact Hoj |].
  apply elem_of_getObjList in Hj as (oj' & Hoj' & Hpj).
  rewrite Hoj in Hoj'. injection Hoj' as <-. split; [exact Hpj |].
  destruct (data oj); [exfalso; apply Hbad; eexists; reflexivity | reflexivity].
Qed.

Lemma enable_rigidbody_raises_witness :
  exists st', enable_rigidbody "e" "ACTIVE" body_scene = Raise RuntimeError st'
              /\ active st' = Some 2.
Proof.
  destruct (enable_rigidbody_raises "e" "ACTIVE" body_scene 2
              (mkObject "empty" false Vec.zero Vec.identity3 None None 0 None))
    as (j & oj & st' & E & _).
  - left. reflexivity.
  - reflexivity.
  - reflexivity.
  - reflexivity.
  - exists st'. split; [exact E |].
    change (enable_rigidbody "e" "ACTIVE" body_scene)
      with (@Raise unit RuntimeError (set_active (Some 2) body_scene)) in E.
    injection E as <-. reflexivity.
Defined.

(** X30. [enable_rigidbody] with a type other than ['ACTIVE'] and ['PASSIVE']
    raises [TypeError] when the first object found is a mesh object: that
    object is left active, and nothing else is changed. *)
Theorem enable_rigidbody_unknown_type (nameRoot type : string) st (i : nat)
  (l : list nat) (o : Object) :
  type <> "ACTIVE"%string -> type <> "PASSIVE"%string ->
  _getObjList nameRoot st = i :: l ->
  objects st !! i = Some o -> is_Some (data o) ->
  enable_rigidbody nameRoot type st = Raise TypeError (set_active (Some i) st).
Proof.
  intros Hna Hnp Hl Ho Hd.
  assert (Hty : is_rigid_body_type type = false).
  { unfold is_rigid_body_type.
    destruct (String.eqb_spec type "ACTIVE"); [contradiction |].
    destruct (String.eqb_spec type "PASSIVE"); [contradiction | reflexivity]. }
  unfold enable_rigidbody. rewrite gets_then, Hl.
  apply then_raise. simpl. apply then_raise.
  unfold bind at 1. unfold exec at 1.
  apply (object_add_type_error type (set_active (Some i) st) i o Hty eq_refl Ho Hd).
Qed.

Lemma enable_rigidbody_unknown_type_witness :
  enable_rigidbody "scale" "STATIC" body_scene
  = Raise TypeError (set_active (Some 0) body_scene).
Proof.
  apply (enable_rigidbody_unknown_type "scale" "STATIC" body_scene 0 [1]
           (mkObject "scaleA" false Vec.zero Vec.identity3 (Some 0)
                     (Some (mkRigidBody "ACTIVE" 7)) 0 None)).
  - discriminate.
  - discriminate.
  - reflexivity.
  - reflexivity.
  - eexists. reflexivity.
Defined.

(** X11. [disable_rigidbody] returns when every object found is a rigid body, its
    stated precondition: none of them is a rigid body afterwards, no other
    object is changed, and no object is active. *)
Theorem disable_rigidbody_returns (nameRoot : string) st :
  (forall i o, objects st !! i = Some o -> String.prefix nameRoot (name o) = true ->
               is_Some (rigid_body o)) ->
  exists st',
    disable_rigidbody nameRoot st = Return tt st'
    /\ active st' = None /\ meshes st' = meshes st /\ materials st' = materials st
    /\ forall i, objects st' !! i
                 = (fun o => if String.prefix nameRoot (name o)
                             then set_rigid_body None o else o) <$> objects st !! i.
Proof.
  intros Hall. rewrite disable_rigidbody_eq by exact Hall.
  eexists. split; [reflexivity |]. repeat split.
  intros i. simpl. apply list_lookup_fmap.
Qed.

Lemma disable_rigidbody_returns_witness :
  exists st', disable_rigidbody "scaleA" body_scene = Return tt st'
              /\ active st' = None.
Proof.
  destruct (disable_rigidbody_returns "scaleA" body_scene) as (st' & E & Ha & _).
  - intros [| [| [| i]]] o Ho Hp; simpl in Ho; try discriminate;
      injection Ho as <-; simpl in *; try discriminate; eexists; reflexivity.
  - exists st'. split; [exact E | exact Ha].
Defined.

(** X12. When the precondition of [disable_rigidbody] fails, the procedure raises:
    the host refuses an object that is no rigid body with [RuntimeError], and
    the procedure stops there, with that object active and still no rigid
    body. *)
Theorem disable_rigidbody_raises (nameRoot : string) st (i : nat) (o : Object) :
  objects st !! i = Some o -> String.prefix nameRoot (name o) = true ->
  rigid_body o = None ->
  exists j oj st',
    disable_rigidbody nameRoot st = Raise RuntimeError st'
    /\ active st' = Some j
    /\ objects st' !! j = Some oj
    /\ String.prefix nameRoot (name oj) = true /\ rigid_body oj = None.
Proof.
  intros Ho Hp Hr. unfold disable_rigidbody. rewrite gets_then.
  destruct (active_loop_raises (fun o => is_Some (rigid_body o)) (set_rigid_body None)
              rigidbody_object_remove)
    with (l := _getObjList nameRoot st) (st := st)
    as (j & oj & st' & E & Ha & Hj & Hoj & Hbad & Hoj').
  { intros s k ok Hak Hok Hg. eexists.
    split; [apply (object_remove_good s k ok Hak Hok Hg) | reflexivity]. }
  { exact object_remove_bad. }
  { apply NoDup_getObjList. }
  { intros k Hk. apply elem_of_getObjList in Hk as (ok & -> & _). eexists; reflexivity. }
  { exists i, o. split; [| split; [exact Ho |]].
    - apply elem_of_getObjList. exists o. split; assumption.
    - rewrite Hr. intros [x Hx]. discriminate. }
  exists j, oj, st'. split; [apply then_raise; exact E |]. split; [exact Ha |].
  split; [exact Hoj' |].
  apply elem_of_getObjList in Hj as (oj2 & Hoj2 & Hpj).
  rewrite Hoj in Hoj2. injection Hoj2 as <-. split; [exact Hpj |].
  destruct (rigid_body oj); [exfalso; apply Hbad; eexists; reflexivity | reflexivity].
Qed.

Lemma disable_rigidbody_raises_witness :
  exists st', disable_rigidbody "scale" body_scene = Raise RuntimeError st'.
Proof.
  destruct (disable_rigidbody_raises "scale" body_scene 1
              (mkObject "scaleB" true Vec.zero Vec.identity3 (Some 1) None 0 None))
    as (j & oj & st' & E & _).
  - reflexivity.
  - reflexivity.
  - reflexivity.
  - exists st'. exact E.
Defined.

(** X13. Enabling and then disabling: when the objects found are mesh objects and
    none is a rigid body, [enable_rigidbody] with the type ['ACTIVE'] or
    ['PASSIVE'] followed by [disable_rigidbody] returns and leaves the
    objects, the meshes and the materials as they were. What is left of the
    two calls: no object is active, and the scene has a rigid body world if
    an object was found. *)
Theorem enable_then_disable (nameRoot type : string) st :
  type = "ACTIVE"%string \/ type = "PASSIVE"%string ->
  (forall i o, objects st !! i = Some o -> String.prefix nameRoot (name o) = true ->
               is_Some (data o) /\ rigid_body o = None) ->
  (enable_rigidbody nameRoot type ;; disable_rigidbody nameRoot) st
  = Return tt
      (set_active None
         (set_rigidbody_world (found_any nameRoot st || rigidbody_world st) st)).
Proof.
  intros Hty Hall. apply rigid_body_type_ok in Hty. unfold bind at 1.
  rewrite enable_rigidbody_eq by (try exact Hty; intros i o Ho Hp; apply (Hall i o Ho Hp)).
  rewrite disable_rigidbody_eq.
  - f_equal. apply state_eq; simpl; try reflexivity.
    rewrite <- list_fmap_compose. rewrite <- (list_fmap_id (objects st)) at 2.
    apply Forall_fmap_ext_1. apply Forall_forall. intros o Hin.
    apply list_elem_of_lookup in Hin as [i Hi].
    unfold on_found. simpl.
    destruct (String.prefix nameRoot (name o)) eqn:Hp; simpl; rewrite ?Hp; [| reflexivity].
    destruct (Hall i o Hi Hp) as [_ Hr].
    unfold add_rigid_body, set_rigid_body. simpl. rewrite <- Hr. destruct o; reflexivity.
  - intros i o'. simpl. rewrite list_lookup_fmap.
    destruct (objects st !! i) as [o |]; simpl; [| discriminate].
    intros [= <-]. unfold on_found.
    destruct (String.prefix nameRoot (name o)) eqn:Hp; simpl; intros Hp'.
    + eexists. reflexivity.
    + congruence.
Qed.

Lemma enable_then_disable_witness :
  (enable_rigidbody "Cube" "ACTIVE" ;; disable_rigidbody "Cube") top_scene
  = Return tt (set_active None (set_rigidbody_world true top_scene)).
Proof.
  apply (enable_then_disable "Cube" "ACTIVE" top_scene).
  - left. reflexivity.
  - intros [| i] o Ho Hp; simpl in Ho; try discriminate.
    injection Ho as <-. split; [eexists |]; reflexivity.
Defined.

End RigidBodies.

(** ** No object found, and [copy_rigidbody_settings] *)

Section Lookups.
Implicit Types (st : State).

Lemma getObjList_nil (nameRoot : string) st :
  (forall i o, objects st !! i = Some o -> String.prefix nameRoot (name o) = false) ->
  _getObjList nameRoot st = [].
Proof.
  intros H. apply elem_of_nil_inv. intros i Hi.
  apply elem_of_getObjList in Hi as (o & Ho & Hp).
  rewrite (H i o Ho) in Hp. discriminate.
Qed.

(** X14. When no object's name begins with the prefix, the procedures do nothing
    to the objects: [select] and [deselect] leave the scene as it is; [move]
    and [move_towards] only clear the selection; so does [bake_rigidbody],
    which then raises [RuntimeError] when the active object is no rigid body;
    [enable_rigidbody], [disable_rigidbody] and [assign_material] return and
    only clear the active object, whatever the type and whether the material
    exists or not. *)
Theorem nothing_found (nameRoot type material : string) (vector target : Vector)
  (value : R) (startFrame endFrame step : Z) st :
  (forall i o, objects st !! i = Some o -> String.prefix nameRoot (name o) = false) ->
  select nameRoot st = st
  /\ deselect nameRoot st = st
  /\ move nameRoot vector st = select_all_DESELECT st
  /\ move_towards nameRoot target value st = select_all_DESELECT st
  /\ bake_rigidbody nameRoot startFrame endFrame step st
     = match active_rigid_body st with
       | Some _ => Return tt (select_all_DESELECT st)
       | None => Raise RuntimeError (select_all_DESELECT st)
       end
  /\ enable_rigidbody nameRoot type st = Return tt (set_active None st)
  /\ disable_rigidbody nameRoot st = Return tt (set_active None st)
  /\ assign_material nameRoot material st = Return tt (set_active None st).
Proof.
  intros H. pose proof (getObjList_nil nameRoot st H) as Hnil.
  assert (Hnil' : _getObjList nameRoot (select_all_DESELECT st) = []).
  { rewrite <- Hnil. apply getObjList_names. simpl.
    rewrite <- list_fmap_compose. reflexivity. }
  assert (Hsel : forall s, _getObjList nameRoot s = [] -> select nameRoot s = s).
  { intros s Hs. unfold select. rewrite Hs. reflexivity. }
  split; [apply Hsel, Hnil |].
  split; [unfold deselect; rewrite Hnil; reflexivity |].
  split.
  { unfold move, transform_translate. rewrite (Hsel _ Hnil').
    unfold on_selected. destruct st as [os ms mats a w]. unfold select_all_DESELECT.
    simpl. unfold set_objects. simpl. f_equal.
    rewrite <- list_fmap_compose. apply list_fmap_ext. intros _ o _. reflexivity. }
  split.
  { unfold move_towards. rewrite Hnil'. reflexivity. }
  split.
  { rewrite bake_rigidbody_spec, (Hsel _ Hnil').
    destruct (active_rigid_body st); [| reflexivity]. f_equal.
    unfold select_all_DESELECT. f_equal. apply list_fmap_ext. intros i o Ho.
    unfold act_object. rewrite (H i o Ho). reflexivity. }
  split.
  { unfold enable_rigidbody. rewrite gets_then, Hnil. reflexivity. }
  split.
  { unfold disable_rigidbody. rewrite gets_then, Hnil. reflexivity. }
  unfold assign_material. rewrite !gets_then, Hnil. reflexivity.
Qed.

Lemma nothing_found_witness :
  move "cube" Vec.zero crowd_scene = select_all_DESELECT crowd_scene
  /\ bake_rigidbody "cube" 1 250 1 crowd_scene
     = Raise RuntimeError (select_all_DESELECT crowd_scene)
  /\ assign_material "cube" "M" crowd_scene = Return tt (set_active None crowd_scene).
Proof.
  destruct (nothing_found "cube" "ACTIVE" "M" Vec.zero Vec.zero 0%R 1 250 1 crowd_scene)
    as (_ & _ & Hm & _ & Hb & _ & _ & Ha).
  - intros [| [| [| i]]] o Ho; simpl in Ho; try discriminate;
      injection Ho as <-; reflexivity.
  - split; [exact Hm |]. split; [exact Hb | exact Ha].
Defined.



Lemma find_name_None (key : string) (os : list Object) (k : nat) :
  (forall i o, os !! i = Some o -> name o <> key) -> find_name key os k = None.
Proof.
  revert k. induction os as [| o os IH]; intros k H; simpl; [reflexivity |].
  destruct (String.eqb_spec (name o) key) as [E | _].
  - exfalso. exact (H 0 o eq_refl E).
  - apply IH. intros i o' Hi. exact (H (S i) o' Hi).
Qed.

Lemma find_name_Some (key : string) (os : list Object) (k t : nat) :
  find_name key os k = Some t ->
  exists o, os !! (t - k) = Some o /\ name o = key /\ k <= t.
Proof.
  revert k. induction os as [| o os IH]; intros k; simpl; [discriminate |].
  destruct (String.eqb_spec (name o) key) as [E | _].
  - intros [= <-]. exists o. rewrite Nat.sub_diag. repeat split; [exact E | lia].
  - intros H. destruct (IH (S k) H) as (o' & Ho' & Hn & Hle).
    exists o'. replace (t - k) with (S (t - S k)) by lia.
    repeat split; [exact Ho' | exact Hn | lia].
Qed.

(** X15. [copy_rigidbody_settings] with a template that does not exist: the lookup
    [bpy.data.objects[template]] raises [KeyError]; by then the selection has
    been cleared, and nothing else is changed. *)
Theorem copy_rigidbody_settings_missing_template (nameRoot template : string) st :
  (forall i o, objects st !! i = Some o -> name o <> template) ->
  copy_rigidbody_settings nameRoot template st
  = Raise KeyError (select_all_DESELECT st).
Proof.
  intros H. unfold copy_rigidbody_settings, objects_getitem, bind, exec, gets. simpl.
  rewrite find_name_fmap, find_name_None by exact H. reflexivity.
Qed.

Lemma copy_rigidbody_settings_missing_template_witness :
  copy_rigidbody_settings "scale" "template" body_scene
  = Raise KeyError (select_all_DESELECT body_scene).
Proof.
  apply copy_rigidbody_settings_missing_template.
  intros [| [| [| i]]] o Ho; simpl in Ho; try discriminate;
    injection Ho as <-; simpl; discriminate.
Defined.

(** X16. [copy_rigidbody_settings] with a template that is a rigid body: the
    procedure returns and the template is the active object. The mesh objects
    found are selected and have the rigid body settings of the template; an
    object found that is no mesh object is deselected and gets no rigid body;
    every other object is deselected and otherwise as it was. *)
Theorem copy_rigidbody_settings_returns (nameRoot template : string) st
  (t : nat) (ot : Object) (rb : RigidBody) :
  find_name template (objects st) 0 = Some t ->
  objects st !! t = Some ot -> rigid_body ot = Some rb ->
  exists st',
    copy_rigidbody_settings nameRoot template st = Return tt st'
    /\ active st' = Some t /\ name ot = template
    /\ forall i, objects st' !! i
                 = (fun o => if String.prefix nameRoot (name o)
                             then match data o with
                                  | Some _ => set_rigid_body (Some rb) (set_selected true o)
                                  | None => set_selected false o
                                  end
                             else set_selected false o) <$> objects st !! i.
Proof.
  intros Hf Ho Hrb.
  unfold copy_rigidbody_settings, objects_getitem, rigidbody_object_settings_copy.
  unfold bind, exec, gets. simpl. rewrite find_name_fmap, Hf. simpl.
  set (st2 := select nameRoot (set_active (Some t) (select_all_DESELECT st))).
  assert (Ha : active st2 = Some t) by (unfold st2; rewrite select_spec; reflexivity).
  assert (Hobj : objects st2 = select_object nameRoot true <$> (set_selected false <$> objects st)).
  { unfold st2. rewrite select_spec. reflexivity. }
  rewrite Ha. simpl. rewrite Hobj, !list_lookup_fmap, Ho. simpl.
  assert (Hr : rigid_body (select_object nameRoot true (set_selected false ot)) = Some rb).
  { unfold select_object. simpl. destruct (String.prefix nameRoot (name ot)); exact Hrb. }
  rewrite Hr. simpl. eexists. split; [reflexivity |].
  split; [exact Ha |]. split.
  { destruct (find_name_Some _ _ _ _ Hf) as (o' & Ho' & Hn & _).
    rewrite Nat.sub_0_r, Ho in Ho'. injection Ho' as <-. exact Hn. }
  intros i. simpl. rewrite Hobj, !list_lookup_fmap.
  destruct (objects st !! i) as [o |]; [| reflexivity]. simpl.
  unfold select_object, copy_settings_object. simpl.
  destruct (String.prefix nameRoot (name o)); simpl; [| reflexivity].
  destruct (data o); reflexivity.
Qed.

Lemma copy_rigidbody_settings_returns_witness :
  exists st', copy_rigidbody_settings "" "scaleA" body_scene = Return tt st'
    /\ active st' = Some 0
    /\ objects st' !! 1
       = Some (mkObject "scaleB" true Vec.zero Vec.identity3 (Some 1)
                        (Some (mkRigidBody "ACTIVE" 7)) 0 None)
    /\ objects st' !! 2
       = Some (mkObject "empty" false Vec.zero Vec.identity3 None None 0 None).
Proof.
  destruct (copy_rigidbody_settings_returns "" "scaleA" body_scene 0
              (mkObject "scaleA" false Vec.zero Vec.identity3 (Some 0)
                        (Some (mkRigidBody "ACTIVE" 7)) 0 None)
              (mkRigidBody "ACTIVE" 7))
    as (st' & E & Ha & _ & Hobj).
  - reflexivity.
  - reflexivity.
  - reflexivity.
  - exists st'. split; [exact E |]. split; [exact Ha |].
    split; [rewrite (Hobj 1) | rewrite (Hobj 2)]; reflexivity.
Defined.

(** X17. [copy_rigidbody_settings] with a template that is no rigid body, against
    its precondition: the host refuses the copy with [RuntimeError]; by then
    the template is active and the objects found, and only they, are
    selected. *)
Theorem copy_rigidbody_settings_no_rigid_body (nameRoot template : string) st
  (t : nat) (ot : Object) :
  find_name template (objects st) 0 = Some t ->
  objects st !! t = Some ot -> rigid_body ot = None ->
  copy_rigidbody_settings nameRoot template st
  = Raise RuntimeError
      (select nameRoot (set_active (Some t) (select_all_DESELECT st))).
Proof.
  intros Hf Ho Hrb.
  unfold copy_rigidbody_settings, objects_getitem, rigidbody_object_settings_copy.
  unfold bind, exec, gets. simpl. rewrite find_name_fmap, Hf. simpl.
  set (st2 := select nameRoot (set_active (Some t) (select_all_DESELECT st))).
  assert (Ha : active st2 = Some t) by (unfold st2; rewrite select_spec; reflexivity).
  assert (Hobj : objects st2 = select_object nameRoot true <$> (set_selected false <$> objects st)).
  { unfold st2. rewrite select_spec. reflexivity. }
  rewrite Ha. simpl. rewrite Hobj, !list_lookup_fmap, Ho. simpl.
  assert (Hr : rigid_body (select_object nameRoot true (set_selected false ot)) = None).
  { unfold select_object. simpl. destruct (String.prefix nameRoot (name ot)); exact Hrb. }
  rewrite Hr. reflexivity.
Qed.

Lemma copy_rigidbody_settings_no_rigid_body_witness :
  copy_rigidbody_settings "scale" "scaleB" body_scene
  = Raise RuntimeError
      (select "scale" (set_active (Some 1) (select_all_DESELECT body_scene))).
Proof.
  apply (copy_rigidbody_settings_no_rigid_body "scale" "scaleB" body_scene 1
           (mkObject "scaleB" true Vec.zero Vec.identity3 (Some 1) None 0 None)).
  - reflexivity.
  - reflexivity.
  - reflexivity.
Defined.

End Lookups.

(** ** [assign_material] *)

Section AssignMaterial.
Implicit Types (st : State).

(** X18. [assign_material] reads [bpy.context.object] once, before it makes any
    object active. When nothing is active then and an object is found, the
    first round fails on [co.material_slots] with [AttributeError]: the
    first object found is left active and nothing else is changed. *)
Theorem assign_material_without_active (nameRoot material : string) st
  (i : nat) (o : Object) :
  active st = None ->
  objects st !! i = Some o -> String.prefix nameRoot (name o) = true ->
  exists j, assign_material nameRoot material st
            = Raise AttributeError (set_active (Some j) st)
            /\ j ∈ _getObjList nameRoot st.
Proof.
  intros Ha Ho Hp.
  assert (Hi : i ∈ _getObjList nameRoot st).
  { apply elem_of_getObjList. exists o. split; assumption. }
  unfold assign_material. rewrite !gets_then, Ha.
  destruct (_getObjList nameRoot st) as [| j l]; [exfalso; exact (not_elem_of_nil _ Hi) |].
  exists j. split; [reflexivity | apply list_elem_of_here].
Qed.

Lemma assign_material_without_active_witness :
  exists j, assign_material "A" "Mat" rigid_scene_no_active
            = Raise AttributeError (set_active (Some j) rigid_scene_no_active).
Proof.
  destruct (assign_material_without_active "A" "Mat" rigid_scene_no_active 0
              (mkObject "A" false Vec.zero Vec.identity3 (Some 0)
                        (Some (mkRigidBody "ACTIVE" 0)) 0 None))
    as (j & E & _).
  - reflexivity.
  - reflexivity.
  - reflexivity.
  - exists j. exact E.
Defined.

Lemma exec_then {B} (f : State -> State) (k : M B) st :
  (exec f ;; k) st = k (f st).
Proof. reflexivity. Qed.

Lemma some_then {A B} (e : Exn) (a : A) (k : A -> M B) st :
  (let* x := some_or e (Some a) in k x) st = k a st.
Proof. reflexivity. Qed.

Lemma then_return {A B} (c : M A) (k : A -> M B) st (a : A) (st1 : State) :
  c st = Return a st1 -> bind c k st = k a st1.
Proof. intros E. unfold bind. rewrite E. reflexivity. Qed.

Lemma for_each_one {B} (b : B) (body : B -> M unit) st (st1 : State) :
  body b st = Return tt st1 -> for_each [b] body st = Return tt st1.
Proof. intros E. simpl. unfold bind. rewrite E. reflexivity. Qed.

Lemma seq_assoc {A B C} (c : M A) (d : M B) (k : M C) st :
  (c ;; d ;; k) st = ((c ;; d) ;; k) st.
Proof. unfold bind. destruct (c st); reflexivity. Qed.

(** the loop that removes the slots, run on the active object [o] with the
    number of its slots: all slots of its mesh are removed *)
Lemma remove_slots_all (o d : nat) :
  forall (n : nat) st (ob : Object) (me : Mesh),
    active st = Some o -> objects st !! o = Some ob -> data ob = Some d ->
    meshes st !! d = Some me -> length (mesh_materials me) = n ->
    exists st' ob',
      remove_slots o n st = Return tt st'
      /\ active st' = Some o /\ materials st' = materials st
      /\ meshes st' !! d = Some (set_mesh_materials [] me)
      /\ (forall d', d' <> d -> meshes st' !! d' = meshes st !! d')
      /\ objects st' !! o = Some ob' /\ data ob' = Some d /\ name ob' = name ob
      /\ (forall i, i <> o -> objects st' !! i = objects st !! i).
Proof.
  induction n as [| n IH]; intros st ob me Ha Ho Hd Hme Hlen.
  - exists st, ob. split; [reflexivity |]. repeat split; try assumption.
    rewrite Hme. f_equal. destruct me as [nm vs ps uv ms]. simpl in *.
    destruct ms; [reflexivity | discriminate].
  - set (ob1 := set_active_material_index 0 ob).
    set (st1 := set_objects (alter (set_active_material_index 0) o (objects st)) st).
    assert (Ho1 : objects st1 !! o = Some ob1).
    { unfold st1. simpl. rewrite list_lookup_alter_eq, Ho. reflexivity. }
    assert (Hslots : material_slots st1 o = mesh_materials me).
    { unfold material_slots, object_mesh. rewrite Ho1. simpl. rewrite Hd.
      change (meshes st1) with (meshes st). rewrite Hme. reflexivity. }
    set (st2 := set_objects
                  (alter (set_active_material_index
                            (Nat.min 0 (Nat.pred (length (delete 0 (material_slots st1 o))))))
                         o (objects st1))
                  (set_meshes
                     (alter (set_mesh_materials (delete 0 (material_slots st1 o))) d
                            (meshes st1)) st1)).
    assert (E2 : (exec (fun s => set_objects
                                   (alter (set_active_material_index 0) o (objects s)) s) ;;
                  material_slot_remove) st = Return tt st2).
    { unfold material_slot_remove, bind, exec, gets. simpl.
      rewrite Ha. simpl. rewrite list_lookup_alter_eq, Ho. simpl. rewrite Hd.
      reflexivity. }
    destruct (IH st2 (set_active_material_index
                        (Nat.min 0 (Nat.pred (length (delete 0 (material_slots st1 o))))) ob1)
                 (set_mesh_materials (delete 0 (material_slots st1 o)) me))
      as (st' & ob' & E & Ha' & Hmat' & Hme' & Hother & Ho' & Hd' & Hn' & Hobj').
    { exact Ha. }
    { unfold st2. simpl. rewrite list_lookup_alter_eq.
      change (alter (set_active_material_index 0) o (objects st)) with (objects st1).
      rewrite Ho1. reflexivity. }
    { exact Hd. }
    { unfold st2. simpl. rewrite list_lookup_alter_eq, Hme. reflexivity. }
    { simpl. rewrite Hslots. destruct (mesh_materials me); simpl in *; [discriminate | lia]. }
    exists st', ob'. split.
    { simpl remove_slots. rewrite seq_assoc. unfold bind at 1. rewrite E2. exact E. }
    split; [exact Ha' |]. split; [exact Hmat' |]. split; [exact Hme' |].
    split.
    { intros d' Hne. rewrite (Hother d' Hne). unfold st2. simpl.
      apply list_lookup_alter_ne. congruence. }
    split; [exact Ho' |]. split; [exact Hd' |]. split; [exact Hn' |].
    intros i Hne. rewrite (Hobj' i Hne). unfold st2. simpl.
    rewrite !list_lookup_alter_ne by congruence. reflexivity.
Qed.

(** X19. [assign_material] used as intended, on the one object found being the
    active object: the procedure returns; every slot of the object's mesh is
    removed and the mesh has the one slot with the material asked for (an
    empty slot when no material has that name); the other meshes and objects
    are as they were, and no object is active. *)
Theorem assign_material_replaces_slots (nameRoot material : string) st
  (o : nat) (ob : Object) (d : nat) (me : Mesh) :
  _getObjList nameRoot st = [o] -> active st = Some o ->
  objects st !! o = Some ob -> data ob = Some d -> meshes st !! d = Some me ->
  exists st',
    assign_material nameRoot material st = Return tt st'
    /\ active st' = None /\ materials st' = materials st
    /\ material_slots st' o = [materials_get material (materials st) 0]
    /\ (forall d', d' <> d -> meshes st' !! d' = meshes st !! d')
    /\ (forall i, i <> o -> objects st' !! i = objects st !! i).
Proof.
  intros Hall Ha Ho Hd Hme.
  destruct (remove_slots_all o d (length (mesh_materials me)) (set_active (Some o) st)
              ob me eq_refl Ho Hd Hme eq_refl)
    as (st1 & ob1 & E1 & Ha1 & Hmat1 & Hme1 & Hother1 & Ho1 & Hd1 & _ & Hobj1).
  assert (Hslots : material_slots (set_active (Some o) st) o = mesh_materials me).
  { unfold material_slots, object_mesh. simpl. rewrite Ho, Hd, Hme. reflexivity. }
  set (m := materials_get material (materials st) 0).
  set (st2 := set_meshes
                (alter (fun me' => set_mesh_materials (mesh_materials me' ++ [m]) me')
                       d (meshes st1)) st1).
  assert (E : assign_material nameRoot material st = Return tt (set_active None st2)).
  { unfold assign_material. rewrite !gets_then, Hall, Ha. fold m.
    apply then_exec with (a := tt). apply for_each_one.
    rewrite exec_then, some_then, gets_then, Hslots.
    rewrite (then_return _ _ _ _ _ E1).
    unfold materials_append. rewrite gets_then, Ho1, some_then, Hd1, some_then.
    reflexivity. }
  exists (set_active None st2). split; [exact E |].
  split; [reflexivity |]. split; [exact Hmat1 |]. split; [| split].
  - unfold material_slots, object_mesh. simpl. rewrite Ho1, Hd1.
    rewrite list_lookup_alter_eq, Hme1. reflexivity.
  - intros d' Hne. simpl. rewrite list_lookup_alter_ne by congruence.
    rewrite (Hother1 d' Hne). reflexivity.
  - intros i Hne. simpl. rewrite (Hobj1 i Hne). reflexivity.
Qed.

Lemma assign_material_replaces_slots_witness :
  exists st', assign_material "scaleB" "M0" body_scene = Return tt st'
              /\ material_slots st' 1 = [Some 0].
Proof.
  destruct (assign_material_replaces_slots "scaleB" "M0" body_scene 1
              (mkObject "scaleB" true Vec.zero Vec.identity3 (Some 1) None 0 None) 1
              (mkMesh "b" [] [] None [Some 1]))
    as (st' & E & _ & _ & Hs & _).
  - reflexivity.
  - reflexivity.
  - reflexivity.
  - reflexivity.
  - reflexivity.
  - exists st'. split; [exact E | exact Hs].
Defined.

(** X20. [assign_material] counts the slots to remove on the object that was
    active when it was called, not on the object it is working on. When that
    object has no slots, no slot of the object found is removed: the material
    is added after the slots its mesh had. *)
Theorem assign_material_keeps_slots (nameRoot material : string) st
  (c o : nat) (ob : Object) (d : nat) :
  _getObjList nameRoot st = [o] -> active st = Some c -> material_slots st c = [] ->
  objects st !! o = Some ob -> data ob = Some d ->
  assign_material nameRoot material st
  = Return tt
      (set_active None
         (set_meshes
            (alter (fun me => set_mesh_materials
                                (mesh_materials me
                                   ++ [materials_get material (materials st) 0]) me)
                   d (meshes st)) st)).
Proof.
  intros Hall Ha Hc Ho Hd.
  unfold assign_material. rewrite !gets_then, Hall, Ha.
  assert (Hc' : material_slots (set_active (Some o) st) c = []) by exact Hc.
  rewrite (then_exec _ _ _ tt
             (set_meshes
                (alter (fun me => set_mesh_materials
                                    (mesh_materials me
                                       ++ [materials_get material (materials st) 0]) me)
                       d (meshes st)) (set_active (Some o) st)));
    [reflexivity |].
  apply for_each_one.
  rewrite exec_then, some_then, gets_then, Hc'. simpl remove_slots.
  unfold materials_append.
  rewrite (then_return _ _ _ tt (set_active (Some o) st) eq_refl).
  rewrite gets_then. simpl objects. rewrite Ho, some_then, Hd, some_then.
  reflexivity.
Qed.

Lemma assign_material_keeps_slots_witness :
  exists st', assign_material "scaleA" "M1" (set_active (Some 2) body_scene)
              = Return tt st'
              /\ material_slots st' 0 = [Some 0; None; Some 1].
Proof.
  eexists. split.
  - apply (assign_material_keeps_slots "scaleA" "M1" (set_active (Some 2) body_scene)
             2 0 (mkObject "scaleA" false Vec.zero Vec.identity3 (Some 0)
                           (Some (mkRigidBody "ACTIVE" 7)) 0 None) 0).
    + reflexivity.
    + reflexivity.
    + reflexivity.
    + reflexivity.
    + reflexivity.
  - reflexivity.
Defined.

End AssignMaterial.

(** * Further properties of shedScaleSkin.py *)

Section ScriptEdges.
Implicit Types (st : State).

(** X31. Without an active object the script raises [RuntimeError] at its
    first call, [mode_set] on line 30, and changes nothing, whatever the
    scene holds. *)
Theorem shedScaleSkin_without_active st :
  active st = None -> shedScaleSkin st = Raise RuntimeError st.
Proof. intros H. rewrite shedScaleSkin_eq, H. reflexivity. Qed.

Lemma shedScaleSkin_without_active_witness :
  shedScaleSkin (set_active None top_scene) = Raise RuntimeError (set_active None top_scene).
Proof. apply shedScaleSkin_without_active. reflexivity. Defined.

(** X21. With an active object and without an object named
    [originalObjectName] the script raises [KeyError] at line 32; by then the
    selection has been cleared, and nothing else is changed. *)
Theorem shedScaleSkin_missing_object st :
  is_Some (active st) ->
  (forall i o, objects st !! i = Some o -> name o <> originalObjectName) ->
  shedScaleSkin st = Raise KeyError (select_all_DESELECT st).
Proof.
  intros [a Ha] H. rewrite shedScaleSkin_eq, Ha. cbv zeta.
  rewrite find_name_None by exact H. reflexivity.
Qed.

Lemma shedScaleSkin_missing_object_witness :
  shedScaleSkin crowd_scene = Raise KeyError (select_all_DESELECT crowd_scene).
Proof.
  apply shedScaleSkin_missing_object.
  - eexists. reflexivity.
  - intros [| [| [| i]]] o Ho; simpl in Ho; try discriminate;
      injection Ho as <-; simpl; discriminate.
Defined.

(** X22. With an active object, when the object named [originalObjectName] has
    no mesh, [from_mesh] raises [TypeError] at line 38; by then that object
    is the only selected one, and nothing else is changed. *)
Theorem shedScaleSkin_not_a_mesh st (o : nat) (ob : Object) :
  is_Some (active st) ->
  find_name originalObjectName (objects st) 0 = Some o ->
  objects st !! o = Some ob -> data ob = None ->
  shedScaleSkin st = Raise TypeError (select_set o true (select_all_DESELECT st)).
Proof.
  intros [a Ha] Hf Ho Hd. rewrite shedScaleSkin_eq, Ha. cbv zeta.
  rewrite Hf, Ho, Hd. reflexivity.
Qed.

Lemma shedScaleSkin_not_a_mesh_witness :
  shedScaleSkin (set_active (Some 0) (lone "Cube" Vec.zero))
  = Raise TypeError
      (select_set 0 true (select_all_DESELECT (set_active (Some 0) (lone "Cube" Vec.zero)))).
Proof.
  apply (shedScaleSkin_not_a_mesh (set_active (Some 0) (lone "Cube" Vec.zero)) 0
           (mkObject "Cube" false Vec.zero Vec.identity3 None None 0 None)).
  - eexists. reflexivity.
  - reflexivity.
  - reflexivity.
  - reflexivity.
Defined.

(** X23. With an active object, on a source mesh without faces the script
    returns, adds nothing and leaves the scene as it was, with nothing
    selected; it needs no UV layer and no material for that. *)
Theorem shedScaleSkin_no_faces st (o : nat) (ob : Object) (oM : nat) (me : Mesh) :
  is_Some (active st) ->
  find_name originalObjectName (objects st) 0 = Some o ->
  objects st !! o = Some ob -> data ob = Some oM -> meshes st !! oM = Some me ->
  polygons me = [] ->
  shedScaleSkin st = Return tt (select_all_DESELECT st).
Proof.
  intros [a Ha] Hf Ho Hd Hme Hp. rewrite shedScaleSkin_eq, Ha. cbv zeta.
  rewrite Hf, Ho, Hd, Hme. simpl bm_faces. rewrite Hp. simpl.
  f_equal. apply state_eq; simpl; try reflexivity.
  apply list_eq. intros i. rewrite !list_lookup_fmap, list_lookup_alter.
  destruct (decide (o = i)) as [<- | _]; rewrite list_lookup_fmap.
  - destruct (objects st !! o); reflexivity.
  - destruct (objects st !! i); reflexivity.
Qed.

Lemma shedScaleSkin_no_faces_witness :
  shedScaleSkin (scene_of (mkMesh "Cube" [] [] None []) [])
  = Return tt (select_all_DESELECT (scene_of (mkMesh "Cube" [] [] None []) [])).
Proof.
  apply (shedScaleSkin_no_faces (scene_of (mkMesh "Cube" [] [] None []) []) 0
           cube_object 0 (mkMesh "Cube" [] [] None [])).
  - eexists. reflexivity.
  - reflexivity.
  - reflexivity.
  - reflexivity.
  - reflexivity.
  - reflexivity.
Defined.

(** X24. When the script returns, no object is selected, also not the source
    object and the scales; the active object and [bpy.data.materials] are as
    they were. *)
Theorem shedScaleSkin_ends_deselected st (st' : State) :
  shedScaleSkin st = Return tt st' ->
  all_unselected st' /\ active st' = active st /\ materials st' = materials st.
Proof.
  intros E. pose proof (shedScaleSkin_keeps st) as (_ & _ & Hmat & Ha).
  rewrite E in Hmat, Ha. simpl in Hmat, Ha. split; [| split; assumption].
  rewrite shedScaleSkin_eq in E. cbv zeta in E.
  destruct (active st) as [a |]; [| discriminate].
  destruct (find_name originalObjectName (objects st) 0) as [o |]; [| discriminate].
  destruct (objects st !! o) as [ob |]; [| discriminate].
  destruct (data ob) as [oM |]; [| discriminate].
  destruct (meshes st !! oM) as [me |]; [| discriminate].
  destruct (fold_each _ _ _ _) as [n st2 | e st2]; [| discriminate].
  injection E as <-. intros j oj. simpl. rewrite list_lookup_fmap.
  destruct (objects st2 !! j); simpl; [| discriminate]. intros [= <-]. reflexivity.
Qed.

Lemma ready_named_scene :
  ready named_scene 0 cube_object 0 (two_quads_mesh 0 0) uv_layer8.
Proof.
  split; [eexists; reflexivity |]. repeat split; try reflexivity.
  repeat apply Forall_cons_2; try apply Forall_nil_2; simpl; lia.
Qed.

Lemma four_corners_two_quads (m0 m1 : nat) :
  Forall (fun p => 4 <= length (vertices p)) (polygons (two_quads_mesh m0 m1)).
Proof. repeat apply Forall_cons_2; try apply Forall_nil_2; simpl; lia. Qed.

(** On [named_scene], where an object is selected before the run, the script
    returns with four objects, none of them selected. *)
Lemma shedScaleSkin_ends_deselected_witness :
  exists st', shedScaleSkin named_scene = Return tt st'
              /\ length (objects st') = 4
              /\ all_unselected st'.
Proof.
  destruct (ready_returns named_scene 0 cube_object 0 (two_quads_mesh 0 0) uv_layer8
              ready_named_scene (four_corners_two_quads 0 0))
    as (st' & E & Hl & _).
  exists st'. split; [exact E |]. split; [exact Hl |].
  apply (shedScaleSkin_ends_deselected named_scene st' E).
Defined.

End ScriptEdges.

Section ScaleNames.
Implicit Types (st : State).

(** X25. The scales have names of their own. On a scene that is ready, for a
    source mesh whose faces have four corners or more, the script returns;
    the name of the scale of the [k]-th face begins with ["scaleCube"] and
    the number [k], and it is the name of no object before it in
    [bpy.data.objects]: of no object that was in the scene and of no scale
    made before it. *)
Theorem scale_names_differ st (o : nat) (ob : Object) (oM : nat) (me : Mesh)
  (layer : list UV) :
  ready st o ob oM me layer ->
  Forall (fun p => 4 <= length (vertices p)) (polygons me) ->
  exists st',
    shedScaleSkin st = Return tt st'
    /\ length (objects st') = length (objects st) + length (polygons me)
    /\ forall j k oj ok,
         k < length (polygons me) -> j < length (objects st) + k ->
         objects st' !! j = Some oj ->
         objects st' !! (length (objects st) + k) = Some ok ->
         String.prefix ("scale" ++ originalObjectName ++ str k) (name ok) = true
         /\ name oj <> name ok.
Proof.
  intros Hr H4.
  destruct (ready_returns st o ob oM me layer Hr H4) as (st' & E & Hlo & _ & _ & Hsc).
  exists st'. split; [exact E |]. split; [exact Hlo |].
  intros j k oj ok Hk Hj Hoj Hok.
  destruct (lookup_lt_is_Some_2 (polygons me) k Hk) as [pk Hpk].
  destruct (source_face_of_polygon ob me k pk Hpk) as [fk Hfk].
  destruct (Hsc k fk Hfk) as (sk & bk & sName & mName & Hsk & _ & _ & Hpre & Hfresh).
  rewrite Hok in Hsk. injection Hsk as ->. simpl.
  split; [exact Hpre |]. exact (Hfresh j oj Hj Hoj).
Qed.

(** On [named_scene] the name ["scaleCube1"] is taken: the scale of the
    second face gets another name, which is not that of the scale of the
    first face either. *)
Lemma scale_names_differ_witness :
  exists st' o1 s0 s1,
    shedScaleSkin named_scene = Return tt st'
    /\ objects st' !! 1 = Some o1 /\ name o1 = "scaleCube1"%string
    /\ objects st' !! 2 = Some s0 /\ objects st' !! 3 = Some s1
    /\ String.prefix "scaleCube1" (name s1) = true
    /\ name o1 <> name s1 /\ name s0 <> name s1.
Proof.
  destruct (scale_names_differ named_scene 0 cube_object 0 (two_quads_mesh 0 0) uv_layer8
              ready_named_scene (four_corners_two_quads 0 0))
    as (st' & E & Hl & Hn).
  pose proof (shedScaleSkin_keeps named_scene) as (Ko & _).
  rewrite E in Ko. simpl in Ko.
  destruct (Ko 1 named_object eq_refl) as [b Ho1].
  destruct (lookup_lt_is_Some_2 (objects st') 2) as [s0 Hs0]; [rewrite Hl; simpl; lia |].
  destruct (lookup_lt_is_Some_2 (objects st') 3) as [s1 Hs1]; [rewrite Hl; simpl; lia |].
  exists st', (set_selected b named_object), s0, s1.
  split; [exact E |]. split; [exact Ho1 |].
  split; [reflexivity |]. split; [exact Hs0 |]. split; [exact Hs1 |].
  destruct (Hn 1 1 (set_selected b named_object) s1
              ltac:(simpl; lia) ltac:(simpl; lia) Ho1 Hs1) as [Hp H1].
  destruct (Hn 2 1 s0 s1 ltac:(simpl; lia) ltac:(simpl; lia) Hs0 Hs1) as [_ H2].
  split; [exact Hp |]. split; [exact H1 | exact H2].
Defined.

End ScaleNames.

Section ScaleSolid.
Implicit Types (st : State) (l : list Vector).

Lemma to_polygons_counts (fs : list BMFace) (start : nat) :
  (fun p => length (vertices p)) <$> to_polygons fs start
  = (fun f => length (face_loops f)) <$> fs.
Proof.
  revert start. induction fs as [| f fs IH]; intros start; [reflexivity |].
  simpl. rewrite IH. unfold face_verts. rewrite length_fmap. reflexivity.
Qed.

(** the loop body on a face it can process, with the faces of the scale *)
Lemma scale_of_face_returns_counts (oM : nat) (oBM : BMesh) (oLoc : Vector)
  (faceNum : nat) (face : BMFace) st (me : Mesh) (layer : list UV) :
  meshes st !! oM = Some me -> uv_layers_active me = Some layer ->
  (3 <= length (face_loops face))%nat ->
  Forall (uv_copyable layer (Nat.min (length (face_loops face)) 4)) (face_loops face) ->
  (face_material_index face < length (materials st))%nat ->
  exists sBM,
    scale_of_face oM oBM oLoc faceNum face st
    = Return (S faceNum)
        (with_scale st ("scale" ++ originalObjectName ++ str faceNum) sBM
           (push_direction oBM oLoc face) [Some (face_material_index face)])
    /\ bm_verts sBM = bm_verts (prism oBM oLoc face)
    /\ loop_counts sBM = loop_counts (prism oBM oLoc face).
Proof.
  intros Hme Hl Hn Hloops Hmat.
  destruct (copy_uvs_return oM (face_loops face) (prism oBM oLoc face) st me layer _
              Hme Hl Hloops (prism_counts_ge oBM oLoc face)) as (sBM & E & Hv & Hc).
  exists sBM. split; [| split; assumption].
  rewrite scale_of_face_eq, scale_bmesh_eq.
  unfold face_verts. rewrite length_fmap.
  destruct (Nat.ltb_spec (length (face_loops face)) 3) as [Hlt | _]; [lia |].
  rewrite E. simpl.
  destruct (Nat.ltb_spec (face_material_index face) (length (materials st))) as [_ | Hge];
    [reflexivity | lia].
Qed.

(** X26. The scale as a solid. For a face the loop body can process, the body
    returns with a new object and a new mesh of its own at the end of the
    scene. The vertices of the scale are the corners of the face, in world
    coordinates, followed by the same corners moved by [u * SCALE_THICKNESS],
    where [u] is the direction computed on lines 55 and 56; the mesh holds
    them taken from their mean, and the object is at that mean moved by
    [u * DISPLACEMENT_DISTANCE]. The mesh has two faces with as many corners
    as the source face and one face with four corners for each side of it,
    in some order. Its only material slot holds the material index of the
    face. *)
Theorem scale_is_a_pushed_prism (oM : nat) (oBM : BMesh) (oLoc : Vector)
  (faceNum : nat) (face : BMFace) st (me : Mesh) (layer : list UV) :
  meshes st !! oM = Some me -> uv_layers_active me = Some layer ->
  (3 <= length (face_loops face))%nat ->
  Forall (uv_copyable layer (Nat.min (length (face_loops face)) 4)) (face_loops face) ->
  (face_material_index face < length (materials st))%nat ->
  exists st' sO sM,
    scale_of_face oM oBM oLoc faceNum face st = Return (S faceNum) st'
    /\ objects st' !! length (objects st) = Some sO
    /\ data sO = Some (length (meshes st))
    /\ meshes st' !! length (meshes st) = Some sM
    /\ (let cs := co oBM <$> face_verts face in
        let u := push_direction oBM oLoc face in
        let vs := cs ++ ((fun c => Vec.add c (Vec.mul u SCALE_THICKNESS)) <$> cs) in
        mesh_vertices sM = (fun v => Vec.sub v (median vs)) <$> vs
        /\ location sO = Vec.add (median vs) (Vec.mul u DISPLACEMENT_DISTANCE))
    /\ (fun p => length (vertices p)) <$> polygons sM
       ≡ₚ length (face_loops face) :: length (face_loops face)
          :: replicate (length (face_loops face)) 4%nat
    /\ mesh_materials sM = [Some (face_material_index face)].
Proof.
  intros Hme Hl Hn Hloops Hmat.
  destruct (scale_of_face_returns_counts oM oBM oLoc faceNum face st me layer
              Hme Hl Hn Hloops Hmat) as (sBM & E & Hv & Hc).
  eexists. eexists. eexists. split; [exact E |].
  split.
  { simpl. replace (length (objects st)) with (length (set_selected false <$> objects st))
      by apply length_fmap. apply lookup_last. }
  split; [reflexivity |].
  split; [simpl; apply lookup_last |].
  split; [| split; [| reflexivity]].
  - cbv zeta. simpl. rewrite Hv, prism_verts. split; [reflexivity |].
    rewrite add_zero_l, apply3_identity. reflexivity.
  - simpl. rewrite to_polygons_counts. fold (loop_counts sBM).
    rewrite Hc. unfold loop_counts. rewrite prism_loop_counts. reflexivity.
Qed.

Lemma scale_is_a_pushed_prism_witness :
  exists st' sM,
    scale_of_face 0 (source_bmesh cube_object (quad_mesh 1 (Some (uvs 4)) [Some 0%nat]))
                  Vec.zero 0 quad_face top_scene = Return 1%nat st'
    /\ meshes st' !! 1%nat = Some sM
    /\ (fun p => length (vertices p)) <$> polygons sM ≡ₚ [4; 4; 4; 4; 4; 4]
    /\ mesh_materials sM = [Some 0].
Proof.
  destruct (scale_is_a_pushed_prism 0
              (source_bmesh cube_object (quad_mesh 1 (Some (uvs 4)) [Some 0%nat]))
              Vec.zero 0 quad_face top_scene
              (quad_mesh 1 (Some (uvs 4)) [Some 0%nat]) (uvs 4))
    as (st' & sO & sM & E & _ & _ & Hm & _ & Hc & Hmat).
  - reflexivity.
  - reflexivity.
  - simpl. lia.
  - repeat apply Forall_cons_2; try apply Forall_nil_2;
      unfold uv_copyable, uvs; repeat split; first [cbn; lia | vm_compute; lia].
  - simpl. lia.
  - exists st', sM. split; [exact E |]. split; [exact Hm |].
    split; [exact Hc | exact Hmat].
Defined.

End ScaleSolid.

Section PartialRuns.
Implicit Types (st : State).

Lemma fold_each_app {A B} (body : A -> B -> M A) (l1 l2 : list B) (a : A) st :
  fold_each (l1 ++ l2) a body st
  = match fold_each l1 a body st with
    | Return a' st' => fold_each l2 a' body st'
    | Raise e st' => Raise e st'
    end.
Proof.
  revert a st. induction l1 as [| b l1 IH]; intros a st; [reflexivity |].
  simpl. unfold bind. destruct (body a b st) as [a' st' | e st']; [apply IH | reflexivity].
Qed.

(** the face of the source BMesh made from the polygon [p] *)
Lemma good_face_of_polygon (me : Mesh) (m : Vector -> Vector) (layer : list UV)
  (nmat : nat) (ps : list MeshPolygon) :
  Forall (good_polygon layer nmat) ps ->
  Forall (good_face layer nmat)
         (bm_faces (bmesh_transform m
                      (from_mesh (mkMesh (mesh_name me) (mesh_vertices me) ps
                                         (uv_layers_active me) (mesh_materials me))))).
Proof. apply (good_faces_from_mesh (mkMesh _ _ ps _ _)). Qed.

(** X27. The script is not all or nothing. With an active object, when the
    material index of a face is out of the range of [bpy.data.materials], and
    the faces before it and the face itself are otherwise fit, the script
    raises [IndexError] at line 85 for that face: the scales of the faces
    before it and the scale of the face itself are in the scene by then, the
    last one without material slot. *)
Theorem shedScaleSkin_stops_at_bad_material st (o : nat) (ob : Object) (oM : nat)
  (me : Mesh) (layer : list UV) (ps1 ps2 : list MeshPolygon) (p : MeshPolygon) :
  is_Some (active st) ->
  find_name originalObjectName (objects st) 0 = Some o ->
  objects st !! o = Some ob -> data ob = Some oM -> meshes st !! oM = Some me ->
  uv_layers_active me = Some layer ->
  polygons me = ps1 ++ p :: ps2 ->
  Forall (good_polygon layer (length (materials st))) ps1 ->
  4 <= length (vertices p) ->
  loop_start p + length (vertices p) <= length layer ->
  length (materials st) <= material_index p ->
  exists st',
    shedScaleSkin st = Raise IndexError st'
    /\ length (objects st') = length (objects st) + length ps1 + 1
    /\ material_slots st' (length (objects st) + length ps1) = [].
Proof.
  intros [a Ha] Hf Ho Hd Hme Hl Hps Hgood H4 Hlayer Hbad.
  rewrite shedScaleSkin_eq, Ha. cbv zeta. rewrite Hf, Ho, Hd, Hme.
  set (st1 := select_set o true (select_all_DESELECT st)).
  set (oBM := bmesh_transform (matrix_world ob) (from_mesh me)).
  pose proof (good_face_of_polygon me (matrix_world ob) layer _ ps1 Hgood) as G1.
  assert (Gp : Forall (good_polygon layer (S (material_index p))) [p]).
  { apply Forall_cons_2; [| apply Forall_nil_2]. repeat split; try assumption. lia. }
  pose proof (good_face_of_polygon me (matrix_world ob) layer _ [p] Gp) as G2.
  assert (Hfaces : bm_faces oBM
                   = bm_faces (bmesh_transform (matrix_world ob)
                                 (from_mesh (mkMesh (mesh_name me) (mesh_vertices me) ps1
                                               (uv_layers_active me) (mesh_materials me))))
                     ++ bm_faces (bmesh_transform (matrix_world ob)
                                    (from_mesh (mkMesh (mesh_name me) (mesh_vertices me)
                                                  (p :: ps2)
                                                  (uv_layers_active me) (mesh_materials me))))).
  { unfold oBM. simpl. rewrite Hps, fmap_app. reflexivity. }
  rewrite Hfaces, fold_each_app.
  destruct (scales_fold oM oBM (location ob) me layer _ 0 st1 Hme Hl G1)
    as (stk & E & K & Hlo & Hlm & _).
  rewrite E. simpl bm_faces. rewrite fold_each_cons.
  simpl in G2. apply Forall_cons in G2 as [(H3 & Huv & _) _].
  rewrite scale_of_face_eq, scale_bmesh_eq.
  match goal with
  | |- context [fold_each (face_loops ?f) (prism oBM ?loc ?f) ?body stk] =>
      destruct (copy_uvs_return oM (face_loops f) (prism oBM loc f) stk me layer _
                  (proj1 (proj2 K) _ _ Hme) Hl Huv (prism_counts_ge oBM loc f))
        as (sBM & Ec & _ & _);
      rewrite Ec
  end.
  unfold face_verts. rewrite length_fmap.
  match goal with
  | |- context [(length ?l <? 3)%nat] =>
      destruct (Nat.ltb_spec (length l) 3) as [Hlt | _];
        [simpl in Hlt; rewrite length_imap in Hlt; lia |]
  end.
  cbv zeta beta iota. simpl face_material_index.
  destruct K as (_ & _ & Hmat & _).
  destruct (Nat.ltb_spec (material_index p) (length (materials stk))) as [Hlt | _];
    [rewrite Hmat in Hlt; simpl in Hlt; lia |].
  eexists. split; [reflexivity |].
  assert (Ho1 : length (objects st1) = length (objects st)).
  { unfold st1. simpl. rewrite length_alter, length_fmap. reflexivity. }
  rewrite Ho1 in Hlo.
  match type of Hlo with
  | _ = _ + length ?x =>
      assert (Hk : length x = length ps1) by (simpl; apply length_fmap);
      rewrite Hk in Hlo
  end.
  split.
  - simpl. rewrite length_app, length_fmap. simpl. lia.
  - unfold material_slots, object_mesh. simpl.
    replace (length (objects st) + length ps1)
      with (length (set_selected false <$> objects stk))
      by (rewrite length_fmap; lia).
    rewrite lookup_last. simpl. rewrite lookup_last. reflexivity.
Qed.

(** On [bad_material_scene] the first quad gets its scale, and the second
    quad, whose material index is out of range, gets one without material
    slot. *)
Lemma shedScaleSkin_stops_at_bad_material_witness :
  exists st', shedScaleSkin bad_material_scene = Raise IndexError st'
              /\ length (objects st') = 3
              /\ material_slots st' 2 = [].
Proof.
  destruct (shedScaleSkin_stops_at_bad_material
              bad_material_scene 0 cube_object 0
              (two_quads_mesh 0 5) uv_layer8 [mkPolygon [0; 1; 2; 3] 0 0] []
              (mkPolygon [1; 4; 5; 2] 4 5))
    as (st' & E & Hl & Hs).
  - eexists. reflexivity.
  - reflexivity.
  - reflexivity.
  - reflexivity.
  - reflexivity.
  - reflexivity.
  - reflexivity.
  - apply Forall_cons_2; [| apply Forall_nil_2]. repeat split; simpl; lia.
  - simpl. lia.
  - simpl. lia.
  - simpl. lia.
  - exists st'. split; [exact E |]. split; [exact Hl | exact Hs].
Defined.

End PartialRuns.

Section TriangleFaces.
Implicit Types (st : State).

Lemma copy_uv_raises (oM : nat) (sBM : BMesh) (loop : BMLoop) st
  (me : Mesh) (layer : list UV) :
  meshes st !! oM = Some me -> uv_layers_active me = Some layer ->
  (0 <= loop_index loop)%Z -> Z.to_nat (loop_index loop) < length layer ->
  Exists (fun c => c <= Z.to_nat (loop_index loop mod 4)) (loop_counts sBM) ->
  copy_uv oM sBM loop st = Raise IndexError st.
Proof.
  intros Hme Hl H0 Hlt Hex.
  unfold copy_uv, bind, gets. simpl. rewrite Hme. simpl. rewrite Hl. simpl.
  rewrite py_getitem_nonneg by exact H0.
  destruct (lookup_lt_is_Some_2 layer _ Hlt) as [uv ->]. simpl.
  unfold set_faces_uv. rewrite mapM_set_loop_uv_None; [reflexivity | apply mod4_nonneg |].
  unfold loop_counts in Hex. rewrite Exists_fmap in Hex. exact Hex.
Qed.

Lemma copy_uvs_raise (oM : nat) (loops : list BMLoop) st (me : Mesh) (layer : list UV) :
  meshes st !! oM = Some me -> uv_layers_active me = Some layer ->
  Forall (fun l => (0 <= loop_index l)%Z /\ Z.to_nat (loop_index l) < length layer) loops ->
  Exists (fun l => (loop_index l mod 4 = 3)%Z) loops ->
  forall sBM,
    Forall (fun c => 3 <= c) (loop_counts sBM) ->
    Exists (fun c => c <= 3) (loop_counts sBM) ->
    fold_each loops sBM (copy_uv oM) st = Raise IndexError st.
Proof.
  intros Hme Hl Hrange. induction Hrange as [| l loops [H0 Hlt] _ IH];
    intros Hex sBM Hge Hthree.
  - inversion Hex.
  - rewrite fold_each_cons.
    destruct (Z.eq_dec (loop_index l mod 4)%Z 3%Z) as [E3 | Hne].
    + rewrite (copy_uv_raises oM sBM l st me layer Hme Hl H0 Hlt); [reflexivity |].
      rewrite E3. exact Hthree.
    + destruct (copy_uv_returns oM sBM l st me layer 3 Hme Hl) as (sBM1 & E & _ & Hc).
      { repeat split; try assumption.
        pose proof (Z.mod_pos_bound (loop_index l) 4). lia. }
      { exact Hge. }
      rewrite E. apply IH.
      * apply Exists_cons in Hex as [Hbad | Hex]; [contradiction | exact Hex].
      * rewrite Hc. exact Hge.
      * rewrite Hc. exact Hthree.
Qed.

(** X28. Triangles. The loop body on a triangle whose loops have UV coordinates
    in the source mesh raises [IndexError] at line 65 when the index of one
    of its loops is 3 modulo 4, before it has changed the scene; when none
    is, it returns and adds a scale, as for a quad. *)
Theorem triangle_raises_or_not (oM : nat) (oBM : BMesh) (oLoc : Vector) (faceNum : nat)
  (face : BMFace) st (me : Mesh) (layer : list UV) :
  meshes st !! oM = Some me -> uv_layers_active me = Some layer ->
  length (face_loops face) = 3 ->
  Forall (fun l => (0 <= loop_index l)%Z /\ Z.to_nat (loop_index l) < length layer)
         (face_loops face) ->
  face_material_index face < length (materials st) ->
  (Exists (fun l => (loop_index l mod 4 = 3)%Z) (face_loops face) ->
   scale_of_face oM oBM oLoc faceNum face st = Raise IndexError st)
  /\ (Forall (fun l => (loop_index l mod 4 <> 3)%Z) (face_loops face) ->
      exists st', scale_of_face oM oBM oLoc faceNum face st = Return (S faceNum) st'
                  /\ length (objects st') = S (length (objects st))).
Proof.
  intros Hme Hl H3 Hrange Hmat. split.
  - intros Hex. rewrite scale_of_face_eq, scale_bmesh_eq.
    unfold face_verts. rewrite length_fmap, H3. simpl Nat.ltb. cbv iota.
    rewrite (copy_uvs_raise oM (face_loops face) st me layer Hme Hl Hrange Hex);
      [reflexivity | |]; unfold loop_counts; rewrite prism_loop_counts, H3.
    + repeat apply Forall_cons_2; try apply Forall_nil_2; lia.
    + apply Exists_cons_hd. lia.
  - intros Hnone.
    destruct (scale_of_face_returns oM oBM oLoc faceNum face st me layer Hme Hl)
      as (sBM & E & _).
    + lia.
    + rewrite H3. simpl Nat.min.
      rewrite Forall_forall in *. intros l Hin.
      destruct (Hrange l Hin) as [H0 Hlt]. specialize (Hnone l Hin).
      repeat split; try assumption.
      pose proof (Z.mod_pos_bound (loop_index l) 4). lia.
    + exact Hmat.
    + eexists. split; [exact E |]. simpl. rewrite length_app, length_fmap. simpl. lia.
Qed.

Lemma triangle_raises_or_not_witness :
  scale_of_face 0 (source_bmesh cube_object triangles_mesh) Vec.zero 1
                (mkFace [mkLoop 0 3 uv_zero; mkLoop 2 4 uv_zero; mkLoop 3 5 uv_zero] 0)
                triangles_scene
  = Raise IndexError triangles_scene.
Proof.
  apply (triangle_raises_or_not 0 (source_bmesh cube_object triangles_mesh) Vec.zero 1
           (mkFace [mkLoop 0 3 uv_zero; mkLoop 2 4 uv_zero; mkLoop 3 5 uv_zero] 0)
           triangles_scene triangles_mesh (uvs 6)).
  - reflexivity.
  - reflexivity.
  - reflexivity.
  - repeat apply Forall_cons_2; try apply Forall_nil_2; simpl; lia.
  - simpl. lia.
  - apply Exists_cons_hd. reflexivity.
Defined.

End TriangleFaces.

Section UVs.
Implicit Types (st : State).

Lemma set_loop_uv_at (i : Z) (uv : UV) (f f' : BMFace) :
  (0 <= i)%Z -> set_loop_uv i uv f = Some f' ->
  loop_uv <$> (face_loops f' !! Z.to_nat i) = Some uv
  /\ forall j, j <> Z.to_nat i -> face_loops f' !! j = face_loops f !! j.
Proof.
  intros Hi. unfold set_loop_uv. rewrite py_getitem_nonneg by exact Hi.
  destruct (Z.leb_spec 0 i) as [_ | Hn]; [| lia].
  destruct (face_loops f !! Z.to_nat i) as [l |] eqn:El; [| discriminate].
  intros [= <-]. simpl. split.
  - rewrite list_lookup_insert_eq by (eapply lookup_lt_Some; exact El). reflexivity.
  - intros j Hj. apply list_lookup_insert_ne. congruence.
Qed.

Lemma copy_uv_at (oM : nat) (sBM sBM' : BMesh) (loop : BMLoop) st (st' : State)
  (me : Mesh) (layer : list UV) :
  copy_uv oM sBM loop st = Return sBM' st' ->
  meshes st !! oM = Some me -> uv_layers_active me = Some layer ->
  (0 <= loop_index loop)%Z ->
  exists uv,
    layer !! Z.to_nat (loop_index loop) = Some uv
    /\ uv_at sBM' (Z.to_nat (loop_index loop mod 4)) uv
    /\ forall j uv', j <> Z.to_nat (loop_index loop mod 4) ->
                     uv_at sBM j uv' -> uv_at sBM' j uv'.
Proof.
  intros E Hme Hl H0. unfold copy_uv, bind, gets in E. simpl in E.
  rewrite Hme in E. simpl in E. rewrite Hl in E. simpl in E.
  rewrite py_getitem_nonneg in E by exact H0.
  destruct (layer !! Z.to_nat (loop_index loop)) as [uv |]; [| discriminate].
  simpl in E. unfold set_faces_uv in E.
  destruct (mapM (set_loop_uv (loop_index loop mod 4) uv) (bm_faces sBM)) as [fs |] eqn:Em;
    [| discriminate].
  simpl in E. injection E as <- _. apply mapM_Some in Em.
  exists uv. split; [reflexivity |]. unfold uv_at. simpl. split.
  - apply Forall_forall. intros f' Hin.
    apply list_elem_of_lookup in Hin as [k Hk].
    destruct (Forall2_lookup_r _ _ _ _ _ Em Hk) as (f & _ & Hf).
    apply (set_loop_uv_at _ _ _ _ (mod4_nonneg _) Hf).
  - intros j uv' Hj Hat. apply Forall_forall. intros f' Hin.
    apply list_elem_of_lookup in Hin as [k Hk].
    destruct (Forall2_lookup_r _ _ _ _ _ Em Hk) as (f & Hfk & Hf).
    destruct (set_loop_uv_at _ _ _ _ (mod4_nonneg _) Hf) as [_ Hsame].
    rewrite (Hsame j Hj). rewrite Forall_forall in Hat. apply Hat.
    eapply list_elem_of_lookup_2. exact Hfk.
Qed.

Lemma copy_uvs_keep (oM : nat) (loops : list BMLoop) st (me : Mesh) (layer : list UV)
  (j : nat) (uv : UV) :
  meshes st !! oM = Some me -> uv_layers_active me = Some layer ->
  Forall (fun l => (0 <= loop_index l)%Z /\ j <> Z.to_nat (loop_index l mod 4)) loops ->
  forall sBM sBM' st',
    fold_each loops sBM (copy_uv oM) st = Return sBM' st' ->
    uv_at sBM j uv -> uv_at sBM' j uv.
Proof.
  intros Hme Hl. induction 1 as [| l loops [H0 Hj] _ IH]; intros sBM sBM' st' E Hat.
  - injection E as <- _. exact Hat.
  - rewrite fold_each_cons in E.
    pose proof (copy_uv_final oM sBM l st) as Hf.
    destruct (copy_uv oM sBM l st) as [sBM1 st1 |] eqn:E1; [| discriminate].
    simpl in Hf. subst st1.
    destruct (copy_uv_at oM sBM sBM1 l st st me layer E1 Hme Hl H0) as (_ & _ & _ & Hkeep).
    eapply IH; [exact E |]. apply Hkeep; assumption.
Qed.

Lemma copy_uvs_at (oM : nat) (loops : list BMLoop) st (me : Mesh) (layer : list UV) :
  meshes st !! oM = Some me -> uv_layers_active me = Some layer ->
  Forall (fun l => (0 <= loop_index l)%Z) loops ->
  NoDup ((fun l => (loop_index l mod 4)%Z) <$> loops) ->
  forall sBM sBM' st',
    fold_each loops sBM (copy_uv oM) st = Return sBM' st' ->
    forall l, l ∈ loops ->
      exists uv, layer !! Z.to_nat (loop_index l) = Some uv
                 /\ uv_at sBM' (Z.to_nat (loop_index l mod 4)) uv.
Proof.
  intros Hme Hl. induction 1 as [| l0 loops H0 Hpos IH]; intros Hnd sBM sBM' st' E l Hin.
  - exfalso. exact (not_elem_of_nil _ Hin).
  - rewrite fmap_cons in Hnd. apply NoDup_cons in Hnd as [Hfresh Hnd].
    rewrite fold_each_cons in E.
    pose proof (copy_uv_final oM sBM l0 st) as Hf.
    destruct (copy_uv oM sBM l0 st) as [sBM1 st1 |] eqn:E1; [| discriminate].
    simpl in Hf. subst st1.
    apply elem_of_cons in Hin as [-> | Hin].
    + destruct (copy_uv_at oM sBM sBM1 l0 st st me layer E1 Hme Hl H0)
        as (uv & Huv & Hat & _).
      exists uv. split; [exact Huv |].
      eapply (copy_uvs_keep oM loops st me layer); try eassumption.
      rewrite Forall_forall in *. intros l' Hin'. split; [apply Hpos, Hin' |].
      intros Heq. apply Hfresh. apply list_elem_of_fmap. exists l'. split; [| exact Hin'].
      pose proof (mod4_nonneg (loop_index l0)). pose proof (mod4_nonneg (loop_index l')).
      lia.
    + eapply IH; eassumption.
Qed.

(** X29. The UV coordinates of a scale, lines 60 to 65. When the first part of
    the loop body returns for a face whose loop indices differ modulo 4 (as
    those of a quad do), every face of the scale, the sides too, has on its
    loop at position [i mod 4] the UV coordinate that the source mesh has for
    the loop [i] of the face. *)
Theorem scale_uvs (oM : nat) (oBM : BMesh) (oLoc : Vector) (face : BMFace) st
  (me : Mesh) (layer : list UV) (sBM : BMesh) (v : Vector) (st' : State) :
  scale_bmesh oM oBM oLoc face st = Return (sBM, v) st' ->
  meshes st !! oM = Some me -> uv_layers_active me = Some layer ->
  Forall (fun l => (0 <= loop_index l)%Z) (face_loops face) ->
  NoDup ((fun l => (loop_index l mod 4)%Z) <$> face_loops face) ->
  forall l f, l ∈ face_loops face -> f ∈ bm_faces sBM ->
    exists uv, layer !! Z.to_nat (loop_index l) = Some uv
               /\ loop_uv <$> (face_loops f !! Z.to_nat (loop_index l mod 4)) = Some uv.
Proof.
  intros E Hme Hl Hpos Hnd l f Hin Hf.
  rewrite scale_bmesh_eq in E.
  destruct (length (face_verts face) <? 3); [discriminate |].
  destruct (fold_each (face_loops face) (prism oBM oLoc face) (copy_uv oM) st)
    as [b s1 |] eqn:Ef; [| discriminate].
  injection E as <- _ _.
  destruct (copy_uvs_at oM (face_loops face) st me layer Hme Hl Hpos Hnd _ _ _ Ef l Hin)
    as (uv & Huv & Hat).
  exists uv. split; [exact Huv |].
  unfold uv_at in Hat. rewrite Forall_forall in Hat. apply Hat, Hf.
Qed.

(** On the second quad of [two_quads_mesh], whose loops are 4 to 7: the UV
    coordinate of loop 6 is (3, 1), and every face of the scale has it on its
    loop at position 2. *)
Lemma scale_uvs_witness :
  exists sBM,
    scale_bmesh 0 (source_bmesh cube_object (two_quads_mesh 0 0))
                Vec.zero (second_quad_face 0) named_scene
    = Return (sBM, push_direction (source_bmesh cube_object (two_quads_mesh 0 0))
                     Vec.zero (second_quad_face 0)) named_scene
    /\ bm_faces (source_bmesh cube_object (two_quads_mesh 0 0)) !! 1
       = Some (second_quad_face 0)
    /\ forall f, f ∈ bm_faces sBM ->
         loop_uv <$> (face_loops f !! 2) = Some (3, 1)%R.
Proof.
  destruct (copy_uvs_return 0 (face_loops (second_quad_face 0))
              (prism (source_bmesh cube_object (two_quads_mesh 0 0))
                     Vec.zero (second_quad_face 0))
              named_scene (two_quads_mesh 0 0) uv_layer8 4 eq_refl eq_refl)
    as (sBM & Ec & _ & _).
  { repeat apply Forall_cons_2; try apply Forall_nil_2;
      unfold uv_copyable; simpl; repeat split; first [lia | vm_compute; lia]. }
  { apply (prism_counts_ge _ Vec.zero (second_quad_face 0)). }
  assert (E : scale_bmesh 0 (source_bmesh cube_object (two_quads_mesh 0 0))
                Vec.zero (second_quad_face 0) named_scene
              = Return (sBM, push_direction
                               (source_bmesh cube_object (two_quads_mesh 0 0))
                               Vec.zero (second_quad_face 0)) named_scene).
  { rewrite scale_bmesh_eq. simpl Nat.ltb. cbv iota. rewrite Ec. reflexivity. }
  exists sBM. split; [exact E |]. split; [reflexivity |].
  intros f Hf.
  destruct (scale_uvs 0 _ Vec.zero (second_quad_face 0) named_scene
              (two_quads_mesh 0 0) uv_layer8 sBM _ named_scene E eq_refl eq_refl)
    with (l := mkLoop 5 6 (3, 1)%R) (f := f) as (uv & Huv & Hat).
  - repeat apply Forall_cons_2; try apply Forall_nil_2; simpl; lia.
  - simpl. repeat apply NoDup_cons_2; try apply NoDup_nil_2;
      rewrite ?elem_of_cons, ?elem_of_nil; vm_compute; intuition discriminate.
  - simpl. do 2 apply list_elem_of_further. apply list_elem_of_here.
  - exact Hf.
  - change (Some (3, 1)%R = Some uv) in Huv. injection Huv as <-. exact Hat.
Defined.

End UVs.
